(** * vim-mesa: the Fortran namelist reader and writer of [mesa_namelists.py]

    A shallow embedding of [format_value_to_fortran], [dump],
    [AttributeMapper.__setattr__], [Namelist.__init__],
    [Namelist._parse_value] and [Namelist._check_lists], together with the
    parts of Python they rest on: [str] methods, [int()], [float()],
    [str.format] for [{:d}] and [{:.2e}], and [re.findall] for the four
    patterns the module compiles.

    Text is a list of characters; a character is a code point below 256
    (Latin-1).  A Python [float] is a binary64 number, [spec_float] with
    53 bits of precision and [emax = 1024]. *)

From Stdlib Require Import String Ascii.
From Stdlib Require Import List ZArith NArith Bool Arith Lia.
From Stdlib Require Decimal DecimalZ DecimalPos DecimalN DecimalNat DecimalFacts.
From Stdlib Require Import SpecFloat.
Import ListNotations.

Local Open Scope Z_scope.
Local Open Scope list_scope.

(** ** Python exceptions and the result of a call *)

Module Py.

Definition str := list ascii.

(** A string literal as a [str]. *)
Definition lit (s : string) : str := list_ascii_of_string s.

Inductive exc :=
| ValueError
| IndexError
| TypeError
| KeyError (key : str)
| NameError (name : str)
| AttributeError
| NotImplementedError
| NoSingleValueFoundException (text : str)
| Exception_ (msg : str).

Inductive result (A : Type) :=
| Ok (a : A)
| Raise (e : exc).
Arguments Ok {A} a.
Arguments Raise {A} e.

Definition bind {A B} (r : result A) (k : A -> result B) : result B :=
  match r with
  | Ok a => k a
  | Raise e => Raise e
  end.

End Py.
Export Py.

Declare Scope py_scope.
Delimit Scope py_scope with py.
Notation "x <- c ;; k" := (bind c (fun x => k))
  (at level 61, c at next level, right associativity) : py_scope.
Notation "' p <- c ;; k" := (bind c (fun x => match x with p => k end))
  (at level 61, p pattern, c at next level, right associativity) : py_scope.
Open Scope py_scope.

(** ** [str] methods *)

Module Str.

Definition nl : ascii := ascii_of_N 10.
Definition quote : ascii := "'"%char.
Definition dquote : ascii := ascii_of_N 34.

Definition code (c : ascii) : N := N_of_ascii c.

Definition in_range (lo hi : N) (c : ascii) : bool :=
  ((lo <=? code c) && (code c <=? hi))%N.

(** [str.isspace] on one character; also the class [\s] of [re]. *)
Definition isspace (c : ascii) : bool :=
  in_range 9 13 c || in_range 28 32 c || (code c =? 133)%N || (code c =? 160)%N.

(** The class [\d] of [re] and the decimal digits of [int()]. *)
Definition isdigit (c : ascii) : bool := in_range 48 57 c.

(** The class [\w] of [re] for [str] patterns: alphanumerics and the
    underscore. *)
Definition isword (c : ascii) : bool :=
  isdigit c || in_range 65 90 c || in_range 97 122 c || (code c =? 95)%N
  || (code c =? 170)%N || in_range 178 179 c || (code c =? 181)%N
  || in_range 185 186 c || in_range 188 190 c
  || in_range 192 214 c || in_range 216 246 c || in_range 248 255 c.

Fixpoint lstrip_by (p : ascii -> bool) (s : str) : str :=
  match s with
  | c :: s' => if p c then lstrip_by p s' else s
  | [] => []
  end.

Definition rstrip_by (p : ascii -> bool) (s : str) : str :=
  rev (lstrip_by p (rev s)).

Definition strip_by (p : ascii -> bool) (s : str) : str :=
  rstrip_by p (lstrip_by p s).

(** [s.strip()] *)
Definition strip (s : str) : str := strip_by isspace s.

Fixpoint startswith (s pre : str) {struct pre} : bool :=
  match pre, s with
  | [], _ => true
  | p :: pre', c :: s' => Ascii.eqb c p && startswith s' pre'
  | _ :: _, [] => false
  end.

Definition endswith (s suf : str) : bool := startswith (rev s) (rev suf).

(** [s.split(sep)] for a separator of one character. *)
Fixpoint split (sep : ascii) (s : str) : list str :=
  match s with
  | [] => [[]]
  | c :: s' =>
      if Ascii.eqb c sep then [] :: split sep s'
      else match split sep s' with
           | p :: ps => (c :: p) :: ps
           | [] => [[c]]
           end
  end.

(** [s.split()]: the maximal runs of characters that are not spaces. *)
Fixpoint split_ws (s : str) : list str :=
  match s with
  | [] => []
  | c :: s' =>
      if isspace c then split_ws s'
      else match s' with
           | [] => [[c]]
           | c' :: _ =>
               if isspace c' then [c] :: split_ws s'
               else match split_ws s' with
                    | w :: ws => (c :: w) :: ws
                    | [] => [[c]]
                    end
           end
  end.

(** [sep.join(parts)] *)
Fixpoint join (sep : str) (parts : list str) : str :=
  match parts with
  | [] => []
  | [p] => p
  | p :: ps => p ++ sep ++ join sep ps
  end.

(** [s.replace(a, b)] for one-character [a] and [b]. *)
Definition replace (a b : ascii) (s : str) : str :=
  map (fun c => if Ascii.eqb c a then b else c) s.

(** [s.count(a)] for a one-character [a]. *)
Definition count (a : ascii) (s : str) : nat :=
  length (filter (Ascii.eqb a) s).

(** [a in s] for a one-character [a]. *)
Definition contains (a : ascii) (s : str) : bool := existsb (Ascii.eqb a) s.

Fixpoint eqb (a b : str) : bool :=
  match a, b with
  | [], [] => true
  | x :: a', y :: b' => Ascii.eqb x y && eqb a' b'
  | _, _ => false
  end.

(** [s[1:-1]] *)
Definition slice_1_m1 (s : str) : str := removelast (tl s).

(** [s[:-1]] *)
Definition slice_m1 (s : str) : str := removelast s.

Definition lower (c : ascii) : ascii :=
  if in_range 65 90 c then ascii_of_N (code c + 32) else c.

End Str.

(** ** Numbers: [int()], [float()], [{:d}] and [{:.2e}] *)

Module Num.
Import Str.

(** The white space [int()] and [float()] skip around a number. *)
Definition numspace (c : ascii) : bool :=
  in_range 9 13 c || (code c =? 32)%N || (code c =? 133)%N || (code c =? 160)%N.

(** [digit (["_"] digit)*]: the digits read, without the underscores, and
    the text left. *)
Fixpoint digitpart (s : str) : str * str :=
  match s with
  | c :: s' =>
      if isdigit c then
        match s' with
        | u :: ((c2 :: _) as s'') =>
            if Ascii.eqb u "_" && isdigit c2
            then let (ds, r) := digitpart s'' in (c :: ds, r)
            else let (ds, r) := digitpart s' in (c :: ds, r)
        | _ => let (ds, r) := digitpart s' in (c :: ds, r)
        end
      else ([], s)
  | [] => ([], [])
  end.

Definition digit_of_char (c : ascii) : Decimal.uint -> Decimal.uint :=
  match code c with
  | 48%N => Decimal.D0 | 49%N => Decimal.D1 | 50%N => Decimal.D2
  | 51%N => Decimal.D3 | 52%N => Decimal.D4 | 53%N => Decimal.D5
  | 54%N => Decimal.D6 | 55%N => Decimal.D7 | 56%N => Decimal.D8
  | _ => Decimal.D9
  end.

Fixpoint uint_of_digits (ds : str) : Decimal.uint :=
  match ds with
  | [] => Decimal.Nil
  | c :: r => digit_of_char c (uint_of_digits r)
  end.

Fixpoint digits_of_uint (u : Decimal.uint) : str :=
  match u with
  | Decimal.Nil => []
  | Decimal.D0 u => "0"%char :: digits_of_uint u
  | Decimal.D1 u => "1"%char :: digits_of_uint u
  | Decimal.D2 u => "2"%char :: digits_of_uint u
  | Decimal.D3 u => "3"%char :: digits_of_uint u
  | Decimal.D4 u => "4"%char :: digits_of_uint u
  | Decimal.D5 u => "5"%char :: digits_of_uint u
  | Decimal.D6 u => "6"%char :: digits_of_uint u
  | Decimal.D7 u => "7"%char :: digits_of_uint u
  | Decimal.D8 u => "8"%char :: digits_of_uint u
  | Decimal.D9 u => "9"%char :: digits_of_uint u
  end.

(** The number a run of decimal digits denotes. *)
Definition digits_val (ds : str) : Z := Z.of_uint (uint_of_digits ds).

Definition split_sign (s : str) : bool * str :=
  match s with
  | c :: r =>
      if Ascii.eqb c "-" then (true, r)
      else if Ascii.eqb c "+" then (false, r)
      else (false, s)
  | [] => (false, [])
  end.

(** [int(s)]; [None] stands for [ValueError].  An integer is a [Z]: the
    bound that newer interpreters put on the number of digits of a
    conversion (4300 unless configured) is left out, here and in
    [format_d]. *)
Definition int (s : str) : option Z :=
  let (neg, r) := split_sign (strip_by numspace s) in
  match digitpart r with
  | ((_ :: _) as ds, []) => Some (if neg then - digits_val ds else digits_val ds)
  | _ => None
  end.

(** ['{:d}'.format(z)] and [str(z)] *)
Definition format_d (z : Z) : str :=
  match Z.to_int z with
  | Decimal.Pos u => digits_of_uint u
  | Decimal.Neg u => "-"%char :: digits_of_uint u
  end.

(** *** binary64 *)

Definition prec : Z := 53.
Definition emax : Z := 1024.

(** The binary64 number nearest to [m * 10^e10] (ties to even), with the
    sign [neg]: the correctly rounded conversion [float()] performs. *)
Definition of_decimal (neg : bool) (m : Z) (e10 : Z) : spec_float :=
  match m with
  | Z0 => S754_zero neg
  | Zpos p =>
      if 0 <=? e10 then
        match Zpos p * 10 ^ e10 with
        | Zpos q => binary_round prec emax neg q 0
        | _ => S754_nan
        end
      else
        let '(q, e2, l) :=
          SFdiv_core_binary prec emax (Zpos p) 0 (10 ^ (- e10)) 0 in
        binary_round_aux prec emax neg q e2 l
  | Zneg _ => S754_nan
  end.

(** The float of an integer, as in [float(150)]. *)
Definition of_Z (z : Z) : spec_float := binary_normalize prec emax z 0 false.

(** A decimal number without its sign: digits with a point somewhere, then
    possibly an exponent. *)
Definition float_number (neg : bool) (r : str) : option spec_float :=
  let (ip, r1) := digitpart r in
  let (fp, r2) := match r1 with
                  | c :: r1' => if Ascii.eqb c "." then digitpart r1' else ([], r1)
                  | [] => ([], [])
                  end in
  match ip ++ fp with
  | [] => None
  | ds =>
      let m := digits_val ds in
      let shift := Z.of_nat (length fp) in
      match r2 with
      | [] => Some (of_decimal neg m (- shift))
      | c :: r3 =>
          if Ascii.eqb c "e" || Ascii.eqb c "E" then
            let (eneg, r4) := split_sign r3 in
            match digitpart r4 with
            | ((_ :: _) as es, []) =>
                let e := if eneg then - digits_val es else digits_val es in
                Some (of_decimal neg m (e - shift))
            | _ => None
            end
          else None
      end
  end.

(** [float(s)]; [None] stands for [ValueError]. *)
Definition float (s : str) : option spec_float :=
  let (neg, r) := split_sign (strip_by numspace s) in
  let lr := map lower r in
  if Str.eqb lr (lit "inf") || Str.eqb lr (lit "infinity")
  then Some (S754_infinity neg)
  else if Str.eqb lr (lit "nan") then Some S754_nan
  else float_number neg r.

(** The decimal exponent of [num / den]: the [k] with
    [10^k <= num/den < 10^(k+1)], searched upwards from [k] when
    [den * 10^k <= num]. *)
Fixpoint exp10_up (fuel : nat) (num den k : Z) : Z :=
  match fuel with
  | O => k
  | S f => if den * 10 ^ (k + 1) <=? num then exp10_up f num den (k + 1) else k
  end.

(** The same for [num < den]: the least [j >= 1] with [den <= num * 10^j],
    searched upwards from [j]. *)
Fixpoint exp10_down (fuel : nat) (num den j : Z) : Z :=
  match fuel with
  | O => j
  | S f => if den <=? num * 10 ^ j then j else exp10_down f num den (j + 1)
  end.

Definition exp10 (num den : Z) : Z :=
  if den <=? num then exp10_up (Z.to_nat (Z.log2 num) + 1) num den 0
  else - exp10_down (Z.to_nat (Z.log2 den) + 1) num den 1.

(** [a / b] rounded to the nearest integer, ties to even. *)
Definition div_half_even (a b : Z) : Z :=
  let q := a / b in
  let r := a mod b in
  match 2 * r ?= b with
  | Lt => q
  | Gt => q + 1
  | Eq => if Z.even q then q else q + 1
  end.

(** The three significant decimal digits and the decimal exponent of
    [m * 2^e], correctly rounded: [(d, k)] stands for [d/100 * 10^k]. *)
Definition round3 (m : positive) (e : Z) : Z * Z :=
  let num := if 0 <=? e then Zpos m * 2 ^ e else Zpos m in
  let den := if 0 <=? e then 1 else 2 ^ (- e) in
  let k := exp10 num den in
  let d := if 2 <=? k then div_half_even num (den * 10 ^ (k - 2))
           else div_half_even (num * 10 ^ (2 - k)) den in
  if d =? 1000 then (100, k + 1) else (d, k).

Definition digit_char (d : Z) : ascii := ascii_of_N (48 + Z.to_N (d mod 10)).

Definition format_exp (k : Z) : str :=
  (if k <? 0 then "-"%char else "+"%char)
    :: (if Z.abs k <? 10 then ["0"%char; digit_char (Z.abs k)]
        else format_d (Z.abs k)).

(** ['{:.2e}'.format(x)] *)
Definition format_e2 (x : spec_float) : str :=
  match x with
  | S754_nan => lit "nan"
  | S754_infinity s => if s then lit "-inf" else lit "inf"
  | S754_zero s => if s then lit "-0.00e+00" else lit "0.00e+00"
  | S754_finite s m e =>
      let (d, k) := round3 m e in
      (if s then ["-"%char] else [])
        ++ [digit_char (d / 100); "."%char; digit_char (d / 10); digit_char d;
            "e"%char]
        ++ format_exp k
  end.

End Num.

(** ** [re.findall] for patterns that are a sequence of character classes,
    greedy repetitions of a class, groups and anchors *)

Module Re.
Import Str.

Inductive atom :=
| Chr (p : ascii -> bool)    (** one character of the class *)
| Star (p : ascii -> bool)   (** [p*], greedy *)
| Plus (p : ascii -> bool)   (** [p+], greedy *)
| Opt (p : ascii -> bool)    (** [p?], greedy *)
| Open                       (** [(] *)
| Close                      (** [)] *)
| Bol                        (** [^] *)
| Eol.                       (** [$] *)

Definition pattern := list atom.

Definition only (a : ascii) (c : ascii) : bool := Ascii.eqb c a.
Definition except (a : ascii) (c : ascii) : bool := negb (Ascii.eqb c a).
(** [.] without DOTALL *)
Definition dot (c : ascii) : bool := negb (Ascii.eqb c nl).

Section Matcher.
Context {R : Type}.

(** The backtracking of a greedy [p*]: the longest run first, then shorter
    ones, until the continuation [k] succeeds.  [acc] is the text consumed
    so far, last character first. *)
Fixpoint star (p : ascii -> bool) (k : str -> str -> option R)
    (acc s : str) : option R :=
  match s with
  | c :: s' =>
      if p c then
        match star p k (c :: acc) s' with
        | Some r => Some r
        | None => k acc s
        end
      else k acc s
  | [] => k acc s
  end.

(** [marks] are the positions of the group delimiters met so far, last one
    first; [bos] tells that the match starts at the beginning of the
    subject. *)
Fixpoint run (ats : pattern) (bos : bool) (marks : list nat) (acc s : str)
    (k : list nat -> str -> str -> option R) : option R :=
  match ats with
  | [] => k marks acc s
  | Chr p :: ats' =>
      match s with
      | c :: s' => if p c then run ats' bos marks (c :: acc) s' k else None
      | [] => None
      end
  | Star p :: ats' =>
      star p (fun acc' s' => run ats' bos marks acc' s' k) acc s
  | Plus p :: ats' =>
      match s with
      | c :: s' =>
          if p c
          then star p (fun acc' s' => run ats' bos marks acc' s' k) (c :: acc) s'
          else None
      | [] => None
      end
  | Opt p :: ats' =>
      match s with
      | c :: s' =>
          if p c then
            match run ats' bos marks (c :: acc) s' k with
            | Some r => Some r
            | None => run ats' bos marks acc s k
            end
          else run ats' bos marks acc s k
      | [] => run ats' bos marks acc s k
      end
  | Open :: ats' => run ats' bos (length acc :: marks) acc s k
  | Close :: ats' => run ats' bos (length acc :: marks) acc s k
  | Bol :: ats' =>
      match acc with
      | [] => if bos then run ats' bos marks acc s k else None
      | _ :: _ => None
      end
  | Eol :: ats' =>
      match s with
      | [] => run ats' bos marks acc s k
      | [c] => if Ascii.eqb c nl then run ats' bos marks acc s k else None
      | _ => None
      end
  end.

End Matcher.

Definition sub (a b : nat) (text : str) : str := firstn (b - a) (skipn a text).

(** The groups delimited by the marks, taken in pairs. *)
Fixpoint groups_of (marks : list nat) (text : str) : list str :=
  match marks with
  | a :: b :: rest => sub a b text :: groups_of rest text
  | _ => []
  end.

(** One match: the text matched and its groups. *)
Definition match_at (pat : pattern) (bos : bool) (s : str)
  : option (str * list str) :=
  run pat bos [] [] s
      (fun marks acc _ => Some (rev acc, groups_of (rev marks) (rev acc))).

(** The matches of [pat] in [s], left to right and without overlap; [skip]
    is the number of characters still covered by the last match.  The
    patterns of this module match at least one character. *)
Fixpoint scan (pat : pattern) (bos : bool) (skip : nat) (s : str)
  : list (str * list str) :=
  match s with
  | [] => []
  | _ :: s' =>
      match skip with
      | S n => scan pat false n s'
      | O =>
          match match_at pat bos s with
          | Some (m, gs) => (m, gs) :: scan pat false (length m - 1) s'
          | None => scan pat false 0 s'
          end
      end
  end.

Definition findall (pat : pattern) (s : str) : list (str * list str) :=
  scan pat true 0 s.

End Re.

(** ** Python objects and ordered dictionaries *)

Module Dict.
Section Dict.
Context {K V : Type} (keqb : K -> K -> bool).

(** A [dict] or [OrderedDict] in insertion order. *)
Definition t := list (K * V).

Fixpoint get (k : K) (d : t) : option V :=
  match d with
  | [] => None
  | (k', v) :: d' => if keqb k k' then Some v else get k d'
  end.

Definition mem (k : K) (d : t) : bool :=
  match get k d with Some _ => true | None => false end.

(** [d[k] = v]: an existing key keeps its place, a new one goes last. *)
Fixpoint set (k : K) (v : V) (d : t) : t :=
  match d with
  | [] => [(k, v)]
  | (k', v') :: d' => if keqb k k' then (k', v) :: d' else (k', v') :: set k v d'
  end.

(** [del d[k]] *)
Fixpoint del (k : K) (d : t) : t :=
  match d with
  | [] => []
  | (k', v') :: d' => if keqb k k' then d' else (k', v') :: del k d'
  end.

Definition keys (d : t) : list K := map fst d.
Definition values (d : t) : list V := map snd d.

End Dict.
End Dict.

Module Obj.
Import Str.

Inductive key :=
| KStr (s : str)
| KInt (i : Z).

Definition key_eqb (a b : key) : bool :=
  match a, b with
  | KStr x, KStr y => Str.eqb x y
  | KInt x, KInt y => Z.eqb x y
  | _, _ => false
  end.

#[warnings="-register-all"]
Inductive obj :=
| PyNone
| PyBool (b : bool)
| PyInt (z : Z)
| PyFloat (x : spec_float)
| PyComplex (re im : spec_float)
| PyStr (s : str)
| PyList (items : list obj)
| PyDict (items : list (key * obj)).

(** An [OrderedDict] keyed by strings. *)
Definition odict (V : Type) := list (str * V).

Definition oget {V} := @Dict.get str V Str.eqb.
Definition omem {V} := @Dict.mem str V Str.eqb.
Definition oset {V} := @Dict.set str V Str.eqb.

Definition dget := @Dict.get key obj key_eqb.
Definition dset := @Dict.set key obj key_eqb.
Definition ddel := @Dict.del key obj key_eqb.

(** A group of variables, and the [groups] attribute. *)
Definition group := odict obj.
Definition document := odict group.

Definition is_zero (x : spec_float) : bool :=
  match x with S754_zero _ => true | _ => false end.

(** The truth value of an object. *)
Definition truthy (o : obj) : bool :=
  match o with
  | PyNone => false
  | PyBool b => b
  | PyInt z => negb (z =? 0)
  | PyFloat x => negb (is_zero x)
  | PyComplex re im => negb (is_zero re && is_zero im)
  | PyStr s => match s with [] => false | _ => true end
  | PyList l => match l with [] => false | _ => true end
  | PyDict d => match d with [] => false | _ => true end
  end.

(** [type(o)] as [str.format] prints it. *)
Definition type_repr (o : obj) : str :=
  lit "<class '" ++
  lit (match o with
       | PyNone => "NoneType" | PyBool _ => "bool" | PyInt _ => "int"
       | PyFloat _ => "float" | PyComplex _ _ => "complex" | PyStr _ => "str"
       | PyList _ => "list" | PyDict _ => "dict"
       end) ++ lit "'>".

(** [l[i] = v] on a list. *)
Definition list_setitem (l : list obj) (i : Z) (v : obj) : result (list obj) :=
  let n := Z.of_nat (length l) in
  let j := if i <? 0 then i + n else i in
  if (0 <=? j) && (j <? n)
  then Ok (firstn (Z.to_nat j) l ++ v :: skipn (S (Z.to_nat j)) l)
  else Raise IndexError.

(** [target[i] = v] for an integer [i]. *)
Definition setitem (target : obj) (i : Z) (v : obj) : result obj :=
  match target with
  | PyDict d => Ok (PyDict (dset (KInt i) v d))
  | PyList l => l' <- list_setitem l i v ;; Ok (PyList l')
  | _ => Raise TypeError
  end.

End Obj.

(** ** The module [mesa_namelists] *)

Module Mesa.
Import Str Obj.

(** *** [format_value_to_fortran] *)

Definition format_value_to_fortran (value : obj) : result str :=
  match value with
  | PyBool b => Ok (if b then lit ".true." else lit ".false.")
  | PyInt z => Ok (Num.format_d z)
  | PyFloat x => Ok (replace "e" "d" (Num.format_e2 x))
  | PyStr s => Ok ([quote] ++ s ++ [quote])
  | PyComplex re im =>
      Ok (lit "(" ++ replace "e" "d" (Num.format_e2 re) ++ lit ","
          ++ replace "e" "d" (Num.format_e2 im) ++ lit ")")
  | _ => Raise (Exception_ (lit "Variable type not understood: " ++ type_repr value))
  end.

(** *** [dump] *)

Fixpoint format_all (vs : list obj) : result (list str) :=
  match vs with
  | [] => Ok []
  | v :: vs' =>
      t <- format_value_to_fortran v ;;
      ts <- format_all vs' ;;
      Ok (t :: ts)
  end.

(** The lines [name(n+1) = value] of [enumerate(variable_value)] from [n]
    on. *)
Fixpoint indexed_lines (variable_name : str) (n : nat) (vs : list obj)
  : result (list str) :=
  match vs with
  | [] => Ok []
  | v :: vs' =>
      t <- format_value_to_fortran v ;;
      ls <- indexed_lines variable_name (S n) vs' ;;
      Ok ((lit "   " ++ variable_name ++ lit "("
             ++ Num.format_d (Z.of_nat n + 1) ++ lit ") = " ++ t) :: ls)
  end.

(** The lines one variable adds to [lines]. *)
Definition dump_variable (array_inline : bool) (variable_name : str)
    (variable_value : obj) : result (list str) :=
  match variable_value with
  | PyList vs =>
      if array_inline then
        ts <- format_all vs ;;
        Ok [lit "   " ++ variable_name ++ lit " = " ++ join (lit " ") ts]
      else indexed_lines variable_name 0 vs
  | _ =>
      t <- format_value_to_fortran variable_value ;;
      Ok [lit "   " ++ variable_name ++ lit " = " ++ t]
  end.

Fixpoint dump_items (array_inline : bool) (items : list (str * obj))
  : result (list str) :=
  match items with
  | [] => Ok []
  | (variable_name, variable_value) :: rest =>
      ls <- dump_variable array_inline variable_name variable_value ;;
      ls' <- dump_items array_inline rest ;;
      Ok (ls ++ ls')
  end.

(** [dump(cls, namelist, array_inline)], with [groups] for [cls.groups]. *)
Definition dump (groups : document) (namelist : str) (array_inline : bool)
  : result str :=
  match oget namelist groups with
  | None => Raise (KeyError namelist)
  | Some g =>
      body <- dump_items array_inline g ;;
      Ok (join [nl] ([lit "&" ++ namelist] ++ body
                     ++ [lit "/ ! end of " ++ namelist ++ lit " namelist"])
          ++ [nl])
  end.

(** *** [AttributeMapper.__setattr__]

    The mapper holds its dictionary in [data]; the call returns its outcome
    and the dictionary as it is afterwards. *)

Definition AttributeMapper_setattr (data : odict obj) (attr : str) (value : obj)
  : result unit * odict obj :=
  if omem attr data then (Ok tt, oset attr value data)
  else (Raise NotImplementedError, data).

(** *** The patterns compiled by [Namelist.__init__] *)

(** [&([^&]+)/] *)
Definition group_re : Re.pattern :=
  [Re.Chr (Re.only "&"); Re.Open; Re.Plus (Re.except "&"); Re.Close;
   Re.Chr (Re.only "/")].

(** [(\w+)\((\d+)\)] *)
Definition array_re : Re.pattern :=
  [Re.Open; Re.Plus isword; Re.Close; Re.Chr (Re.only "(");
   Re.Open; Re.Plus isdigit; Re.Close; Re.Chr (Re.only ")")].

(** [\'\s*\w[^']*\'] *)
Definition string_re : Re.pattern :=
  [Re.Chr (Re.only quote); Re.Star isspace; Re.Chr isword;
   Re.Star (Re.except quote); Re.Chr (Re.only quote)].

(** The pattern [^\((\d+.?\d* ),(\d+.?\d* )\)$], written here with a blank
    after each [\d*]. *)
Definition complex_re : Re.pattern :=
  [Re.Bol; Re.Chr (Re.only "(");
   Re.Open; Re.Plus isdigit; Re.Opt Re.dot; Re.Star isdigit; Re.Close;
   Re.Chr (Re.only ",");
   Re.Open; Re.Plus isdigit; Re.Opt Re.dot; Re.Star isdigit; Re.Close;
   Re.Chr (Re.only ")"); Re.Eol].

(** *** [Namelist._parse_value] *)

Definition quoted_by (q : ascii) (s : str) : bool :=
  startswith s [q] && endswith s [q] && (count q s =? 2)%nat.

Definition _parse_value (variable_value : str) : result obj :=
  match Num.int variable_value with
  | Some z => Ok (PyInt z)
  | None =>
      match Num.float (replace "d" "E" variable_value) with
      | Some x => Ok (PyFloat x)
      | None =>
          match Re.findall complex_re variable_value with
          | [(_, [a; b])] =>
              match Num.float a, Num.float b with
              | Some re, Some im => Ok (PyComplex re im)
              | _, _ => Raise ValueError
              end
          | _ =>
              if Str.eqb variable_value (lit ".true.")
                 || Str.eqb variable_value (lit "T") then Ok (PyBool true)
              else if Str.eqb variable_value (lit ".false.")
                      || Str.eqb variable_value (lit "F") then Ok (PyBool false)
              else if quoted_by quote variable_value
                   then Ok (PyStr (slice_1_m1 variable_value))
              else if quoted_by dquote variable_value
                   then Ok (PyStr (slice_1_m1 variable_value))
              else Raise (NoSingleValueFoundException variable_value)
          end
      end
  end.

(** *** [Namelist._check_lists] *)

(** The loop over [variable_data.items()] that fills [variable_list]. *)
Fixpoint fill_list (num_entries : Z) (items : list (key * obj))
    (variable_list : list obj) : result (list obj) :=
  match items with
  | [] => Ok variable_list
  | (KInt i, value) :: rest =>
      if num_entries <=? i
      then (* the message is formatted with the unbound name [variable] *)
           Raise (NameError (lit "variable"))
      else l <- list_setitem variable_list i value ;;
           fill_list num_entries rest l
  | (KStr _, _) :: _ => Raise TypeError
  end.

(** What the loop body does to one value of a group. *)
Definition check_value (variable_values : obj) : result obj :=
  match variable_values with
  | PyDict d =>
      match dget (KStr (lit "_is_list")) d with
      | Some flag =>
          if truthy flag then
            let variable_data := ddel (KStr (lit "_is_list")) d in
            let num_entries := length variable_data in
            l <- fill_list (Z.of_nat num_entries) variable_data
                   (repeat PyNone num_entries) ;;
            Ok (PyList l)
          else Ok variable_values
      | None => Ok variable_values
      end
  | _ => Ok variable_values
  end.

(** The loop over [group.items()], assigning into [group]. *)
Fixpoint check_items (items : list (str * obj)) (g : group) : result group :=
  match items with
  | [] => Ok g
  | (variable_name, variable_values) :: rest =>
      v <- check_value variable_values ;;
      check_items rest (oset variable_name v g)
  end.

(** The loop over [self.groups.values()]; each group is changed in place. *)
Fixpoint check_groups (todo : list (str * group)) (groups : document)
  : result document :=
  match todo with
  | [] => Ok groups
  | (name, g) :: rest =>
      g' <- check_items g g ;;
      check_groups rest (oset name g' groups)
  end.

Definition _check_lists (groups : document) : result document :=
  check_groups groups groups.

(** *** [Namelist.__init__] *)

(** The first loop: the lines of the input that are not comments. *)
Definition filtered_lines (input_str : str) : list str :=
  filter (fun line => negb (startswith (strip line) (lit "!")))
         (split nl input_str).

(** [block_lines[-1] += line] *)
Definition append_to_last (block_lines : list str) (line : str) : list str :=
  removelast block_lines ++ [last block_lines [] ++ line].

(** The loop over [block_lines_raw] that builds [block_lines]. *)
Fixpoint assemble (block_lines_raw : list str) (block_lines : list str)
  : result (list str) :=
  match block_lines_raw with
  | [] => Ok block_lines
  | line :: rest =>
      let line := strip line in
      if Str.eqb line [] then assemble rest block_lines
      else if startswith line (lit "!") then assemble rest block_lines
      else
        match split "=" line with
        | [_; _] => assemble rest (block_lines ++ [line])
        | _ =>
            match block_lines with
            | [] => Raise IndexError
            | _ :: _ =>
                if endswith (last block_lines []) (lit ",")
                then assemble rest (append_to_last block_lines line)
                else Raise ValueError
            end
        end
  end.

(** [group[variable_name] = parsed_value] or, with an index,
    [group[variable_name][variable_index] = parsed_value] after the
    dictionary of the list has been created when the name is new. *)
Definition assign (g : group) (variable_name : str)
    (variable_index : option Z) (parsed_value : obj) : result group :=
  match variable_index with
  | None => Ok (oset variable_name parsed_value g)
  | Some i =>
      let g := if omem variable_name g then g
               else oset variable_name
                      (PyDict [(KStr (lit "_is_list"), PyBool true)]) g in
      match oget variable_name g with
      | Some target =>
          target' <- setitem target i parsed_value ;;
          Ok (oset variable_name target' g)
      | None => Raise (KeyError variable_name)
      end
  end.

(** The entries of a value that is not a single value. *)
Definition inline_entries (variable_value : str) : list str :=
  let quotes := count quote variable_value in
  if (quotes =? 0)%nat || (quotes =? 2)%nat then
    if negb (count "(" variable_value =? 0)%nat
    then split_ws variable_value
    else split_ws (replace "," " " variable_value)
  else map (fun m => strip (fst m)) (Re.findall string_re variable_value).

(** The loop over [enumerate(variable_arr_entries)], from index [n] on. *)
Fixpoint assign_entries (g : group) (variable_name : str) (n : nat)
    (entries : list str) : result group :=
  match entries with
  | [] => Ok g
  | inline_value :: rest =>
      parsed_value <- _parse_value inline_value ;;
      g' <- assign g variable_name (Some (Z.of_nat n)) parsed_value ;;
      assign_entries g' variable_name (S n) rest
  end.

(** The name and the index of [k], the text left of the [=]. *)
Definition name_and_index (k : str) : result (str * option Z) :=
  match Re.findall array_re k with
  | [(_, [variable_name; variable_index])] =>
      match Num.int variable_index with
      | Some i => Ok (variable_name, Some (i - 1))
      | None => Raise ValueError
      end
  | _ => Ok (strip k, None)
  end.

(** The line without its last comma and without its comment. *)
Definition cleaned (line : str) : str :=
  let line := if endswith line (lit ",") then slice_m1 line else line in
  if contains "!" line then strip (hd [] (split "!" line)) else line.

(** [k, v = line.split('=')] on the cleaned line. *)
Definition name_value (line : str) : result (str * str) :=
  match split "=" (cleaned line) with
  | [k; v] => Ok (k, v)
  | _ => Raise ValueError
  end.

(** The body of the loop over [block_lines]. *)
Definition process_line (g : group) (line : str) : result group :=
  ' (k, v) <- name_value line ;;
  let variable_value := strip v in
  ' (variable_name, variable_index) <- name_and_index k ;;
  match _parse_value variable_value with
  | Ok parsed_value => assign g variable_name variable_index parsed_value
  | Raise (NoSingleValueFoundException _) =>
      assign_entries g variable_name 0 (inline_entries variable_value)
  | Raise e => Raise e
  end.

Fixpoint process_lines (g : group) (block_lines : list str) : result group :=
  match block_lines with
  | [] => Ok g
  | line :: rest =>
      g' <- process_line g line ;;
      process_lines g' rest
  end.

(** The name and the group of one block. *)
Definition parse_block (group_block : str) : result (str * group) :=
  let block_lines_raw := split nl group_block in
  let group_name := strip (hd [] block_lines_raw) in
  block_lines <- assemble (tl block_lines_raw) [] ;;
  g <- process_lines [] block_lines ;;
  Ok (group_name, g).

(** The name a group is stored under, and the counters after it. *)
Definition resolve_name (groups : document) (group_cnt : odict Z)
    (group_name : str) : str * odict Z :=
  if omem group_name groups then
    let n := match oget group_name group_cnt with
             | None => 0
             | Some n => n + 1
             end in
    (group_name ++ Num.format_d n, oset group_name n group_cnt)
  else (group_name, group_cnt).

(** The loop over [group_blocks]. *)
Fixpoint parse_blocks (group_blocks : list str) (groups : document)
    (group_cnt : odict Z) : result document :=
  match group_blocks with
  | [] => Ok groups
  | group_block :: rest =>
      ' (group_name, g) <- parse_block group_block ;;
      let (group_name, group_cnt) := resolve_name groups group_cnt group_name in
      groups' <- _check_lists (oset group_name g groups) ;;
      parse_blocks rest groups' group_cnt
  end.

(** [Namelist(input_str, name)]: the [groups] attribute of the new object,
    which is not set when both arguments are empty. *)
Definition Namelist (input_str name : str) : result (option document) :=
  if Str.eqb name [] && Str.eqb input_str [] then Ok None
  else
    let text := join [nl] (filtered_lines input_str) in
    let group_blocks := map (fun m => hd [] (snd m)) (Re.findall group_re text) in
    groups <- parse_blocks group_blocks [] [] ;;
    Ok (Some groups).

(** [MESA(input_str).groups] *)
Definition parse (input_str : str) : result (option document) :=
  Namelist input_str [].

End Mesa.

(** ** What a dumped group reads back as *)

Module Shape.
Import Str Obj.

(** The double read back from the text [{:.2e}] writes: the one nearest to
    the three significant digits printed. *)
Definition reread_float (x : spec_float) : spec_float :=
  match x with
  | S754_finite s m e => let (d, k) := Num.round3 m e in Num.of_decimal s d (k - 2)
  | _ => x
  end.

Definition reread_scalar (v : obj) : obj :=
  match v with
  | PyFloat x => PyFloat (reread_float x)
  | _ => v
  end.

Definition reread (v : obj) : obj :=
  match v with
  | PyList vs => PyList (map reread_scalar vs)
  | _ => reread_scalar v
  end.

Definition one_of (cs : string) (c : ascii) : bool :=
  existsb (Ascii.eqb c) (lit cs).

(** The characters of a text that comes back: no quote, [=], [!], [&] or
    line feed. *)
Definition text_char (c : ascii) : bool :=
  negb (one_of "'=!&" c || Ascii.eqb c nl).

Definition text_ok (s : str) : bool := forallb text_char s.

(** A text inside a list comes back when, after its leading blanks, it
    starts with a word character. *)
Definition list_text_ok (s : str) : bool :=
  text_ok s
  && match lstrip_by isspace s with
     | c :: _ => isword c
     | [] => false
     end.

(** The name of a variable: not empty, without white space, [=], [!], [&]
    and [(]. *)
Definition name_char (c : ascii) : bool :=
  negb (isspace c || one_of "=!&(" c).

Definition var_name_ok (n : str) : bool :=
  match n with [] => false | _ => forallb name_char n end.

(** The name of a group: without white space, [&] and [/]. *)
Definition group_char (c : ascii) : bool :=
  negb (isspace c || one_of "&/" c).

Definition group_name_ok (g : str) : bool := forallb group_char g.

Definition number_like (v : obj) : bool :=
  match v with
  | PyInt _ | PyBool _ | PyFloat _ => true
  | _ => false
  end.

Definition text_of (v : obj) : option str :=
  match v with PyStr s => Some s | _ => None end.

Definition is_list_text (v : obj) : bool :=
  match v with PyStr s => list_text_ok s | _ => false end.

(** The values that come back: an Integer, a Boolean, a Real, a Text made
    of [text_char], a List of two or more Integers, Booleans and Reals, or
    a List of two or more Texts that are [list_text_ok]. *)
Definition value_ok (v : obj) : bool :=
  match v with
  | PyInt _ | PyBool _ | PyFloat _ => true
  | PyStr s => text_ok s
  | PyList vs =>
      (2 <=? length vs)%nat && (forallb number_like vs || forallb is_list_text vs)
  | _ => false
  end.

Definition variable_ok (nv : str * obj) : bool :=
  var_name_ok (fst nv) && value_ok (snd nv).

(** The keys of a dictionary are distinct. *)
Fixpoint distinct (ks : list str) : bool :=
  match ks with
  | [] => true
  | k :: rest => negb (existsb (Str.eqb k) rest) && distinct rest
  end.

(** A group whose variables come back. *)
Definition group_ok (g : group) : bool :=
  distinct (map fst g) && forallb variable_ok g.

(** The group read back. *)
Definition reread_group (g : group) : group :=
  map (fun nv => (fst nv, reread (snd nv))) g.

End Shape.

(** ** Sample inputs *)

Module Sample.
Import Str Obj.

(** A text given line by line. *)
Definition lines (ls : list string) : str := join [nl] (map lit ls).

(** A group given with literal names. *)
Definition vars (vs : list (string * obj)) : group :=
  map (fun nv => (lit (fst nv), snd nv)) vs.

Definition doc (gs : list (string * list (string * obj))) : document :=
  map (fun ng => (lit (fst ng), vars (snd ng))) gs.

Definition real (z : Z) : obj := PyFloat (Num.of_Z z).

End Sample.

(** ** The rest of [AttributeMapper] and the attributes of [MESA] *)

Module Access.
Import Str Obj Mesa.

(** What [__getattr__] returns: the value found, or a new mapper over the
    dictionary found. *)
Inductive found :=
| Value (o : obj)
| Mapper (data : list (key * obj)).

(** [AttributeMapper.__getattr__], on the dictionary the mapper holds. *)
Definition AttributeMapper_getattr (data : odict obj) (attr : str) : result found :=
  match oget attr data with
  | Some (PyDict d) => Ok (Mapper d)
  | Some found_attr => Ok (Value found_attr)
  | None => Raise AttributeError
  end.

(** [AttributeMapper.__dir__] *)
Definition AttributeMapper_dir (data : odict obj) : list str := Dict.keys data.

(** [MESA(input_str)]: the [groups] attribute of the new object. *)
Definition MESA (input_str : str) : result (option document) :=
  Namelist input_str [].

(** The five properties of [MESA] have one body: the mapper over the group
    of that name, or [None].  An object without the attribute [groups]
    raises [AttributeError]. *)
Definition namelist_property (name : string) (groups : option document)
  : result (option (odict obj)) :=
  match groups with
  | None => Raise AttributeError
  | Some gs =>
      if omem (lit name) gs then
        match oget (lit name) gs with
        | Some g => Ok (Some g)
        | None => Raise (KeyError (lit name))
        end
      else Ok None
  end.

Definition star_job := namelist_property "star_job".
Definition controls := namelist_property "controls".
Definition pgstar := namelist_property "pgstar".
Definition binary_job := namelist_property "binary_job".
Definition binary_controls := namelist_property "binary_controls".

End Access.

(** ** The class [MESAdefaults] *)

Module Defaults.
Import Str Obj.

(** [MESAdefaults._parse_value]: the chain of [Namelist._parse_value]
    without the complex numbers. *)
Definition _parse_value (variable_value : str) : result obj :=
  match Num.int variable_value with
  | Some z => Ok (PyInt z)
  | None =>
      match Num.float (replace "d" "E" variable_value) with
      | Some x => Ok (PyFloat x)
      | None =>
          if Str.eqb variable_value (lit ".true.")
             || Str.eqb variable_value (lit "T") then Ok (PyBool true)
          else if Str.eqb variable_value (lit ".false.")
                  || Str.eqb variable_value (lit "F") then Ok (PyBool false)
          else if Mesa.quoted_by quote variable_value
               then Ok (PyStr (slice_1_m1 variable_value))
          else if Mesa.quoted_by dquote variable_value
               then Ok (PyStr (slice_1_m1 variable_value))
          else Raise (NoSingleValueFoundException variable_value)
      end
  end.

(** The body of the loop of [_get_defaults] over the stripped lines: what
    it prints, and the elements afterwards. *)
Definition read_line (elements : odict obj) (line : str)
  : list str * result (odict obj) :=
  if negb (startswith line (lit "!")) && contains "=" line then
    let line := hd [] (split "!" line) in
    match split "=" line with
    | [] | [_] => ([line], Raise ValueError)
    | [name; value] =>
        ([], v <- _parse_value (strip value) ;;
             Ok (oset (strip name) v elements))
    | [name; lval; rval] =>
        ([], v <- _parse_value (strip (lval ++ lit "=" ++ rval)) ;;
             Ok (oset (strip name) v elements))
    | _ => ([], Raise ValueError)
    end
  else ([], Ok elements).

Fixpoint read_lines (lines : list str) (elements : odict obj)
  : list str * result (odict obj) :=
  match lines with
  | [] => ([], Ok elements)
  | line :: rest =>
      match read_line elements line with
      | (out, Ok elements') =>
          let (out', r) := read_lines rest elements' in (out ++ out', r)
      | (out, Raise e) => (out, Raise e)
      end
  end.

(** [_get_defaults] from [f.readlines()] on: the path of the file and the
    call of [open] are left out. *)
Definition _get_defaults (readlines : list str) : list str * result (odict obj) :=
  read_lines (map strip (filter (fun line => (0 <? length line)%nat) readlines)) [].

End Defaults.

(** ** Forms of texts and of values used in the statements *)

Module Forms.
Import Str Num Re Obj Mesa Shape.

(** Where a greedy repetition has to stop. *)
Definition stops (p : ascii -> bool) (s : str) : Prop :=
  match s with [] => True | c :: _ => p c = false end.

(** Where a run of digits and underscores has to stop. *)
Definition dstop (s : str) : Prop :=
  match s with
  | [] => True
  | c :: _ => isdigit c = false /\ Ascii.eqb c "_" = false
  end.

(** What the first character of a number can be. *)
Definition int_head (c : ascii) : bool :=
  numspace c || isdigit c || Ascii.eqb c "-" || Ascii.eqb c "+".

Definition float_head (c : ascii) : bool :=
  int_head c || Ascii.eqb c "." || Ascii.eqb (lower c) "i" || Ascii.eqb (lower c) "n".

(** A run of digits. *)
Definition digits (d : str) : Prop := d <> [] /\ forallb isdigit d = true.

(** An unsigned decimal: digits, then possibly a point and more digits. *)
Inductive udec : str -> Prop :=
| udec_int d : digits d -> udec d
| udec_frac d f : digits d -> forallb isdigit f = true -> udec (d ++ "."%char :: f).

(** The text [(A,B)]. *)
Definition complex_text (A B : str) : str :=
  "("%char :: A ++ ","%char :: B ++ [")"%char].

(** The items of the dictionary of a list: an index and its value. *)
Definition index_items (vs : list (Z * obj)) : list (key * obj) :=
  map (fun iv => (KInt (fst iv), snd iv)) vs.

(** The dictionary the parser collects indexed values in. *)
Definition is_list_dict (vs : list (Z * obj)) : obj :=
  PyDict ((KStr (lit "_is_list"), PyBool true) :: index_items vs).

(** The characters of the text of an Integer, a Boolean or a Real. *)
Definition tok_char (c : ascii) : bool :=
  isdigit c || one_of "+-." c || in_range 97 122 c.

(** The text of a number: not empty and made of [tok_char]. *)
Definition num_tok (t : str) : Prop := t <> [] /\ forallb tok_char t = true.

(** The three digits of a number below 1000, and the check, by running
    through them all, that [digits_val] reads them back; the same for the
    two digits of an exponent below 10. *)
Definition three_digits (d : Z) : str :=
  [digit_char (d / 100); digit_char (d / 10); digit_char d].

Definition three_digits_checked : bool :=
  forallb (fun n => digits_val (three_digits (Z.of_nat n)) =? Z.of_nat n)
          (seq 0 1000).

Definition two_digits_checked : bool :=
  forallb (fun n => digits_val ["0"%char; digit_char (Z.of_nat n)] =? Z.of_nat n)
          (seq 0 10).

(** The text does not start with a character of [p]. *)
Definition head_ok (p : ascii -> bool) (s : str) : Prop :=
  match s with c :: _ => p c = false | [] => True end.

(** The sign of a mantissa and the sign of an exponent. *)
Definition sign_text (neg : bool) : str := if neg then ["-"%char] else [].

Definition sign_char (neg : bool) : ascii := if neg then "-"%char else "+"%char.

(** [d.dd], an exponent marker [x], a sign and the digits [ds]. *)
Definition sci_text (neg : bool) (d : Z) (x : ascii) (eneg : bool) (ds : str) : str :=
  sign_text neg
  ++ [digit_char (d / 100); "."%char; digit_char (d / 10); digit_char d; x;
      sign_char eneg]
  ++ ds.

(** A text between single quotes. *)
Definition quoted (s : str) : str := quote :: s ++ [quote].

(** A text that [split()] keeps whole. *)
Definition no_space (t : str) : Prop :=
  t <> [] /\ forallb (fun c => negb (isspace c)) t = true.

(** The separator of inline arrays. *)
Definition blank : ascii := " "%char.

(** What [replace('d', 'E')] does to one character. *)
Definition d_to_E (c : ascii) : ascii := if Ascii.eqb c "d" then "E"%char else c.

(** The values of a list with their indices, from [n] on. *)
Fixpoint enum_from (n : nat) (vs : list obj) : list (Z * obj) :=
  match vs with
  | [] => []
  | v :: vs' => (Z.of_nat n, v) :: enum_from (S n) vs'
  end.

(** What the parser holds for a value before [_check_lists]. *)
Definition held (v : obj) : obj :=
  match v with
  | PyList vs => is_list_dict (enum_from 0 (map reread_scalar vs))
  | _ => reread_scalar v
  end.

(** The marker of the dictionary of a list. *)
Definition flag : key * obj := (KStr (lit "_is_list"), PyBool true).

(** The characters of the text of a value, and those at its ends. *)
Definition vchar (c : ascii) : bool := negb (one_of "=!&" c || Ascii.eqb c nl).

Definition edge (c : ascii) : bool := negb (isspace c || Ascii.eqb c ",").

(** The text of a value: made of [vchar], with an [edge] at both ends. *)
Definition vtext (V : str) : Prop :=
  forallb vchar V = true
  /\ (exists c m, V = c :: m /\ edge c = true)
  /\ (exists m c, V = m ++ [c] /\ edge c = true).

(** The line [dump] writes for a variable, without its indentation. *)
Definition line (n V : str) : str := n ++ lit " = " ++ V.

(** The text [t] is the single value [v]. *)
Definition parses (t : str) (v : obj) : Prop := _parse_value t = Ok v.

(** What the parser holds for the variables of a group after its second
    loop, and what [_check_lists] leaves. *)
Definition held_items (g : group) : group :=
  map (fun nv => (fst nv, held (snd nv))) g.

(** A line [b] of the dumped text and the line [l] the first loop over the
    block keeps for it. *)
Definition good_line (b l : str) : Prop :=
  contains nl b = false /\ contains "&" b = false
  /\ startswith (strip b) (lit "!") = false
  /\ forall rest bl, assemble (b :: rest) bl = assemble rest (bl ++ [l]).

(** The text [dump] writes for the lines [bs] of a group. *)
Definition trailer (gname : str) : str :=
  lit " ! end of " ++ gname ++ lit " namelist".

(** The whole text of a group, and the block the pattern of groups finds in
    it. *)
Definition dumped (gname : str) (bs : list str) : str :=
  join [nl] ([lit "&" ++ gname] ++ bs
             ++ [lit "/ ! end of " ++ gname ++ lit " namelist"]) ++ [nl].

Definition block_of (gname : str) (bs : list str) : str :=
  join [nl] (gname :: bs) ++ [nl].

End Forms.

(** ** Kinds of values *)

Module Kinds.
Import Str Num Re Obj Mesa Shape.

(** A single value: what [_parse_value] returns and what
    [format_value_to_fortran] writes. *)
Definition scalar (v : obj) : bool :=
  match v with
  | PyBool _ | PyInt _ | PyFloat _ | PyComplex _ _ | PyStr _ => true
  | _ => false
  end.

Definition is_none (v : obj) : bool :=
  match v with PyNone => true | _ => false end.

(** A single value, or a list of single values and of [None]. *)
Definition flat (v : obj) : bool :=
  match v with
  | PyList l => forallb (fun x => scalar x || is_none x) l
  | _ => scalar v
  end.

(** A value [dump] can write: a single value or a list of single values. *)
Definition dumpable (v : obj) : bool :=
  match v with
  | PyList l => forallb scalar l
  | _ => scalar v
  end.

(** The entries of the dictionary of a list: integer keys, single values. *)
Definition slots (d : list (key * obj)) : bool :=
  forallb (fun kx => match fst kx with
                     | KInt _ => scalar (snd kx)
                     | KStr _ => false
                     end) d.

(** What the second loop of the parser keeps in a group: a single value,
    or the dictionary of a list, which starts with its marker. *)
Definition pending (v : obj) : bool :=
  match v with
  | PyDict ((KStr f, PyBool true) :: d) => Str.eqb f (lit "_is_list") && slots d
  | _ => scalar v
  end.

(** The values of a dictionary, and the values of the groups of a
    document. *)
Definition all_values {V} (p : V -> bool) (d : odict V) : bool :=
  forallb (fun kv => p (snd kv)) d.

Definition all_groups (p : obj -> bool) (D : document) : bool :=
  all_values (all_values p) D.

(** Well-formed dictionaries: no key twice. *)
Definition keys_distinct {V} (d : odict V) : bool := distinct (Dict.keys d).

(** The result of [__getattr__] for a value. *)
Definition found_of (v : obj) : Access.found :=
  match v with
  | PyDict d => Access.Mapper d
  | _ => Access.Value v
  end.

(** What the chain does after [int()] and [float()] have failed and the
    pattern of complex numbers has not matched. *)
Definition words (variable_value : str) : result obj :=
  if Str.eqb variable_value (lit ".true.")
     || Str.eqb variable_value (lit "T") then Ok (PyBool true)
  else if Str.eqb variable_value (lit ".false.")
          || Str.eqb variable_value (lit "F") then Ok (PyBool false)
  else if quoted_by quote variable_value
       then Ok (PyStr (slice_1_m1 variable_value))
  else if quoted_by dquote variable_value
       then Ok (PyStr (slice_1_m1 variable_value))
  else Raise (NoSingleValueFoundException variable_value).

(** A group as the second loop of the parser keeps it. *)
Definition pending_group (g : group) : Prop :=
  NoDup (Dict.keys g) /\ forall k v, In (k, v) g -> pending v = true.

(** A group as [_check_lists] leaves it. *)
Definition flat_group (g : group) : Prop :=
  NoDup (Dict.keys g) /\ forall k v, In (k, v) g -> flat v = true.

(** An entry of a list under construction. *)
Definition loose (x : obj) : bool := scalar x || is_none x.

(** The error of [format_value_to_fortran] for a value of kind [v]. *)
Definition not_understood (v : obj) : exc :=
  Exception_ (lit "Variable type not understood: " ++ type_repr v).

(** The lines [filtered_lines] keeps. *)
Definition kept (line : str) : bool := negb (startswith (strip line) (lit "!")).

(** A list of lines: none of them holds a line feed. *)
Definition no_feed (ls : list str) : bool :=
  forallb (fun l => negb (contains nl l)) ls.

(** The shape of the loops of [_check_lists]: each value of [items] in turn
    goes through [f] and is assigned back into [d] under its key. *)
Section Sweep.
Context {V : Type} (f : V -> result V).

Fixpoint sweep (items d : odict V) : result (odict V) :=
  match items with
  | [] => Ok d
  | (k, v) :: rest => v' <- f v ;; sweep rest (oset k v' d)
  end.

End Sweep.

(** *** Groups written with one line for each entry of a list *)

Import Forms.

(** An entry of a list, or a single value, that comes back. *)
Definition entry_ok (v : obj) : bool :=
  match v with
  | PyInt _ | PyBool _ | PyFloat _ => true
  | PyStr s => text_ok s
  | _ => false
  end.

(** The name of a list: word characters, as the pattern of indexed names
    wants them. *)
Definition word_name (n : str) : bool :=
  match n with [] => false | _ => forallb isword n end.

Definition indexed_ok (nv : str * obj) : bool :=
  match snd nv with
  | PyList vs => word_name (fst nv) && negb (length vs =? 0)%nat && forallb entry_ok vs
  | v => var_name_ok (fst nv) && entry_ok v
  end.

Definition indexed_group_ok (g : group) : bool :=
  distinct (map fst g) && forallb indexed_ok g.

(** The text left of the [=] for entry [k] of the list [n], and the lines
    of the entries from [k] on. *)
Definition index_key (n : str) (k : nat) : str :=
  n ++ lit "(" ++ Num.format_d (Z.of_nat k + 1) ++ lit ")".

Fixpoint index_lines (n : str) (k : nat) (ts : list str) : list str :=
  match ts with
  | [] => []
  | t :: ts' => line (index_key n k) t :: index_lines n (S k) ts'
  end.

(** The text [t] of a value is read as [v]. *)
Definition reads (t : str) (v : obj) : Prop := vtext t /\ _parse_value t = Ok v.

(** The indentation [dump] puts before a variable. *)
Definition indent (l : str) : str := lit "   " ++ l.

(** *** Lines of defaults files, and groups of the same name *)

(** A line of a defaults file that adds nothing. *)
Definition idle (line : str) : Prop :=
  startswith (strip line) (lit "!") = true \/ contains "=" line = false.

(** The name the [k]-th group of the same name is stored under. *)
Definition numbered (a : str) (k : nat) : str :=
  match k with
  | O => a
  | S i => a ++ Num.format_d (Z.of_nat i)
  end.

(** Blocks that all have the name [a], and their groups once checked. *)
Definition block_of_name (a : str) (b : str) (h : group) : Prop :=
  exists g, parse_block b = Ok (a, g) /\ check_items g g = Ok h.

(** *** Lines of a block *)

(** A line that stays in its block: without line feed and [&], and not a
    comment. *)
Definition plain_line (b : str) : bool :=
  negb (contains nl b) && negb (contains "&" b)
  && negb (startswith (strip b) (lit "!")).

(** What may follow the value on its line. *)
Inductive tail :=
| Bare
| Comma
| Comment (c : str).

Definition with_tail (l : str) (t : tail) : str :=
  match t with
  | Bare => l
  | Comma => l ++ lit ","
  | Comment c => l ++ lit "!" ++ c
  end.

(** A comment that stays in its line and hides no [=]. *)
Definition tail_ok (t : tail) : bool :=
  match t with
  | Comment c => negb (contains "=" c) && negb (contains "&" c) && negb (contains nl c)
  | _ => true
  end.

Definition with_tails (ls : list str) (ts : list tail) : list str :=
  map (fun lt => with_tail (fst lt) (snd lt)) (combine ls ts).

(** A line of a variable: its name and the text of its value. *)
Definition name_text_ok (nV : str * str) : Prop :=
  var_name_ok (fst nV) = true /\ vtext (snd nV).

Definition line_of (nV : str * str) : str := line (fst nV) (snd nV).

(** *** Lines with and without [=] *)

(** A line with exactly one [=], and a line with nothing but white space. *)
Definition one_equals (b : str) : bool := (count "=" b =? 1)%nat.
Definition empty_line (b : str) : bool := Str.eqb (strip b) [].

(** *** Values separated by commas *)

Definition comma : ascii := ","%char.

(** What stands between two values of a line: commas and blanks. *)
Definition sep_char (c : ascii) : bool := Ascii.eqb c comma || Ascii.eqb c blank.

Definition separator (s : str) : bool := negb (Str.eqb s []) && forallb sep_char s.

Definition token (t : str) : bool := negb (Str.eqb t []) && forallb tok_char t.

(** The text of the value [t] followed by the separators and values of
    [more]. *)
Fixpoint listed (t : str) (more : list (str * str)) : str :=
  match more with
  | [] => t
  | (s, t') :: more' => t ++ s ++ listed t' more'
  end.

Definition entries_ok (t : str) (more : list (str * str)) : bool :=
  token t && forallb (fun st => separator (fst st) && token (snd st)) more.

(** The separators and values after the first value, and the separators
    after their commas are replaced. *)
Definition parts_ok (more : list (str * str)) : Prop :=
  Forall (fun st => separator (fst st) = true /\ num_tok (snd st)) more.

Definition blanked (st : str * str) : str * str :=
  (replace comma blank (fst st), snd st).

(** *** What [dump] refuses *)

(** The value [format_value_to_fortran] refuses first when the value [v] of
    a variable is written: [v] itself, or, when [v] is a list, its first
    entry that is no single value. *)
Definition first_refused (v x : obj) : Prop :=
  scalar x = false
  /\ match v with
     | PyList l => exists l1 l2, l = l1 ++ x :: l2 /\ forallb scalar l1 = true
     | _ => x = v
     end.

End Kinds.

(** * Lemmas on strings and dictionaries *)

Module StrFacts.
Import Str.

Lemma eqb_refl (a : str) : Str.eqb a a = true.
Proof.
  induction a as [|c a IH]; simpl; [reflexivity|].
  now rewrite Ascii.eqb_refl, IH.
Qed.

Lemma eqb_eq (a b : str) : Str.eqb a b = true <-> a = b.
Proof.
  split; [|intros ->; apply eqb_refl].
  revert b; induction a as [|c a IH]; intros [|d b]; simpl; try congruence.
  intros H. apply andb_true_iff in H as [H1 H2].
  apply Ascii.eqb_eq in H1. apply IH in H2. congruence.
Qed.

Lemma eqb_neq (a b : str) : Str.eqb a b = false <-> a <> b.
Proof.
  split.
  - intros H E. apply eqb_eq in E. congruence.
  - intros H. destruct (Str.eqb a b) eqn:E; [|reflexivity].
    apply eqb_eq in E. contradiction.
Qed.

Lemma eqb_sym (a b : str) : Str.eqb a b = Str.eqb b a.
Proof.
  destruct (Str.eqb a b) eqn:E.
  - apply eqb_eq in E. subst. symmetry. apply eqb_refl.
  - symmetry. apply eqb_neq. apply eqb_neq in E. congruence.
Qed.


Lemma last_case {A} (l : list A) : l = [] \/ exists l' a, l = l' ++ [a].
Proof.
  induction l as [|a l' _] using rev_ind; [now left|right; eauto].
Qed.

Lemma contains_app a s t : contains a (s ++ t) = contains a s || contains a t.
Proof. apply existsb_app. Qed.

Lemma contains_cons a c s :
  contains a (c :: s) = Ascii.eqb a c || contains a s.
Proof. reflexivity. Qed.

Lemma contains_false_forall a s :
  contains a s = false <-> Forall (fun c => c <> a) s.
Proof.
  induction s as [|c s IH]; simpl.
  - split; [constructor|reflexivity].
  - rewrite orb_false_iff, IH. split.
    + intros [H1 H2]. constructor; [|exact H2].
      apply Ascii.eqb_neq in H1. congruence.
    + intros H. inversion H; subst. split; [|assumption].
      apply Ascii.eqb_neq. congruence.
Qed.

Lemma split_none sep s : contains sep s = false -> split sep s = [s].
Proof.
  induction s as [|c s IH]; simpl; [reflexivity|].
  intros H. apply orb_false_iff in H as [H1 H2].
  rewrite Ascii.eqb_sym, H1, (IH H2). reflexivity.
Qed.

Lemma split_app sep n v :
  contains sep n = false -> split sep (n ++ sep :: v) = n :: split sep v.
Proof.
  induction n as [|c n IH]; simpl.
  - intros _. now rewrite Ascii.eqb_refl.
  - intros H. apply orb_false_iff in H as [H1 H2].
    rewrite Ascii.eqb_sym, H1, (IH H2). reflexivity.
Qed.

Lemma endswith_last s c : endswith (s ++ [c]) [c] = true.
Proof.
  unfold endswith. rewrite rev_app_distr. simpl.
  rewrite Ascii.eqb_refl. reflexivity.
Qed.

Lemma endswith_one_app s t c :
  t <> [] -> endswith (s ++ t) [c] = endswith t [c].
Proof.
  intros N. unfold endswith. rewrite rev_app_distr.
  destruct (rev t) as [|x r] eqn:E.
  - apply (f_equal (@rev ascii)) in E. rewrite rev_involutive in E.
    simpl in E. contradiction.
  - reflexivity.
Qed.

Lemma endswith_one_last s x c :
  endswith (s ++ [x]) [c] = Ascii.eqb x c.
Proof.
  unfold endswith. rewrite rev_app_distr. simpl. apply andb_true_r.
Qed.

Lemma slice_m1_last s c : slice_m1 (s ++ [c]) = s.
Proof. apply removelast_last. Qed.

Lemma lstrip_by_app_stop p s c t :
  p c = false -> lstrip_by p (s ++ c :: t) = lstrip_by p s ++ c :: t.
Proof.
  intros H. induction s as [|x s IH]; simpl.
  - now rewrite H.
  - destruct (p x); [exact IH|reflexivity].
Qed.

Lemma rstrip_by_app_stop p s c t :
  p c = false -> rstrip_by p (s ++ c :: t) = s ++ c :: rstrip_by p t.
Proof.
  intros H. unfold rstrip_by.
  replace (s ++ c :: t) with ((s ++ [c]) ++ t) by now rewrite <- app_assoc.
  rewrite rev_app_distr, rev_app_distr. simpl.
  rewrite lstrip_by_app_stop by exact H.
  rewrite rev_app_distr. simpl. rewrite rev_involutive.
  now rewrite <- app_assoc.
Qed.

Lemma strip_by_around p s c t :
  p c = false ->
  strip_by p (s ++ c :: t) = lstrip_by p s ++ c :: rstrip_by p t.
Proof.
  intros H. unfold strip_by.
  rewrite lstrip_by_app_stop by exact H.
  now apply rstrip_by_app_stop.
Qed.

Lemma lstrip_by_incl p s a :
  contains a s = false -> contains a (lstrip_by p s) = false.
Proof.
  induction s as [|c s IH]; simpl; [reflexivity|].
  intros H. destruct (p c); [|exact H].
  apply orb_false_iff in H as [_ H]. apply IH, H.
Qed.

Lemma contains_rev a s : contains a (rev s) = contains a s.
Proof.
  induction s as [|c s IH]; simpl; [reflexivity|].
  rewrite contains_app, IH. simpl. rewrite orb_false_r. apply orb_comm.
Qed.

Lemma rstrip_by_incl p s a :
  contains a s = false -> contains a (rstrip_by p s) = false.
Proof.
  intros H. unfold rstrip_by. rewrite contains_rev.
  apply lstrip_by_incl. now rewrite contains_rev.
Qed.


End StrFacts.

(** Computes the string literals of a goal. *)
Ltac lits := cbn [lit list_ascii_of_string] in *.

Module DictFacts.
Import Str Obj StrFacts.

Section OrderedDict.
Context {V : Type}.
Implicit Types (d : odict V) (k : str) (v : V).

Lemma oset_keys_mem k v d :
  omem k d = true -> Dict.keys (oset k v d) = Dict.keys d.
Proof.
  unfold omem, oset, Dict.mem.
  induction d as [|[k' v'] d IH]; simpl; [discriminate|].
  destruct (Str.eqb k k') eqn:E; simpl; [reflexivity|].
  intros H. f_equal. apply IH, H.
Qed.

Lemma oset_keys_new k v d :
  omem k d = false -> oset k v d = d ++ [(k, v)].
Proof.
  unfold omem, oset, Dict.mem.
  induction d as [|[k' v'] d IH]; simpl; [reflexivity|].
  destruct (Str.eqb k k') eqn:E; simpl; [discriminate|].
  intros H. f_equal. apply IH, H.
Qed.

Lemma oget_oset_same k v d : oget k (oset k v d) = Some v.
Proof.
  unfold oget, oset.
  induction d as [|[k' v'] d IH]; simpl.
  - now rewrite eqb_refl.
  - destruct (Str.eqb k k') eqn:E; simpl; rewrite E; [reflexivity|apply IH].
Qed.

Lemma oget_oset_other k k' v d :
  k <> k' -> oget k' (oset k v d) = oget k' d.
Proof.
  unfold oget, oset. intros N.
  induction d as [|[k0 v0] d IH]; simpl.
  - destruct (Str.eqb k' k) eqn:E; [|reflexivity].
    apply eqb_eq in E. congruence.
  - destruct (Str.eqb k k0) eqn:E; simpl.
    + apply eqb_eq in E. subst k0.
      destruct (Str.eqb k' k) eqn:E'; [|reflexivity].
      apply eqb_eq in E'. congruence.
    + now rewrite IH.
Qed.

Lemma omem_app_new k v d :
  omem k d = false -> oget k (d ++ [(k, v)]) = Some v.
Proof.
  intros H. rewrite <- (oset_keys_new k v d H). apply oget_oset_same.
Qed.

Lemma omem_in_keys k d : omem k d = true <-> In k (Dict.keys d).
Proof.
  unfold omem, Dict.mem, Dict.keys.
  induction d as [|[k' v'] d IH]; simpl.
  - split; [discriminate|tauto].
  - destruct (Str.eqb k k') eqn:E.
    + apply eqb_eq in E. subst. tauto.
    + apply eqb_neq in E. rewrite IH. split; [tauto|].
      intros [H|H]; [congruence|exact H].
Qed.

Lemma omem_false_not_in k d : omem k d = false <-> ~ In k (Dict.keys d).
Proof.
  rewrite <- omem_in_keys. destruct (omem k d); split; congruence.
Qed.

End OrderedDict.
End DictFacts.

(** * Lemmas on the matcher *)

Module ReFacts.
Import Str Re StrFacts.
Import Forms.

Section Star.
Context {R : Type}.
Implicit Types (p : ascii -> bool) (k : str -> str -> option R).

Lemma star_stop p k acc s : stops p s -> star p k acc s = k acc s.
Proof. destruct s as [|c s]; simpl; [reflexivity|]. now intros ->. Qed.

Lemma rev_cons_app (x : ascii) (u acc : str) :
  rev (x :: u) ++ acc = rev u ++ x :: acc.
Proof. simpl. now rewrite <- app_assoc. Qed.

(** The longest run wins when what follows matches. *)
Lemma star_longest p k acc u s r :
  forallb p u = true -> stops p s ->
  k (rev u ++ acc) s = Some r ->
  star p k acc (u ++ s) = Some r.
Proof.
  revert acc. induction u as [|x u IH]; intros acc Hu Hs Hk.
  - simpl in *. now rewrite star_stop.
  - simpl in Hu. apply andb_true_iff in Hu as [Hx Hu].
    simpl app. simpl star. rewrite Hx.
    rewrite (IH (x :: acc)); auto.
    now rewrite <- rev_cons_app.
Qed.

(** Nothing matches when the continuation fails at every stop. *)
Lemma star_none p k acc u s :
  forallb p u = true -> stops p s ->
  (forall u1 u2, u = u1 ++ u2 -> k (rev u1 ++ acc) (u2 ++ s) = None) ->
  star p k acc (u ++ s) = None.
Proof.
  revert acc. induction u as [|x u IH]; intros acc Hu Hs Hk.
  - simpl. rewrite star_stop by exact Hs. apply (Hk [] []). reflexivity.
  - simpl in Hu. apply andb_true_iff in Hu as [Hx Hu].
    simpl app. simpl star. rewrite Hx.
    rewrite (IH (x :: acc)); auto.
    + apply (Hk [] (x :: u)). reflexivity.
    + intros u1 u2 ->. rewrite <- rev_cons_app.
      apply (Hk (x :: u1) u2). reflexivity.
Qed.

(** With no run before it, the stop before [v] is taken when the
    continuation fails at every later stop. *)
Lemma star_first p k acc v :
  forallb p v = true ->
  (forall v1 v2, v = v1 ++ v2 -> v1 <> [] -> k (rev v1 ++ acc) v2 = None) ->
  star p k acc v = k acc v.
Proof.
  revert acc. induction v as [|y v IHv]; intros acc Hv Hk; [reflexivity|].
  simpl in Hv. apply andb_true_iff in Hv as [Hy Hv].
  simpl star. rewrite Hy.
  assert (E : star p k (y :: acc) v = None).
  { rewrite IHv; auto.
    - apply (Hk [y] v); [reflexivity|discriminate].
    - intros v1 v2 E N. rewrite <- rev_cons_app.
      apply Hk; [now rewrite E|discriminate]. }
  now rewrite E.
Qed.

(** The longest run is given up for the stop before [v] when the
    continuation succeeds there and fails at every later stop. *)
Lemma star_backtrack p k acc u v r :
  forallb p u = true -> forallb p v = true ->
  (forall v1 v2, v = v1 ++ v2 -> v1 <> [] ->
                 k (rev v1 ++ rev u ++ acc) v2 = None) ->
  k (rev u ++ acc) v = Some r ->
  star p k acc (u ++ v) = Some r.
Proof.
  revert acc. induction u as [|x u IH]; intros acc Hu Hv Hk Hr.
  - simpl in *. now rewrite star_first.
  - simpl in Hu. apply andb_true_iff in Hu as [Hx Hu].
    simpl app. simpl star. rewrite Hx.
    rewrite (IH (x :: acc)); auto.
    + intros v1 v2 E N. rewrite <- rev_cons_app. now apply Hk.
    + now rewrite <- rev_cons_app.
Qed.

(** No match when the continuation fails on every suffix. *)
Lemma star_none_suffix p k acc s :
  (forall acc' s1 s2, s = s1 ++ s2 -> k acc' s2 = None) ->
  star p k acc s = None.
Proof.
  revert acc. induction s as [|c s IH]; intros acc Hk.
  - simpl. apply (Hk acc [] []). reflexivity.
  - simpl. rewrite IH.
    + destruct (p c); apply (Hk acc [] (c :: s)); reflexivity.
    + intros acc' s1 s2 ->. apply (Hk acc' (c :: s1) s2). reflexivity.
Qed.

End Star.

Lemma run_opt_cons {R} p ats bos marks acc c s
      (k : list nat -> str -> str -> option R) :
  run (Opt p :: ats) bos marks acc (c :: s) k
  = if p c then
      match run ats bos marks (c :: acc) s k with
      | Some r => Some r
      | None => run ats bos marks acc (c :: s) k
      end
    else run ats bos marks acc (c :: s) k.
Proof. reflexivity. Qed.

Lemma run_open {R} ats bos marks acc s
      (k : list nat -> str -> str -> option R) :
  run (Open :: ats) bos marks acc s k = run ats bos (length acc :: marks) acc s k.
Proof. reflexivity. Qed.

Lemma run_close {R} ats bos marks acc s
      (k : list nat -> str -> str -> option R) :
  run (Close :: ats) bos marks acc s k = run ats bos (length acc :: marks) acc s k.
Proof. reflexivity. Qed.

Lemma run_plus_cons {R} p ats bos marks acc c s
      (k : list nat -> str -> str -> option R) :
  p c = true ->
  run (Plus p :: ats) bos marks acc (c :: s) k
  = star p (fun acc' s' => run ats bos marks acc' s' k) (c :: acc) s.
Proof. intros H. simpl. now rewrite H. Qed.

Lemma run_star {R} p ats bos marks acc s
      (k : list nat -> str -> str -> option R) :
  run (Star p :: ats) bos marks acc s k
  = star p (fun acc' s' => run ats bos marks acc' s' k) acc s.
Proof. reflexivity. Qed.

Lemma run_chr_cons {R} p ats bos marks acc c s
      (k : list nat -> str -> str -> option R) :
  run (Chr p :: ats) bos marks acc (c :: s) k
  = if p c then run ats bos marks (c :: acc) s k else None.
Proof. reflexivity. Qed.

Lemma run_bol_start {R} ats marks s
      (k : list nat -> str -> str -> option R) :
  run (Bol :: ats) true marks [] s k = run ats true marks [] s k.
Proof. reflexivity. Qed.

Lemma run_eol_end {R} bos marks acc
      (k : list nat -> str -> str -> option R) :
  run [Eol] bos marks acc [] k = k marks acc [].
Proof. reflexivity. Qed.

(** *** [scan] *)

Lemma scan_skip pat u s :
  scan pat false (length u) (u ++ s) = scan pat false 0 s.
Proof.
  induction u as [|x u IH]; simpl; [reflexivity|exact IH].
Qed.

Lemma scan_hit pat bos m gs s :
  m <> [] -> match_at pat bos (m ++ s) = Some (m, gs) ->
  scan pat bos 0 (m ++ s) = (m, gs) :: scan pat false 0 s.
Proof.
  intros N H. destruct m as [|c m]; [contradiction|].
  simpl app in *. simpl scan. rewrite H. f_equal.
  replace (length (c :: m) - 1)%nat with (length m) by (simpl; lia).
  apply scan_skip.
Qed.

Lemma scan_miss pat bos c s :
  match_at pat bos (c :: s) = None ->
  scan pat bos 0 (c :: s) = scan pat false 0 s.
Proof. intros H. simpl. now rewrite H. Qed.

(** A pattern that starts with [^] matches at the beginning only. *)
Lemma scan_bol pat n s : scan (Bol :: pat) false n s = [].
Proof.
  revert n. induction s as [|c s IH]; intros n; [reflexivity|].
  simpl. destruct n; apply IH.
Qed.

Lemma scan_bol_miss pat s :
  match_at (Bol :: pat) true s = None -> scan (Bol :: pat) true 0 s = [].
Proof.
  destruct s as [|c s]; [reflexivity|].
  intros H. rewrite scan_miss by exact H. apply scan_bol.
Qed.

(** A pattern that starts with a character finds nothing in a text
    without it. *)
Lemma scan_first_char a pat bos s :
  contains a s = false -> scan (Chr (only a) :: pat) bos 0 s = [].
Proof.
  revert bos. induction s as [|c s IH]; intros bos H; [reflexivity|].
  simpl in H. apply orb_false_iff in H as [H1 H2].
  rewrite scan_miss.
  - apply IH, H2.
  - unfold match_at. simpl. unfold only. now rewrite Ascii.eqb_sym, H1.
Qed.

End ReFacts.

(** * Lemmas on [int()] and [float()] *)

Module NumFacts.
Import Str Num StrFacts.
Import Forms.

Lemma isdigit_not_underscore c : isdigit c = true -> Ascii.eqb c "_" = false.
Proof.
  destruct c as [[] [] [] [] [] [] [] []]; vm_compute; congruence.
Qed.

Lemma digitpart_run d s :
  forallb isdigit d = true -> dstop s -> digitpart (d ++ s) = (d, s).
Proof.
  induction d as [|x d IH]; intros Hd Hs.
  - simpl. destruct s as [|c s]; [reflexivity|].
    destruct Hs as [Hc _]. simpl. now rewrite Hc.
  - simpl in Hd. apply andb_true_iff in Hd as [Hx Hd].
    specialize (IH Hd Hs).
    simpl app. simpl digitpart. rewrite Hx.
    assert (U : match d ++ s with
                | u :: _ => Ascii.eqb u "_" = false
                | [] => True
                end).
    { destruct d as [|y d'].
      - simpl. destruct s; [exact I|apply Hs].
      - simpl. simpl in Hd. apply andb_true_iff in Hd as [Hy _].
        now apply isdigit_not_underscore. }
    destruct (d ++ s) as [|u [|c2 t]] eqn:E.
    + rewrite IH. reflexivity.
    + rewrite IH. reflexivity.
    + rewrite U. simpl andb. cbv iota. rewrite IH. reflexivity.
Qed.

Lemma digitpart_all d : forallb isdigit d = true -> digitpart d = (d, []).
Proof.
  intros H. rewrite <- (app_nil_r d) at 1. now apply digitpart_run.
Qed.

Lemma digitpart_head c s : isdigit c = false -> digitpart (c :: s) = ([], c :: s).
Proof. intros H. simpl. now rewrite H. Qed.

(** The text keeps its first character when that is no space. *)
Lemma strip_by_head p c s :
  p c = false -> exists s', strip_by p (c :: s) = c :: s'.
Proof.
  intros H. unfold strip_by. simpl. rewrite H. unfold rstrip_by. simpl.
  rewrite lstrip_by_app_stop by exact H.
  rewrite rev_app_distr. simpl. eauto.
Qed.

Lemma strip_by_id p c m c' :
  p c = false -> p c' = false -> strip_by p (c :: m ++ [c']) = c :: m ++ [c'].
Proof.
  intros H H'. unfold strip_by. simpl. rewrite H. unfold rstrip_by.
  change (c :: m ++ [c']) with ((c :: m) ++ [c']).
  rewrite rev_app_distr. simpl. rewrite H'. simpl.
  rewrite rev_app_distr. simpl. now rewrite rev_involutive.
Qed.

Lemma strip_by_single p c : p c = false -> strip_by p [c] = [c].
Proof. intros H. unfold strip_by, rstrip_by. simpl. rewrite H. simpl. now rewrite H. Qed.

Lemma int_none_head c s : int_head c = false -> Num.int (c :: s) = None.
Proof.
  unfold int_head. intros H.
  apply orb_false_iff in H as [H Hp]. apply orb_false_iff in H as [H Hm].
  apply orb_false_iff in H as [Hs Hd].
  unfold Num.int. destruct (strip_by_head numspace c s Hs) as [s' ->].
  unfold split_sign. rewrite Hm, Hp. now rewrite digitpart_head.
Qed.

Lemma float_none_head c s : float_head c = false -> Num.float (c :: s) = None.
Proof.
  unfold float_head, int_head. intros H.
  apply orb_false_iff in H as [H Hn]. apply orb_false_iff in H as [H Hi].
  apply orb_false_iff in H as [H Hdot].
  apply orb_false_iff in H as [H Hp]. apply orb_false_iff in H as [H Hm].
  apply orb_false_iff in H as [Hs Hd].
  unfold Num.float. destruct (strip_by_head numspace c s Hs) as [s' ->].
  unfold split_sign. rewrite Hm, Hp.
  cbn [map lit list_ascii_of_string Str.eqb]. rewrite Hi, Hn. simpl.
  unfold float_number. rewrite digitpart_head by exact Hd.
  rewrite Hdot. reflexivity.
Qed.

Lemma isdigit_head c : isdigit c = true -> float_head c = true /\ numspace c = false
  /\ Ascii.eqb c "-" = false /\ Ascii.eqb c "+" = false
  /\ Ascii.eqb (lower c) "i" = false /\ Ascii.eqb (lower c) "n" = false
  /\ Ascii.eqb c "," = false /\ Ascii.eqb c ")" = false.
Proof.
  destruct c as [[] [] [] [] [] [] [] []]; vm_compute; intuition congruence.
Qed.

(** A text that starts with a digit and has no space around it is read
    as a decimal number. *)
Lemma float_digit_head c s :
  isdigit c = true -> strip_by numspace (c :: s) = c :: s ->
  Num.float (c :: s) = float_number false (c :: s).
Proof.
  intros Hc E.
  destruct (isdigit_head c Hc) as (_ & Hs & Hm & Hp & Hi & Hn & _).
  unfold Num.float. rewrite E. unfold split_sign. rewrite Hm, Hp.
  cbn [map lit list_ascii_of_string Str.eqb]. rewrite Hi, Hn. reflexivity.
Qed.

End NumFacts.

(** * The pattern of complex literals *)

Module ComplexFacts.
Import Str Num Re StrFacts ReFacts NumFacts.
Import Forms.

Lemma digits_last_not_space d :
  digits d -> exists c m, (d = [c] \/ exists c', d = c :: m ++ [c'] /\ isdigit c' = true)
                          /\ isdigit c = true.
Proof.
  intros [N H]. destruct d as [|c d]; [contradiction|].
  simpl in H. apply andb_true_iff in H as [Hc Hd].
  destruct (last_case d) as [->|[m [c' ->]]].
  - exists c, []. split; [now left|exact Hc].
  - exists c, m. split; [|exact Hc]. right. exists c'. split; [reflexivity|].
    rewrite forallb_app in Hd. apply andb_true_iff in Hd as [_ Hd].
    simpl in Hd. now rewrite andb_true_r in Hd.
Qed.

Lemma digits_strip d s :
  digits d -> (s = [] \/ exists m c, s = m ++ [c] /\ numspace c = false) ->
  strip_by numspace (d ++ s) = d ++ s.
Proof.
  intros [N H] Hs. destruct d as [|c d]; [contradiction|].
  simpl in H. apply andb_true_iff in H as [Hc Hd].
  destruct (isdigit_head c Hc) as (_ & Hsp & _).
  destruct Hs as [->|[m [c' [-> Hc']]]].
  - rewrite app_nil_r. destruct (last_case d) as [->|[m [c' ->]]].
    + now apply strip_by_single.
    + apply strip_by_id; [exact Hsp|].
      rewrite forallb_app in Hd. apply andb_true_iff in Hd as [_ Hd].
      simpl in Hd. rewrite andb_true_r in Hd.
      now destruct (isdigit_head c' Hd) as (_ & Hs' & _).
  - simpl. rewrite app_assoc. now apply strip_by_id.
Qed.

(** [float()] reads every unsigned decimal. *)
Lemma float_udec A : udec A -> exists x, Num.float A = Some x.
Proof.
  intros [d [N H]|d f [N H] Hf].
  - pose proof (digits_strip d [] (conj N H) (or_introl eq_refl)) as E.
    rewrite app_nil_r in E.
    destruct d as [|c d]; [contradiction|].
    pose proof H as H'. simpl in H'. apply andb_true_iff in H' as [Hc Hd].
    rewrite float_digit_head by assumption.
    unfold float_number. rewrite digitpart_all by exact H.
    rewrite app_nil_r. eauto.
  - assert (E : strip_by numspace (d ++ "."%char :: f) = d ++ "."%char :: f).
    { apply digits_strip; [now split|]. right.
      destruct (last_case f) as [->|[m [c' ->]]].
      - exists [], "."%char. now split.
      - exists ("."%char :: m), c'. split; [reflexivity|].
        rewrite forallb_app in Hf. apply andb_true_iff in Hf as [_ Hf].
        simpl in Hf. rewrite andb_true_r in Hf.
        now destruct (isdigit_head c' Hf) as (_ & Hs' & _). }
    destruct d as [|c d]; [contradiction|].
    pose proof H as H'. simpl in H'. apply andb_true_iff in H' as [Hc Hd].
    simpl app in *. rewrite float_digit_head by assumption.
    unfold float_number.
    change (c :: d ++ "."%char :: f) with ((c :: d) ++ "."%char :: f).
    rewrite digitpart_run; [|exact H|split; reflexivity].
    rewrite Ascii.eqb_refl. rewrite digitpart_all by exact Hf.
    simpl app. eauto.
Qed.

Section Number.
Context {R : Type}.

(** The part [(\d+.?\d* )t] of a pattern reads an unsigned decimal that a
    character [t] follows, when the rest of the pattern matches after it
    and what follows [t] does not lead to a second [t] after digits. *)
Lemma run_number A (t : ascii) s pat bos marks acc
      (k : list nat -> str -> str -> option R) r :
  udec A -> isdigit t = false ->
  (forall marks' acc',
      run (Star isdigit :: Close :: Chr (only t) :: pat) bos marks' acc' s k = None) ->
  run pat bos (length (rev A ++ acc) :: length acc :: marks)
      (t :: rev A ++ acc) s k = Some r ->
  run (Open :: Plus isdigit :: Opt dot :: Star isdigit :: Close
         :: Chr (only t) :: pat) bos marks acc (A ++ t :: s) k = Some r.
Proof.
  intros HA Ht FC Hr.
  assert (Tail : forall acc', 
             run (Star isdigit :: Close :: Chr (only t) :: pat) bos
                 (length acc :: marks) acc' (t :: s) k
             = run pat bos (length acc' :: length acc :: marks) (t :: acc') s k).
  { intros acc'. rewrite run_star, star_stop by exact Ht.
    rewrite run_close, run_chr_cons. unfold only at 1.
    now rewrite Ascii.eqb_refl. }
  rewrite run_open.
  destruct HA as [d [N H]|d f [N H] Hf].
  - destruct d as [|x d]; [contradiction|].
    simpl in H. apply andb_true_iff in H as [Hx Hd].
    simpl app. rewrite run_plus_cons by exact Hx.
    apply star_longest; [exact Hd|exact Ht|].
    rewrite <- rev_cons_app.
    rewrite run_opt_cons, FC.
    destruct (dot t); rewrite Tail; exact Hr.
  - destruct d as [|x d]; [contradiction|].
    simpl in H. apply andb_true_iff in H as [Hx Hd].
    rewrite <- app_assoc. simpl app. rewrite run_plus_cons by exact Hx.
    apply star_longest; [exact Hd|reflexivity|].
    rewrite <- rev_cons_app.
    rewrite run_opt_cons. change (dot ".") with true. cbv iota.
    assert (E : run (Star isdigit :: Close :: Chr (only t) :: pat) bos
                    (length acc :: marks) ("."%char :: rev (x :: d) ++ acc)
                    (f ++ t :: s) k = Some r).
    { rewrite run_star. apply star_longest; [exact Hf|exact Ht|].
      rewrite run_close, run_chr_cons. unfold only at 1.
      rewrite Ascii.eqb_refl.
      replace (rev f ++ "."%char :: rev (x :: d) ++ acc)
        with (rev ((x :: d) ++ "."%char :: f) ++ acc); [exact Hr|].
      rewrite rev_app_distr. simpl. rewrite <- !app_assoc. reflexivity. }
    rewrite E. reflexivity.
Qed.

End Number.

(** After a decimal and a closing parenthesis no comma can follow. *)
Lemma no_second_comma {R} B pat bos marks acc
      (k : list nat -> str -> str -> option R) :
  udec B ->
  run (Star isdigit :: Close :: Chr (only ","%char) :: pat) bos marks acc
      (B ++ [")"%char]) k = None.
Proof.
  intros HB. cbn [run].
  assert (G : forall e s2, forallb isdigit e = true ->
                match s2 with c :: _ => isdigit c = false /\ Ascii.eqb c "," = false
                            | [] => True end ->
                star isdigit
                  (fun acc' s' => run (Chr (only ","%char) :: pat) bos
                                      (length acc' :: marks) acc' s' k)
                  acc (e ++ s2) = None).
  { intros e s2 He Hs2. apply star_none; [exact He| |].
    - destruct s2; [exact I|apply Hs2].
    - intros u1 u2 ->. rewrite forallb_app in He.
      apply andb_true_iff in He as [_ He].
      destruct u2 as [|y u2].
      + simpl. destruct s2 as [|c s2]; [reflexivity|].
        cbn [run]. unfold only. destruct Hs2 as [_ ->]. reflexivity.
      + simpl in He. apply andb_true_iff in He as [Hy _].
        destruct (isdigit_head y Hy) as (_ & _ & _ & _ & _ & _ & Hc & _).
        simpl. unfold only. now rewrite Hc. }
  destruct HB as [d [N H]|d f [N H] Hf].
  - apply G; [exact H|split; reflexivity].
  - rewrite <- app_assoc. apply G; [exact H|split; reflexivity].
Qed.

Lemma sub_middle (a b c : str) :
  sub (length a) (length a + length b) (a ++ b ++ c) = b.
Proof.
  unfold sub. rewrite skipn_app, skipn_all, Nat.sub_diag. simpl.
  replace (length a + length b - length a)%nat with (length b) by lia.
  rewrite firstn_app, firstn_all, Nat.sub_diag. simpl. apply app_nil_r.
Qed.

Lemma complex_match A B :
  udec A -> udec B ->
  match_at Mesa.complex_re true (complex_text A B)
  = Some (complex_text A B, [A; B]).
Proof.
  intros HA HB. unfold match_at, Mesa.complex_re, complex_text.
  rewrite run_bol_start, run_chr_cons.
  change (only "(" "(") with true. cbv iota.
  apply run_number; [exact HA|reflexivity| |].
  { intros marks' acc'. now apply no_second_comma. }
  apply run_number; [exact HB|reflexivity| |].
  { intros marks' acc'. reflexivity. }
  rewrite run_eol_end. f_equal.
  assert (E : rev (")"%char :: rev B ++ ","%char :: rev A ++ ["("%char])
              = ["("%char] ++ A ++ [","%char] ++ B ++ [")"%char]).
  { simpl. rewrite !rev_app_distr. simpl. rewrite !rev_app_distr. simpl.
    rewrite !rev_involutive. rewrite <- !app_assoc. reflexivity. }
  rewrite E. f_equal.
  cbn [rev app groups_of length]. 
  repeat (rewrite ?length_app, ?length_rev; cbn [length]).
  f_equal.
  - replace (length A + 1)%nat with (length ["("%char] + length A)%nat
      by (simpl; lia).
    change 1%nat with (length ["("%char]) at 1.
    apply (sub_middle ["("%char] A).
  - f_equal.
    pose proof (sub_middle (["("%char] ++ A ++ [","%char]) B [")"%char]) as HS.
    rewrite !length_app in HS. cbn [length] in HS.
    rewrite <- !app_assoc in HS.
    match goal with |- sub ?a ?b _ = _ =>
      replace b with (1 + (length A + 1) + length B)%nat by lia;
      replace a with (1 + (length A + 1))%nat by lia
    end.
    exact HS.
Qed.

End ComplexFacts.

(** * The dictionary of a list *)

Module ListFacts.
Import Str Obj Mesa.
Import Forms.

Lemma list_setitem_spec l i v :
  0 <= i < Z.of_nat (length l) ->
  exists l', list_setitem l i v = Ok l' /\ length l' = length l
             /\ nth_error l' (Z.to_nat i) = Some v
             /\ forall j, j <> Z.to_nat i -> nth_error l' j = nth_error l j.
Proof.
  intros Hi. unfold list_setitem.
  destruct (i <? 0) eqn:E; [apply Z.ltb_lt in E; lia|].
  destruct (0 <=? i) eqn:E1; [|apply Z.leb_gt in E1; lia].
  destruct (i <? Z.of_nat (length l)) eqn:E2; [|apply Z.ltb_ge in E2; lia].
  cbn [andb]. eexists. split; [reflexivity|].
  set (n := Z.to_nat i). assert (Hn : (n < length l)%nat) by lia.
  assert (Lf : length (firstn n l) = n) by (rewrite length_firstn; lia).
  split; [|split].
  - rewrite length_app. cbn [length]. rewrite Lf, length_skipn. lia.
  - rewrite nth_error_app2 by lia. rewrite Lf, Nat.sub_diag. reflexivity.
  - intros j Hj. destruct (Nat.lt_ge_cases j n) as [Hlt|Hge].
    + rewrite nth_error_app1 by lia. rewrite nth_error_firstn.
      destruct (Nat.ltb_spec j n); [reflexivity|lia].
    + rewrite nth_error_app2 by lia. rewrite Lf.
      destruct (j - n)%nat as [|m] eqn:Em; [lia|]. cbn [nth_error].
      rewrite nth_error_skipn. f_equal. lia.
Qed.

Lemma fill_list_spec (vs : list (Z * obj)) : forall (n : nat) (l0 : list obj),
  length l0 = n -> NoDup (map fst vs) ->
  (forall i, In i (map fst vs) -> 0 <= i < Z.of_nat n) ->
  exists l, fill_list (Z.of_nat n) (index_items vs) l0 = Ok l
            /\ length l = n
            /\ (forall i v, In (i, v) vs -> nth_error l (Z.to_nat i) = Some v)
            /\ (forall j, ~ In (Z.of_nat j) (map fst vs) ->
                          nth_error l j = nth_error l0 j).
Proof.
  induction vs as [|[i v] vs IH]; intros n l0 Hl Hnd Hr.
  - exists l0. simpl. repeat split; auto. intros i v [].
  - simpl in Hnd. inversion Hnd as [|? ? Hni Hnd']; subst.
    assert (Hi : 0 <= i < Z.of_nat (length l0)) by (apply Hr; now left).
    destruct (list_setitem_spec l0 i v Hi) as (l1 & E1 & L1 & N1 & O1).
    destruct (IH (length l0) l1 L1 Hnd') as (l & E & L & Hin & Hout).
    { intros j Hj. apply Hr. now right. }
    exists l. simpl.
    destruct (Z.of_nat (length l0) <=? i) eqn:Ele; [apply Z.leb_le in Ele; lia|].
    rewrite E1. simpl. split; [exact E|]. split; [exact L|]. split.
    + intros i' v' [H|H].
      * inversion H; subst i' v'. rewrite Hout; [exact N1|].
        rewrite Z2Nat.id by lia. exact Hni.
      * now apply Hin.
    + intros j Hj. rewrite Hout.
      * apply O1. intros ->. apply Hj. left. simpl. lia.
      * intros Hc. apply Hj. now right.
Qed.

(** The dictionary of a list whose indices are 0 .. n-1 in any order
    becomes the list that has each value at its index. *)
Lemma check_value_dense (vs : list (Z * obj)) :
  NoDup (map fst vs) ->
  (forall i, In i (map fst vs) -> 0 <= i < Z.of_nat (length vs)) ->
  exists l, check_value (is_list_dict vs) = Ok (PyList l)
            /\ length l = length vs
            /\ forall i v, In (i, v) vs -> nth_error l (Z.to_nat i) = Some v.
Proof.
  intros Hnd Hr. unfold is_list_dict, check_value.
  cbn [dget Dict.get key_eqb lit list_ascii_of_string].
  rewrite StrFacts.eqb_refl. cbn [truthy ddel Dict.del key_eqb].
  rewrite StrFacts.eqb_refl.
  assert (Ln : length (index_items vs) = length vs) by apply length_map.
  rewrite Ln.
  destruct (fill_list_spec vs (length vs) (repeat PyNone (length vs)))
    as (l & E & L & Hin & _); auto using repeat_length.
  exists l. rewrite E. simpl. auto.
Qed.

End ListFacts.

Module Round3Facts.
Import Str Num.
Import Forms.

Lemma pow2_le_pow10 k : 0 <= k -> 2 ^ k <= 10 ^ k.
Proof. intros H. apply Z.pow_le_mono_l. lia. Qed.

Lemma lt_pow2_log2 n : 0 < n -> n < 2 ^ (Z.log2 n + 1).
Proof. intros H. apply Z.log2_spec in H. now rewrite <- Z.add_1_r in H. Qed.

Lemma pow10_pos k : 0 < 10 ^ k \/ k < 0.
Proof.
  destruct (Z.lt_ge_cases k 0); [now right|left]. now apply Z.pow_pos_nonneg.
Qed.

Lemma exp10_up_spec fuel : forall num den k,
  0 < den -> 0 <= k -> den * 10 ^ k <= num ->
  Z.log2 num < k + Z.of_nat fuel ->
  let k' := exp10_up fuel num den k in
  k <= k' /\ den * 10 ^ k' <= num < den * 10 ^ (k' + 1).
Proof.
  induction fuel as [|fuel IH]; intros num den k Hd Hk Hle Hf; simpl.
  - split; [lia|]. split; [exact Hle|].
    assert (0 < 10 ^ k) by (apply Z.pow_pos_nonneg; lia).
    assert (0 < num) by nia.
    pose proof (lt_pow2_log2 num H0).
    assert (2 ^ (Z.log2 num + 1) <= 2 ^ k) by (apply Z.pow_le_mono_r; lia).
    pose proof (pow2_le_pow10 k Hk).
    rewrite Z.pow_add_r by lia. nia.
  - destruct (den * 10 ^ (k + 1) <=? num) eqn:E.
    + apply Z.leb_le in E.
      destruct (IH num den (k + 1)) as [H1 H2]; [lia|lia|lia|lia|].
      split; [lia|exact H2].
    + apply Z.leb_gt in E. split; [lia|]. split; assumption.
Qed.

Lemma exp10_down_spec fuel : forall num den j,
  0 < num -> 1 <= j -> num * 10 ^ (j - 1) < den ->
  Z.log2 den < (j - 1) + Z.of_nat fuel ->
  let j' := exp10_down fuel num den j in
  j <= j' /\ num * 10 ^ (j' - 1) < den <= num * 10 ^ j'.
Proof.
  induction fuel as [|fuel IH]; intros num den j Hn Hj Hlt Hf; simpl.
  - exfalso.
    assert (0 < 10 ^ (j - 1)) by (apply Z.pow_pos_nonneg; lia).
    assert (0 < den) by nia.
    pose proof (lt_pow2_log2 den H0).
    assert (2 ^ (Z.log2 den + 1) <= 2 ^ (j - 1)) by (apply Z.pow_le_mono_r; lia).
    pose proof (pow2_le_pow10 (j - 1)). nia.
  - destruct (den <=? num * 10 ^ j) eqn:E.
    + apply Z.leb_le in E. split; [lia|]. split; assumption.
    + apply Z.leb_gt in E.
      destruct (IH num den (j + 1)) as [H1 H2]; [lia|lia| |lia|].
      * now replace (j + 1 - 1) with j by lia.
      * split; [lia|exact H2].
Qed.

Lemma div_half_even_bounds a b lo hi :
  0 < b -> lo * b <= a < hi * b -> lo <= div_half_even a b <= hi.
Proof.
  intros Hb [H1 H2]. unfold div_half_even.
  assert (lo <= a / b) by (apply Z.div_le_lower_bound; lia).
  assert (a / b < hi) by (apply Z.div_lt_upper_bound; lia).
  destruct (2 * (a mod b) ?= b); [destruct (Z.even (a / b))| |]; lia.
Qed.

(** The three digits the formatter prints are a number from 100 to 999. *)
Lemma round3_digits m e :
  let (d, k) := round3 m e in 100 <= d <= 999.
Proof.
  unfold round3.
  set (num := if 0 <=? e then Z.pos m * 2 ^ e else Z.pos m).
  set (den := if 0 <=? e then 1 else 2 ^ (- e)).
  assert (Hnum : 0 < num).
  { unfold num. destruct (Z.leb_spec 0 e); [|lia].
    assert (0 < 2 ^ e) by (apply Z.pow_pos_nonneg; lia). nia. }
  assert (Hden : 0 < den).
  { unfold den. destruct (Z.leb_spec 0 e); [lia|].
    apply Z.pow_pos_nonneg; lia. }
  set (k := exp10 num den).
  assert (Hd : 100 <= (if 2 <=? k then div_half_even num (den * 10 ^ (k - 2))
                       else div_half_even (num * 10 ^ (2 - k)) den) <= 1000).
  { unfold k, exp10. destruct (Z.leb_spec den num) as [Hle|Hgt].
    - destruct (exp10_up_spec (Z.to_nat (Z.log2 num) + 1) num den 0)
        as [Hk [Hlo Hhi]]; [lia|lia|simpl; lia| |].
      { pose proof (Z.log2_nonneg num). lia. }
      set (k0 := exp10_up (Z.to_nat (Z.log2 num) + 1) num den 0) in *.
      destruct (Z.leb_spec 2 k0).
      + apply div_half_even_bounds.
        * assert (0 < 10 ^ (k0 - 2)) by (apply Z.pow_pos_nonneg; lia). nia.
        * replace k0 with (2 + (k0 - 2)) in Hlo by lia.
          replace (k0 + 1) with (3 + (k0 - 2)) in Hhi by lia.
          rewrite Z.pow_add_r in Hlo, Hhi by lia.
          change (10 ^ 2) with 100 in Hlo. change (10 ^ 3) with 1000 in Hhi.
          lia.
      + apply div_half_even_bounds; [exact Hden|].
        assert (K : k0 = 0 \/ k0 = 1) by lia.
        destruct K as [K|K]; rewrite K in Hlo, Hhi |- *.
        * change (10 ^ 0) with 1 in Hlo. change (10 ^ (0 + 1)) with 10 in Hhi.
          change (10 ^ (2 - 0)) with 100. lia.
        * change (10 ^ 1) with 10 in Hlo. change (10 ^ (1 + 1)) with 100 in Hhi.
          change (10 ^ (2 - 1)) with 10. lia.
    - destruct (exp10_down_spec (Z.to_nat (Z.log2 den) + 1) num den 1)
        as [Hj [Hlo Hhi]]; [lia|lia|simpl; lia| |].
      { pose proof (Z.log2_nonneg den). lia. }
      set (j := exp10_down (Z.to_nat (Z.log2 den) + 1) num den 1) in *.
      destruct (Z.leb_spec 2 (- j)); [lia|].
      apply div_half_even_bounds; [exact Hden|].
      replace (2 - - j) with (2 + j) by lia.
      rewrite Z.pow_add_r by lia. change (10 ^ 2) with 100.
      replace j with (1 + (j - 1)) at 2 by lia.
      rewrite Z.pow_add_r by lia. change (10 ^ 1) with 10.
      lia. }
  destruct (Z.eqb_spec (if 2 <=? k then div_half_even num (den * 10 ^ (k - 2))
                        else div_half_even (num * 10 ^ (2 - k)) den) 1000); lia.
Qed.

End Round3Facts.

(** * Lemmas on the text of numbers *)

Module FormatFacts.
Import Str Num StrFacts NumFacts ComplexFacts.
Import Forms.

Lemma digits_of_uint_digits u : forallb isdigit (digits_of_uint u) = true.
Proof. induction u; simpl; auto. Qed.

Lemma uint_of_digits_of_uint u : uint_of_digits (digits_of_uint u) = u.
Proof. induction u; simpl; unfold digit_of_char; simpl; congruence. Qed.

Lemma digits_of_uint_nonnil u : u <> Decimal.Nil -> digits_of_uint u <> [].
Proof. destruct u; simpl; congruence. Qed.

Lemma digits_val_of_uint u : digits_val (digits_of_uint u) = Z.of_uint u.
Proof. unfold digits_val. now rewrite uint_of_digits_of_uint. Qed.

Lemma digits_of_pos p :
  digits (digits_of_uint (Pos.to_uint p))
  /\ digits_val (digits_of_uint (Pos.to_uint p)) = Zpos p.
Proof.
  split; [split|].
  - apply digits_of_uint_nonnil, DecimalPos.Unsigned.to_uint_nonnil.
  - apply digits_of_uint_digits.
  - rewrite digits_val_of_uint. unfold Z.of_uint.
    now rewrite DecimalPos.Unsigned.of_to.
Qed.

(** The text of an integer: a minus sign when it is negative, then the
    digits of its absolute value. *)
Lemma format_d_shape z :
  exists ds, digits ds
             /\ format_d z = (if z <? 0 then ["-"%char] else []) ++ ds
             /\ digits_val ds = Z.abs z.
Proof.
  destruct z as [|p|p]; unfold format_d; simpl Z.to_int.
  - exists ["0"%char].
    split; [split; [discriminate|reflexivity]|split; reflexivity].
  - exists (digits_of_uint (Pos.to_uint p)).
    destruct (digits_of_pos p) as [D V].
    split; [exact D|split; [reflexivity|exact V]].
  - exists (digits_of_uint (Pos.to_uint p)).
    destruct (digits_of_pos p) as [D V].
    split; [exact D|split; [reflexivity|exact V]].
Qed.

Lemma digits_last ds :
  digits ds -> exists m c, ds = m ++ [c] /\ isdigit c = true.
Proof.
  intros [N H]. destruct (last_case ds) as [->|[m [c ->]]]; [contradiction|].
  exists m, c. split; [reflexivity|].
  rewrite forallb_app in H. apply andb_true_iff in H as [_ H].
  simpl in H. now rewrite andb_true_r in H.
Qed.

Lemma digits_head ds :
  digits ds -> exists c m, ds = c :: m /\ isdigit c = true.
Proof.
  intros [N H]. destruct ds as [|c m]; [contradiction|].
  exists c, m. split; [reflexivity|].
  simpl in H. now apply andb_true_iff in H as [H _].
Qed.

Lemma int_digits ds : digits ds -> Num.int ds = Some (digits_val ds).
Proof.
  intros D. unfold Num.int.
  pose proof (digits_strip ds [] D (or_introl eq_refl)) as E.
  rewrite app_nil_r in E. rewrite E.
  destruct (digits_head ds D) as (c & m & -> & Hc).
  destruct (isdigit_head c Hc) as (_ & _ & Hm & Hp & _).
  unfold split_sign. rewrite Hm, Hp.
  rewrite digitpart_all by apply D. reflexivity.
Qed.

Lemma split_sign_minus r : split_sign ("-"%char :: r) = (true, r).
Proof. reflexivity. Qed.

Lemma split_sign_plus r : split_sign ("+"%char :: r) = (false, r).
Proof. reflexivity. Qed.

Lemma split_sign_digit c r :
  isdigit c = true -> split_sign (c :: r) = (false, c :: r).
Proof.
  intros Hc. destruct (isdigit_head c Hc) as (_ & _ & Hm & Hp & _).
  unfold split_sign. now rewrite Hm, Hp.
Qed.

Lemma int_minus_digits ds :
  digits ds -> Num.int ("-"%char :: ds) = Some (- digits_val ds).
Proof.
  intros D. unfold Num.int.
  destruct (digits_last ds D) as (m & c & -> & Hc).
  destruct (isdigit_head c Hc) as (_ & Hs & _).
  rewrite strip_by_id by (reflexivity || exact Hs).
  rewrite split_sign_minus, digitpart_all by apply D.
  destruct (digits_head _ D) as (c0 & m0 & E0 & _). rewrite E0. reflexivity.
Qed.

(** [int()] reads back what [{:d}] writes. *)
Lemma int_format_d z : Num.int (format_d z) = Some z.
Proof.
  destruct (format_d_shape z) as (ds & D & -> & V).
  destruct (Z.ltb_spec z 0).
  - simpl app. rewrite int_minus_digits by exact D. f_equal. lia.
  - simpl app. rewrite int_digits by exact D. f_equal. lia.
Qed.

End FormatFacts.

Module TokenFacts.
Import Str Num Obj Mesa Shape StrFacts NumFacts ComplexFacts Round3Facts FormatFacts.
Import Forms.

Lemma tok_char_plain c :
  tok_char c = true ->
  isspace c = false /\ numspace c = false
  /\ Ascii.eqb c quote = false /\ Ascii.eqb c dquote = false
  /\ Ascii.eqb c "=" = false /\ Ascii.eqb c "!" = false
  /\ Ascii.eqb c "&" = false /\ Ascii.eqb c "(" = false
  /\ Ascii.eqb c "," = false /\ Ascii.eqb c nl = false
  /\ Ascii.eqb c "_" = false /\ Ascii.eqb c " " = false.
Proof.
  destruct c as [[] [] [] [] [] [] [] []]; vm_compute; intuition congruence.
Qed.

Lemma isdigit_tok c : isdigit c = true -> tok_char c = true.
Proof. unfold tok_char. now intros ->. Qed.

Lemma digits_tok ds : forallb isdigit ds = true -> forallb tok_char ds = true.
Proof.
  induction ds as [|c ds IH]; simpl; [reflexivity|].
  intros H. apply andb_true_iff in H as [H1 H2].
  now rewrite isdigit_tok, IH.
Qed.

Lemma replace_id a b s :
  forallb (fun c => negb (Ascii.eqb c a)) s = true -> replace a b s = s.
Proof.
  induction s as [|c s IH]; simpl; [reflexivity|].
  intros H. apply andb_true_iff in H as [H1 H2].
  apply negb_true_iff in H1. now rewrite H1, (IH H2).
Qed.

Lemma replace_app a b s t : replace a b (s ++ t) = replace a b s ++ replace a b t.
Proof. apply map_app. Qed.

Lemma isdigit_not_letter c :
  isdigit c = true ->
  Ascii.eqb c "e" = false /\ Ascii.eqb c "d" = false /\ Ascii.eqb c "." = false.
Proof.
  destruct c as [[] [] [] [] [] [] [] []]; vm_compute; intuition congruence.
Qed.

Lemma replace_digits a b ds :
  (a = "e" \/ a = "d")%char -> forallb isdigit ds = true -> replace a b ds = ds.
Proof.
  intros Ha H. apply replace_id.
  induction ds as [|c ds IH]; simpl; [reflexivity|].
  simpl in H. apply andb_true_iff in H as [H1 H2].
  rewrite (IH H2), andb_true_r.
  destruct (isdigit_not_letter c H1) as (He & Hd & _).
  destruct Ha as [->| ->]; [now rewrite He|now rewrite Hd].
Qed.

Lemma digit_char_digit d : isdigit (digit_char d) = true.
Proof.
  unfold digit_char. pose proof (Z.mod_pos_bound d 10 eq_refl) as B.
  set (r := d mod 10) in *.
  assert (C : r = 0 \/ r = 1 \/ r = 2 \/ r = 3 \/ r = 4 \/ r = 5 \/ r = 6
              \/ r = 7 \/ r = 8 \/ r = 9) by lia.
  repeat (destruct C as [->|C]; [reflexivity|]). now rewrite C.
Qed.

Lemma three_digits_checked_true : three_digits_checked = true.
Proof. vm_compute. reflexivity. Qed.

Lemma digits_val_three d : 0 <= d < 1000 -> digits_val (three_digits d) = d.
Proof.
  intros H. pose proof three_digits_checked_true as C.
  unfold three_digits_checked in C. rewrite forallb_forall in C.
  specialize (C (Z.to_nat d)). rewrite Z2Nat.id in C by lia.
  apply Z.eqb_eq, C. apply in_seq. lia.
Qed.

Lemma two_digits_checked_true : two_digits_checked = true.
Proof. vm_compute. reflexivity. Qed.

(** The text of an exponent: a sign and at least two digits. *)
Lemma format_exp_shape k :
  exists ds, digits ds
             /\ format_exp k = (if k <? 0 then "-"%char else "+"%char) :: ds
             /\ digits_val ds = Z.abs k.
Proof.
  unfold format_exp. destruct (Z.ltb_spec (Z.abs k) 10) as [Hs|Hb].
  - exists ["0"%char; digit_char (Z.abs k)]. split; [split|split].
    + discriminate.
    + simpl. now rewrite digit_char_digit.
    + reflexivity.
    + pose proof two_digits_checked_true as C.
      unfold two_digits_checked in C. rewrite forallb_forall in C.
      specialize (C (Z.to_nat (Z.abs k))). rewrite Z2Nat.id in C by lia.
      apply Z.eqb_eq, C. apply in_seq. lia.
  - destruct (format_d_shape (Z.abs k)) as (ds & D & E & V).
    destruct (Z.ltb_spec (Z.abs k) 0); [lia|]. simpl in E.
    exists ds. split; [exact D|]. split; [now rewrite E|].
    rewrite V. lia.
Qed.


(** *** Texts that keep their ends when stripped *)

Lemma lstrip_head p s : head_ok p s -> lstrip_by p s = s.
Proof. destruct s as [|c s]; simpl; [reflexivity|]. now intros ->. Qed.

Lemma strip_ends p s :
  head_ok p s -> head_ok p (rev s) -> strip_by p s = s.
Proof.
  intros H1 H2. unfold strip_by, rstrip_by.
  rewrite (lstrip_head p s H1), (lstrip_head p (rev s) H2).
  apply rev_involutive.
Qed.

Lemma head_ok_rev_last p x c : p c = false -> head_ok p (rev (x ++ [c])).
Proof. intros H. rewrite rev_app_distr. exact H. Qed.

Lemma head_ok_app p s t : s <> [] -> head_ok p s -> head_ok p (s ++ t).
Proof. destruct s; [contradiction|]. now simpl. Qed.

Lemma head_ok_rev_app p s t : t <> [] -> head_ok p (rev t) -> head_ok p (rev (s ++ t)).
Proof.
  intros N H. rewrite rev_app_distr. apply head_ok_app; [|exact H].
  intros E. apply N. apply (f_equal (@rev ascii)) in E.
  now rewrite rev_involutive in E.
Qed.

Lemma digits_rev_head ds : digits ds -> head_ok numspace (rev ds).
Proof.
  intros D. destruct (digits_last ds D) as (m & c & -> & Hc).
  apply head_ok_rev_last. now destruct (isdigit_head c Hc) as (_ & Hs & _).
Qed.

(** *** The text of a finite Real *)

Lemma sci_text_strip neg d x eneg ds :
  digits ds -> strip_by numspace (sci_text neg d x eneg ds) = sci_text neg d x eneg ds.
Proof.
  intros D. apply strip_ends.
  - unfold sci_text. destruct neg; simpl; [reflexivity|].
    now destruct (isdigit_head _ (digit_char_digit (d / 100))) as (_ & Hs & _).
  - unfold sci_text. rewrite app_assoc.
    apply head_ok_rev_app; [apply D|]. now apply digits_rev_head.
Qed.

Lemma split_sign_sci neg d x eneg ds :
  split_sign (sci_text neg d x eneg ds) = (neg, sci_text false d x eneg ds).
Proof.
  unfold sci_text. destruct neg; simpl sign_text; simpl app.
  - apply split_sign_minus.
  - apply split_sign_digit, digit_char_digit.
Qed.

Lemma int_sci neg d x eneg ds :
  digits ds -> Num.int (sci_text neg d x eneg ds) = None.
Proof.
  intros D. unfold Num.int. rewrite sci_text_strip, split_sign_sci by exact D.
  unfold sci_text. simpl sign_text. simpl app.
  change (digit_char (d / 100) :: "."%char :: ?r)
    with ([digit_char (d / 100)] ++ "."%char :: r).
  rewrite digitpart_run.
  - reflexivity.
  - simpl. now rewrite digit_char_digit.
  - split; reflexivity.
Qed.

Lemma float_sci neg d eneg ds :
  digits ds ->
  Num.float (sci_text neg d "E" eneg ds)
  = Some (of_decimal neg (digits_val (three_digits d))
            ((if eneg then - digits_val ds else digits_val ds) - 2)).
Proof.
  intros D. unfold Num.float.
  rewrite sci_text_strip, split_sign_sci by exact D.
  pose proof (digit_char_digit (d / 100)) as H1.
  pose proof (digit_char_digit (d / 10)) as H2.
  pose proof (digit_char_digit d) as H3.
  destruct (isdigit_head _ H1) as (_ & _ & _ & _ & Hi & Hn & _).
  unfold sci_text. simpl sign_text. simpl app.
  cbn [map lit list_ascii_of_string Str.eqb]. rewrite Hi, Hn. cbn [andb orb].
  unfold float_number.
  change (digit_char (d / 100) :: "."%char :: ?r)
    with ([digit_char (d / 100)] ++ "."%char :: r).
  rewrite digitpart_run; [|simpl; now rewrite H1|split; reflexivity].
  rewrite Ascii.eqb_refl.
  change (digit_char (d / 10) :: digit_char d :: "E"%char :: ?r)
    with ([digit_char (d / 10); digit_char d] ++ "E"%char :: r).
  rewrite digitpart_run; [|simpl; now rewrite H2, H3|split; reflexivity].
  cbn [app]. change (Ascii.eqb "E" "e" || Ascii.eqb "E" "E") with true. cbv iota.
  assert (S : split_sign (sign_char eneg :: ds) = (eneg, ds))
    by (destruct eneg; reflexivity).
  rewrite S, digitpart_all by apply D.
  destruct (digits_head ds D) as (c0 & m0 & -> & _).
  reflexivity.
Qed.

Lemma format_e2_finite s m e :
  let (d, k) := round3 m e in
  exists ds, digits ds /\ digits_val ds = Z.abs k
    /\ replace "e" "d" (format_e2 (S754_finite s m e))
       = sci_text s d "d" (k <? 0) ds.
Proof.
  unfold format_e2. destruct (round3 m e) as [d k].
  destruct (format_exp_shape k) as (ds & D & E & V).
  exists ds. split; [exact D|]. split; [exact V|].
  rewrite E. unfold sci_text. rewrite !replace_app. f_equal.
  - destruct s; reflexivity.
  - cbn [replace map app].
    destruct (isdigit_not_letter _ (digit_char_digit (d / 100))) as (-> & _).
    destruct (isdigit_not_letter _ (digit_char_digit (d / 10))) as (-> & _).
    destruct (isdigit_not_letter _ (digit_char_digit d)) as (-> & _).
    change (Ascii.eqb "." "e") with false. change (Ascii.eqb "e" "e") with true.
    cbv iota. f_equal. f_equal. f_equal. f_equal. f_equal.
    fold (replace "e" "d" ds). rewrite replace_digits; [|now left|apply D].
    unfold sign_char. destruct (k <? 0); reflexivity.
Qed.

Lemma replace_sci neg d eneg ds :
  digits ds ->
  replace "d" "E" (sci_text neg d "d" eneg ds) = sci_text neg d "E" eneg ds.
Proof.
  intros D. unfold sci_text. rewrite !replace_app. f_equal.
  - destruct neg; reflexivity.
  - cbn [replace map app].
    destruct (isdigit_not_letter _ (digit_char_digit (d / 100))) as (_ & -> & _).
    destruct (isdigit_not_letter _ (digit_char_digit (d / 10))) as (_ & -> & _).
    destruct (isdigit_not_letter _ (digit_char_digit d)) as (_ & -> & _).
    change (Ascii.eqb "." "d") with false. change (Ascii.eqb "d" "d") with true.
    cbv iota. f_equal. f_equal. f_equal. f_equal. f_equal.
    fold (replace "d" "E" ds). rewrite replace_digits; [|now right|apply D].
    destruct eneg; reflexivity.
Qed.

Lemma sci_text_tok neg d eneg ds : digits ds -> num_tok (sci_text neg d "d" eneg ds).
Proof.
  intros D. split.
  - unfold sci_text. destruct neg; discriminate.
  - unfold sci_text. rewrite !forallb_app. 
    apply andb_true_iff. split; [destruct neg; reflexivity|].
    apply andb_true_iff. split.
    + cbn [forallb].
      rewrite (isdigit_tok (digit_char (d / 100))),
        (isdigit_tok (digit_char (d / 10))), (isdigit_tok (digit_char d))
        by apply digit_char_digit.
      destruct eneg; reflexivity.
    + apply digits_tok, D.
Qed.

(** The text of a Real is read back as the double nearest to the digits
    printed. *)
Lemma float_token x :
  let t := replace "e" "d" (format_e2 x) in
  num_tok t /\ _parse_value t = Ok (PyFloat (reread_float x)).
Proof.
  destruct x as [s|s| |s m e].
  - destruct s; split; try (split; [discriminate|reflexivity]); reflexivity.
  - destruct s; split; try (split; [discriminate|reflexivity]); reflexivity.
  - split; try (split; [discriminate|reflexivity]); reflexivity.
  - pose proof (format_e2_finite s m e) as F.
    pose proof (round3_digits m e) as B.
    unfold reread_float. destruct (round3 m e) as [d k].
    destruct F as (ds & D & V & ->).
    split; [now apply sci_text_tok|].
    unfold _parse_value. rewrite int_sci by exact D.
    rewrite replace_sci, float_sci by exact D.
    rewrite digits_val_three by lia. rewrite V.
    do 3 f_equal. destruct (Z.ltb_spec k 0); lia.
Qed.

End TokenFacts.

Module ScalarFacts.
Import Str Num Re Obj Mesa Shape StrFacts ReFacts NumFacts ComplexFacts Round3Facts FormatFacts TokenFacts.
Import Forms.

Lemma format_d_tok z : num_tok (format_d z).
Proof.
  destruct (format_d_shape z) as (ds & D & -> & _). split.
  - destruct D as [N _]. destruct (z <? 0); [discriminate|exact N].
  - rewrite forallb_app. apply andb_true_iff. split.
    + destruct (z <? 0); reflexivity.
    + apply digits_tok, D.
Qed.

(** The text of an Integer, a Boolean or a Real reads back as the value. *)
Lemma number_token v :
  number_like v = true ->
  exists t, format_value_to_fortran v = Ok t /\ num_tok t
            /\ _parse_value t = Ok (reread_scalar v).
Proof.
  destruct v; try discriminate; intros _.
  - destruct b; eexists; (split; [reflexivity|]);
      (split; [split; [discriminate|reflexivity]|reflexivity]).
  - exists (format_d z). split; [reflexivity|]. split; [apply format_d_tok|].
    unfold _parse_value. now rewrite int_format_d.
  - eexists. split; [reflexivity|]. apply float_token.
Qed.

Lemma text_char_plain c :
  text_char c = true ->
  Ascii.eqb c quote = false /\ Ascii.eqb c "=" = false
  /\ Ascii.eqb c "!" = false /\ Ascii.eqb c "&" = false
  /\ Ascii.eqb c nl = false.
Proof.
  destruct c as [[] [] [] [] [] [] [] []]; vm_compute; intuition congruence.
Qed.

Lemma forallb_contains (p : ascii -> bool) a s :
  (forall c, p c = true -> Ascii.eqb c a = false) ->
  forallb p s = true -> contains a s = false.
Proof.
  intros Hp. induction s as [|c s IH]; simpl; [reflexivity|].
  intros H. apply andb_true_iff in H as [H1 H2].
  rewrite Ascii.eqb_sym, (Hp c H1), (IH H2). reflexivity.
Qed.

Lemma count_app a s t : count a (s ++ t) = (count a s + count a t)%nat.
Proof. unfold count. now rewrite filter_app, length_app. Qed.

Lemma count_zero a s : contains a s = false -> count a s = 0%nat.
Proof.
  unfold count. induction s as [|c s IH]; simpl; [reflexivity|].
  intros H. apply orb_false_iff in H as [H1 H2]. rewrite H1. now apply IH.
Qed.

Lemma count_one a : count a [a] = 1%nat.
Proof. unfold count. simpl. now rewrite Ascii.eqb_refl. Qed.

Lemma text_ok_contains s :
  text_ok s = true ->
  contains quote s = false /\ contains "=" s = false /\ contains "!" s = false
  /\ contains "&" s = false /\ contains nl s = false.
Proof.
  intros H. repeat split;
    (eapply forallb_contains; [|exact H]; intros c Hc;
     now destruct (text_char_plain c Hc) as (? & ? & ? & ? & ?)).
Qed.

(** A pattern that starts with [^\(] finds nothing in a text that starts
    otherwise. *)
Lemma complex_none_head c s :
  Ascii.eqb c "(" = false -> Re.findall complex_re (c :: s) = [].
Proof.
  intros H. unfold Re.findall, complex_re. apply scan_bol_miss.
  unfold match_at. rewrite run_bol_start, run_chr_cons.
  unfold only. now rewrite H.
Qed.

Lemma eqb_head_diff c d s t :
  Ascii.eqb c d = false -> Str.eqb (c :: s) (d :: t) = false.
Proof. intros H. simpl. now rewrite H. Qed.

Lemma count_quoted s : contains quote s = false -> count quote (quoted s) = 2%nat.
Proof.
  intros H. unfold quoted.
  change (quote :: s ++ [quote]) with ([quote] ++ s ++ [quote]).
  rewrite !count_app, count_one, (count_zero _ _ H). reflexivity.
Qed.

(** What [_parse_value] does with a text that starts with a quote. *)
Lemma parse_value_quote_head t :
  _parse_value (quote :: t)
  = if quoted_by quote (quote :: t) then Ok (PyStr (slice_1_m1 (quote :: t)))
    else Raise (NoSingleValueFoundException (quote :: t)).
Proof.
  unfold _parse_value.
  rewrite int_none_head by reflexivity.
  change (replace "d" "E" (quote :: t)) with (quote :: replace "d" "E" t).
  rewrite float_none_head by reflexivity.
  rewrite complex_none_head by reflexivity.
  lits. rewrite !eqb_head_diff by reflexivity. cbn [orb].
  destruct (quoted_by quote (quote :: t)); [reflexivity|].
  unfold quoted_by at 1. now rewrite andb_false_l.
Qed.

(** A quoted Text reads back as the Text. *)
Lemma text_token s :
  text_ok s = true -> _parse_value (quoted s) = Ok (PyStr s).
Proof.
  intros H. destruct (text_ok_contains s H) as (Hq & _).
  unfold quoted. rewrite parse_value_quote_head.
  unfold quoted_by. 
  change (quote :: s ++ [quote]) with ((quote :: s) ++ [quote]) at 2.
  rewrite endswith_last.
  fold (quoted s). rewrite count_quoted by exact Hq.
  unfold quoted. cbn [startswith]. rewrite Ascii.eqb_refl. cbn [andb Nat.eqb].
  unfold slice_1_m1. cbn [tl]. now rewrite removelast_last.
Qed.

End ScalarFacts.

Module JoinFacts.
Import Str Num Re Obj Mesa Shape StrFacts ReFacts NumFacts ComplexFacts Round3Facts FormatFacts TokenFacts ScalarFacts.
Import Forms.

Lemma join_cons sep p q ps :
  join sep (p :: q :: ps) = p ++ sep ++ join sep (q :: ps).
Proof. reflexivity. Qed.

Lemma join_app sep l1 l2 :
  l1 <> [] -> l2 <> [] -> join sep (l1 ++ l2) = join sep l1 ++ sep ++ join sep l2.
Proof.
  intros N1 N2. induction l1 as [|p l1 IH]; [contradiction|].
  destruct l1 as [|q l1].
  - destruct l2 as [|r l2]; [contradiction|]. reflexivity.
  - change ((p :: q :: l1) ++ l2) with (p :: q :: (l1 ++ l2)).
    rewrite !join_cons. change (q :: l1 ++ l2) with ((q :: l1) ++ l2).
    rewrite IH by discriminate. now rewrite <- !app_assoc.
Qed.

Lemma join_snoc_empty sep l : l <> [] -> join sep (l ++ [[]]) = join sep l ++ sep.
Proof.
  intros N. rewrite join_app by (assumption || discriminate).
  simpl. now rewrite app_nil_r.
Qed.

Lemma join_head sep c p ps : join sep ((c :: p) :: ps) = c :: join sep (p :: ps).
Proof. destruct ps; reflexivity. Qed.

Lemma contains_join a sep ps :
  contains a sep = false -> Forall (fun p => contains a p = false) ps ->
  contains a (join sep ps) = false.
Proof.
  intros Hs H. induction H as [|p ps Hp H IH]; [reflexivity|].
  destruct ps as [|q ps]; [exact Hp|].
  rewrite join_cons, !contains_app, Hp, Hs, IH. reflexivity.
Qed.

(** [split] undoes [join] on lines without the separator. *)
Lemma split_join sep ls :
  ls <> [] -> Forall (fun l => contains sep l = false) ls ->
  split sep (join [sep] ls) = ls.
Proof.
  intros N H. induction H as [|l ls Hl H IH]; [contradiction|].
  destruct ls as [|l2 ls]; [now apply split_none|].
  rewrite join_cons. change ([sep] ++ ?x) with (sep :: x).
  rewrite split_app by exact Hl. rewrite IH by discriminate. reflexivity.
Qed.

(** *** [split()] on texts joined by one blank *)

Lemma split_ws_blank rest : split_ws (" "%char :: rest) = split_ws rest.
Proof. reflexivity. Qed.

Lemma split_ws_cons2 c c' s :
  isspace c = false -> isspace c' = false ->
  split_ws (c :: c' :: s)
  = match split_ws (c' :: s) with
    | w :: ws => (c :: w) :: ws
    | [] => [[c]]
    end.
Proof.
  intros H H'. 
  change (split_ws (c :: c' :: s))
    with (if isspace c then split_ws (c' :: s)
          else if isspace c' then [c] :: split_ws (c' :: s)
               else match split_ws (c' :: s) with
                    | w :: ws => (c :: w) :: ws
                    | [] => [[c]]
                    end).
  now rewrite H, H'.
Qed.

Lemma split_ws_cons_blank c rest :
  isspace c = false -> split_ws (c :: " "%char :: rest) = [c] :: split_ws rest.
Proof. intros H. simpl. now rewrite H. Qed.

Lemma split_ws_one c : isspace c = false -> split_ws [c] = [[c]].
Proof. intros H. simpl. now rewrite H. Qed.

Lemma split_ws_token t rest :
  no_space t -> split_ws (t ++ " "%char :: rest) = t :: split_ws rest.
Proof.
  intros [N H]. induction t as [|c t IH]; [contradiction|].
  simpl in H. apply andb_true_iff in H as [Hc Ht]. apply negb_true_iff in Hc.
  destruct t as [|c' t].
  - now apply split_ws_cons_blank.
  - pose proof Ht as Ht'. simpl in Ht'. apply andb_true_iff in Ht' as [Hc' _].
    apply negb_true_iff in Hc'.
    assert (E := IH ltac:(discriminate) Ht).
    change ((c :: c' :: t) ++ " "%char :: rest)
      with (c :: c' :: (t ++ " "%char :: rest)).
    rewrite split_ws_cons2 by assumption.
    change (c' :: t ++ " "%char :: rest) with ((c' :: t) ++ " "%char :: rest).
    now rewrite E.
Qed.

Lemma split_ws_single t : no_space t -> split_ws t = [t].
Proof.
  intros [N H]. induction t as [|c t IH]; [contradiction|].
  simpl in H. apply andb_true_iff in H as [Hc Ht]. apply negb_true_iff in Hc.
  destruct t as [|c' t].
  - now apply split_ws_one.
  - pose proof Ht as Ht'. simpl in Ht'. apply andb_true_iff in Ht' as [Hc' _].
    apply negb_true_iff in Hc'.
    assert (E := IH ltac:(discriminate) Ht).
    rewrite split_ws_cons2 by assumption. now rewrite E.
Qed.

Lemma split_ws_join ts :
  Forall no_space ts -> split_ws (join [" "%char] ts) = ts.
Proof.
  intros H. induction H as [|t ts Ht H IH]; [reflexivity|].
  destruct ts as [|t2 ts]; [now apply split_ws_single|].
  rewrite join_cons. change ([" "%char] ++ ?x) with (" "%char :: x).
  rewrite split_ws_token by exact Ht. now rewrite IH.
Qed.

End JoinFacts.

Module SpaceFacts.
Import Str Num Re Obj Mesa Shape StrFacts ReFacts NumFacts ComplexFacts Round3Facts FormatFacts TokenFacts ScalarFacts JoinFacts.
Import Forms.

(** A blank is never part of the digits [digitpart] reads. *)
Lemma digitpart_blank n : forall s,
  (length s <= n)%nat -> In blank s -> In blank (snd (digitpart s)).
Proof.
  induction n as [|n IH]; intros s L H.
  - destruct s; [destruct H|simpl in L; lia].
  - destruct s as [|c s]; [destruct H|]. simpl in L.
    simpl digitpart. destruct (isdigit c) eqn:Hc; [|exact H].
    assert (Hs : In blank s).
    { destruct H as [->|H]; [discriminate Hc|exact H]. }
    destruct s as [|u [|c2 t]].
    + destruct Hs.
    + specialize (IH [u] ltac:(simpl in *; lia) Hs).
      destruct (digitpart [u]). exact IH.
    + destruct (Ascii.eqb u "_" && isdigit c2) eqn:E.
      * apply andb_true_iff in E as [Eu _]. apply Ascii.eqb_eq in Eu. subst u.
        assert (Hs' : In blank (c2 :: t)).
        { destruct Hs as [Hs|Hs]; [discriminate|exact Hs]. }
        specialize (IH (c2 :: t) ltac:(simpl in *; lia) Hs').
        destruct (digitpart (c2 :: t)). exact IH.
      * specialize (IH (u :: c2 :: t) ltac:(simpl in *; lia) Hs).
        destruct (digitpart (u :: c2 :: t)). exact IH.
Qed.

Lemma digitpart_blank_rest s ds r :
  digitpart s = (ds, r) -> In blank s -> r <> [].
Proof.
  intros E H. pose proof (digitpart_blank (length s) s (le_n _) H) as B.
  rewrite E in B. simpl in B. destruct r; [destruct B|discriminate].
Qed.

Lemma split_sign_blank c s :
  In blank s -> In blank (snd (split_sign (c :: s))).
Proof.
  intros H. unfold split_sign.
  destruct (Ascii.eqb c "-"); [exact H|].
  destruct (Ascii.eqb c "+"); [exact H|]. now right.
Qed.

(** [int()] refuses a text with a blank inside. *)
Lemma int_none_blank c s :
  strip_by numspace (c :: s) = c :: s -> In blank s -> Num.int (c :: s) = None.
Proof.
  intros E H. unfold Num.int. rewrite E.
  pose proof (split_sign_blank c s H) as B.
  destruct (split_sign (c :: s)) as [neg r]. simpl in B.
  destruct (digitpart r) as [ds r'] eqn:D.
  pose proof (digitpart_blank_rest r ds r' D B).
  destruct ds; [reflexivity|]. destruct r'; [contradiction|reflexivity].
Qed.

Lemma eqb_lower_blank r (w : string) :
  In blank r -> ~ In blank (lit w) -> Str.eqb (map lower r) (lit w) = false.
Proof.
  intros H N. apply eqb_neq. intros E. apply N. rewrite <- E.
  change blank with (lower blank). now apply in_map.
Qed.

Lemma float_number_blank neg r : In blank r -> float_number neg r = None.
Proof.
  intros H. unfold float_number.
  destruct (digitpart r) as [ip r1] eqn:D1.
  pose proof (digitpart_blank (length r) r (le_n _) H) as B1.
  rewrite D1 in B1. simpl in B1.
  destruct r1 as [|c r1']; [destruct B1|].
  assert (B2 : forall fp r2,
             (if Ascii.eqb c "." then digitpart r1' else ([], c :: r1')) = (fp, r2) ->
             In blank r2).
  { intros fp r2 E. destruct (Ascii.eqb c ".") eqn:Ec.
    - apply Ascii.eqb_eq in Ec. subst c.
      destruct B1 as [B1|B1]; [discriminate|].
      pose proof (digitpart_blank (length r1') r1' (le_n _) B1) as B.
      now rewrite E in B.
    - inversion E; subst. exact B1. }
  match goal with
  | |- context [let (_, _) := ?X in _] =>
      destruct X as [fp r2] eqn:Eq
  end.
  specialize (B2 fp r2 Eq).
  destruct (ip ++ fp); [reflexivity|].
  destruct r2 as [|c2 r3]; [destruct B2|].
  destruct (Ascii.eqb c2 "e" || Ascii.eqb c2 "E") eqn:Ee; [|reflexivity].
  assert (B3 : In blank r3).
  { destruct B2 as [->|B2]; [discriminate Ee|exact B2]. }
  destruct r3 as [|c3 r3']; [destruct B3|].
  assert (B4 : In blank (snd (split_sign (c3 :: r3')))).
  { unfold split_sign.
    destruct (Ascii.eqb c3 "-") eqn:E1.
    - apply Ascii.eqb_eq in E1. subst. destruct B3 as [B3|B3]; [discriminate|exact B3].
    - destruct (Ascii.eqb c3 "+") eqn:E2; [|exact B3].
      apply Ascii.eqb_eq in E2. subst. destruct B3 as [B3|B3]; [discriminate|exact B3]. }
  destruct (split_sign (c3 :: r3')) as [eneg r4]. simpl in B4.
  destruct (digitpart r4) as [es r5] eqn:D5.
  pose proof (digitpart_blank_rest r4 es r5 D5 B4).
  destruct es; [reflexivity|]. destruct r5; [contradiction|reflexivity].
Qed.

(** [float()] refuses a text with a blank inside. *)
Lemma float_none_blank c s :
  strip_by numspace (c :: s) = c :: s -> In blank s -> Num.float (c :: s) = None.
Proof.
  intros E H. unfold Num.float. rewrite E.
  pose proof (split_sign_blank c s H) as B.
  destruct (split_sign (c :: s)) as [neg r]. simpl in B.
  rewrite !eqb_lower_blank; try assumption.
  - simpl. now apply float_number_blank.
  - vm_compute. intuition discriminate.
  - vm_compute. intuition discriminate.
  - vm_compute. intuition discriminate.
Qed.

End SpaceFacts.

Module ListValueFacts.
Import Str Num Re Obj Mesa Shape StrFacts ReFacts NumFacts ComplexFacts Round3Facts FormatFacts TokenFacts ScalarFacts JoinFacts SpaceFacts.
Import Forms.

(** *** A list of numbers on one line *)

Lemma num_tok_last t : num_tok t -> exists m c, t = m ++ [c] /\ tok_char c = true.
Proof.
  intros [N H]. destruct (last_case t) as [->|[m [c ->]]]; [contradiction|].
  exists m, c. split; [reflexivity|].
  rewrite forallb_app in H. apply andb_true_iff in H as [_ H].
  simpl in H. now rewrite andb_true_r in H.
Qed.

Lemma num_tok_head t : num_tok t -> exists c m, t = c :: m /\ tok_char c = true.
Proof.
  intros [N H]. destruct t as [|c m]; [contradiction|].
  exists c, m. split; [reflexivity|].
  simpl in H. now apply andb_true_iff in H as [H _].
Qed.

Lemma join_last ts :
  ts <> [] -> Forall num_tok ts ->
  exists m c, join [blank] ts = m ++ [c] /\ tok_char c = true.
Proof.
  intros N H. induction H as [|t ts Ht H IH]; [contradiction|].
  destruct ts as [|t2 ts]; [now apply num_tok_last|].
  destruct (IH ltac:(discriminate)) as (m & c & E & Hc).
  exists (t ++ blank :: m), c. split; [|exact Hc].
  rewrite join_cons, E. now rewrite <- !app_assoc.
Qed.

(** Two or more texts of numbers joined by blanks: a character of a number
    at each end and a blank inside. *)
Lemma join_ends ts :
  Forall num_tok ts -> (2 <= length ts)%nat ->
  exists c m c', join [blank] ts = c :: m ++ [c']
                 /\ tok_char c = true /\ tok_char c' = true /\ In blank m.
Proof.
  intros H L. destruct ts as [|t [|t2 ts]]; try (simpl in L; lia).
  inversion H as [|? ? Ht H']; subst.
  destruct (num_tok_head t Ht) as (c & t' & -> & Hc).
  destruct (join_last (t2 :: ts) ltac:(discriminate) H') as (m & c' & E & Hc').
  exists c, (t' ++ blank :: m), c'. rewrite join_cons, E.
  split; [|split; [exact Hc|split; [exact Hc'|]]].
  - simpl. now rewrite <- !app_assoc.
  - apply in_or_app. right. now left.
Qed.

Lemma tok_char_d_to_E c :
  tok_char c = true -> numspace (d_to_E c) = false.
Proof.
  destruct c as [[] [] [] [] [] [] [] []]; vm_compute; congruence.
Qed.

(** A text with a blank inside, and no parenthesis or quote in front, is
    no single value. *)
Lemma parse_value_blank c m c' :
  tok_char c = true -> tok_char c' = true -> In blank m ->
  _parse_value (c :: m ++ [c'])
  = Raise (NoSingleValueFoundException (c :: m ++ [c'])).
Proof.
  intros Hc Hc' Hb.
  destruct (tok_char_plain c Hc) as (_ & Hs & Hq & Hdq & _ & _ & _ & Hp & _).
  destruct (tok_char_plain c' Hc') as (_ & Hs' & _).
  assert (Hin : In blank (m ++ [c'])) by (apply in_or_app; now left).
  unfold _parse_value.
  rewrite int_none_blank; [|now apply strip_by_id|exact Hin].
  assert (E : replace "d" "E" (c :: m ++ [c'])
              = d_to_E c :: replace "d" "E" m ++ [d_to_E c']).
  { unfold replace. simpl. now rewrite map_app. }
  rewrite E, float_none_blank.
  - rewrite complex_none_head by exact Hp.
    assert (B : forall w : string, ~ In blank (lit w) ->
                                   Str.eqb (c :: m ++ [c']) (lit w) = false).
    { intros w N. apply eqb_neq. intros F. apply N. rewrite <- F. now right. }
    rewrite !B by (vm_compute; intuition discriminate).
    unfold quoted_by. cbn [startswith]. rewrite Hq, Hdq. reflexivity.
  - apply strip_by_id; now apply tok_char_d_to_E.
  - apply in_or_app. left. change blank with (d_to_E blank).
    unfold replace. apply (in_map d_to_E). exact Hb.
Qed.

Lemma num_tok_contains a t :
  (forall c, tok_char c = true -> Ascii.eqb c a = false) ->
  num_tok t -> contains a t = false.
Proof. intros Ha [_ H]. eapply forallb_contains; eauto. Qed.

Lemma contains_join_tokens a ts :
  Ascii.eqb a blank = false ->
  (forall c, tok_char c = true -> Ascii.eqb c a = false) ->
  Forall num_tok ts -> contains a (join [blank] ts) = false.
Proof.
  intros Hb Ha H. apply contains_join.
  - simpl. now rewrite Hb.
  - eapply Forall_impl; [|exact H]. intros t. now apply num_tok_contains.
Qed.

Lemma contains_false_replace a b s : contains a s = false -> replace a b s = s.
Proof.
  intros H. apply replace_id.
  induction s as [|c s IH]; [reflexivity|].
  simpl in *. apply orb_false_iff in H as [H1 H2].
  rewrite Ascii.eqb_sym, H1. simpl. now apply IH.
Qed.

Lemma num_tok_no_space t : num_tok t -> no_space t.
Proof.
  intros [N H]. split; [exact N|].
  rewrite forallb_forall in *. intros c Hc.
  now destruct (tok_char_plain c (H c Hc)) as (-> & _).
Qed.

(** The entries of a line of numbers are the numbers. *)
Lemma inline_entries_numbers ts :
  Forall num_tok ts -> inline_entries (join [blank] ts) = ts.
Proof.
  intros H. unfold inline_entries.
  assert (Q : contains quote (join [blank] ts) = false).
  { apply contains_join_tokens; [reflexivity| |exact H].
    intros c Hc. now destruct (tok_char_plain c Hc) as (_ & _ & ? & _). }
  assert (P : contains "(" (join [blank] ts) = false).
  { apply contains_join_tokens; [reflexivity| |exact H].
    intros c Hc. now destruct (tok_char_plain c Hc) as (_ & _ & _ & _ & _ & _ & _ & ? & _). }
  assert (C : contains "," (join [blank] ts) = false).
  { apply contains_join_tokens; [reflexivity| |exact H].
    intros c Hc. now destruct (tok_char_plain c Hc) as (_ & _ & _ & _ & _ & _ & _ & _ & ? & _). }
  rewrite (count_zero _ _ Q), (count_zero _ _ P). cbn [Nat.eqb orb negb].
  rewrite contains_false_replace by exact C.
  apply split_ws_join. eapply Forall_impl; [|exact H].
  apply num_tok_no_space.
Qed.

(** *** A list of texts on one line *)

Lemma isword_not_space c : isword c = true -> isspace c = false.
Proof.
  destruct c as [[] [] [] [] [] [] [] []]; vm_compute; congruence.
Qed.

Lemma lstrip_by_split p s :
  exists ws, s = ws ++ lstrip_by p s /\ forallb p ws = true.
Proof.
  induction s as [|c s IH]; [exists []; now split|].
  simpl. destruct (p c) eqn:E.
  - destruct IH as (ws & E' & H). exists (c :: ws). split.
    + simpl. now rewrite <- E'.
    + simpl. now rewrite E, H.
  - exists []. now split.
Qed.

Lemma contains_false_except a s :
  contains a s = false -> forallb (except a) s = true.
Proof.
  induction s as [|c s IH]; [reflexivity|].
  simpl. intros H. apply orb_false_iff in H as [H1 H2].
  unfold except at 1. rewrite Ascii.eqb_sym, H1. simpl. now apply IH.
Qed.

(** The pattern of quoted texts matches a quoted text that starts, after
    its blanks, with a word character. *)
Lemma string_match bos s rest :
  list_text_ok s = true ->
  match_at string_re bos (quoted s ++ rest) = Some (quoted s, []).
Proof.
  unfold list_text_ok. intros H. apply andb_true_iff in H as [Ht Hw].
  destruct (text_ok_contains s Ht) as (Hq & _).
  destruct (lstrip_by_split isspace s) as (ws & E & Hws).
  destruct (lstrip_by isspace s) as [|w tl]; [discriminate|].
  assert (Htl : contains quote tl = false).
  { rewrite E in Hq. rewrite contains_app in Hq.
    apply orb_false_iff in Hq as [_ Hq]. simpl in Hq.
    now apply orb_false_iff in Hq as [_ Hq]. }
  unfold match_at, string_re, quoted. rewrite E.
  replace ((quote :: (ws ++ w :: tl) ++ [quote]) ++ rest)
    with (quote :: ws ++ w :: tl ++ quote :: rest)
    by (cbn [app]; repeat (rewrite <- app_assoc; cbn [app]); reflexivity).
  rewrite run_chr_cons. unfold only at 1. rewrite Ascii.eqb_refl.
  cbv iota. rewrite run_star.
  rewrite (star_longest _ _ _ ws (w :: tl ++ quote :: rest)
             (quote :: (ws ++ w :: tl) ++ [quote], [])).
  - reflexivity.
  - exact Hws.
  - simpl. now apply isword_not_space.
  - rewrite run_chr_cons, Hw, run_star.
    rewrite (star_longest _ _ _ tl (quote :: rest)
               (quote :: (ws ++ w :: tl) ++ [quote], [])).
    + reflexivity.
    + now apply contains_false_except.
    + simpl. unfold except. now rewrite Ascii.eqb_refl.
    + rewrite run_chr_cons. unfold only at 1. rewrite Ascii.eqb_refl.
      cbn [run]. f_equal. f_equal.
      simpl. rewrite !rev_app_distr. simpl. rewrite !rev_app_distr. simpl.
      rewrite !rev_involutive. rewrite <- !app_assoc. reflexivity.
Qed.

Lemma scan_texts ss : forall bos,
  forallb list_text_ok ss = true ->
  scan string_re bos 0 (join [blank] (map quoted ss))
  = map (fun s => (quoted s, [])) ss.
Proof.
  induction ss as [|s ss IH]; intros bos H; [reflexivity|].
  simpl in H. apply andb_true_iff in H as [Hs H].
  destruct ss as [|s2 ss].
  - simpl map. simpl join. rewrite <- (app_nil_r (quoted s)) at 1.
    rewrite (scan_hit _ _ _ []); [reflexivity|discriminate|].
    now apply string_match.
  - change (map quoted (s :: s2 :: ss)) with (quoted s :: quoted s2 :: map quoted ss).
    rewrite join_cons. rewrite (scan_hit _ _ _ []); [|discriminate|now apply string_match].
    change ([blank] ++ ?x) with (blank :: x). rewrite scan_miss by reflexivity.
    change (quoted s2 :: map quoted ss) with (map quoted (s2 :: ss)).
    rewrite IH by exact H. reflexivity.
Qed.

Lemma strip_quoted s : strip (quoted s) = quoted s.
Proof. apply strip_by_id; reflexivity. Qed.

Lemma count_join_quoted ss :
  forallb list_text_ok ss = true ->
  count quote (join [blank] (map quoted ss)) = (2 * length ss)%nat.
Proof.
  induction ss as [|s ss IH]; intros H; [reflexivity|].
  simpl in H. apply andb_true_iff in H as [Hs H].
  assert (Q : count quote (quoted s) = 2%nat).
  { apply count_quoted. unfold list_text_ok in Hs.
    apply andb_true_iff in Hs as [Hs _]. now destruct (text_ok_contains s Hs). }
  destruct ss as [|s2 ss]; [exact Q|].
  change (map quoted (s :: s2 :: ss)) with (quoted s :: map quoted (s2 :: ss)).
  change (map quoted (s2 :: ss)) with (quoted s2 :: map quoted ss) at 1.
  rewrite join_cons, !count_app, Q.
  change (quoted s2 :: map quoted ss) with (map quoted (s2 :: ss)).
  rewrite IH by exact H. simpl. lia.
Qed.

(** The entries of a line of two or more quoted texts are the texts. *)
Lemma inline_entries_texts ss :
  forallb list_text_ok ss = true -> (2 <= length ss)%nat ->
  inline_entries (join [blank] (map quoted ss)) = map quoted ss.
Proof.
  intros H L. unfold inline_entries. rewrite count_join_quoted by exact H.
  destruct (length ss) as [|[|n]] eqn:E; try lia.
  replace (2 * S (S n))%nat with (S (S (S (S (2 * n))))) by lia.
  cbn [Nat.eqb orb]. unfold Re.findall. rewrite scan_texts by exact H.
  rewrite map_map. apply map_ext. intros s. simpl. apply strip_quoted.
Qed.

(** Two or more quoted texts on one line are no single value. *)
Lemma parse_value_texts ss :
  forallb list_text_ok ss = true -> (2 <= length ss)%nat ->
  _parse_value (join [blank] (map quoted ss))
  = Raise (NoSingleValueFoundException (join [blank] (map quoted ss))).
Proof.
  intros H L. destruct ss as [|s ss]; [simpl in L; lia|].
  assert (E : exists t, join [blank] (map quoted (s :: ss)) = quote :: t).
  { simpl map. unfold quoted at 1. rewrite join_head. eauto. }
  destruct E as [t E].
  pose proof (count_join_quoted (s :: ss) H) as C. rewrite E in *.
  rewrite parse_value_quote_head. unfold quoted_by. rewrite C.
  simpl length in *. destruct (length ss) as [|n]; [lia|].
  replace (2 * S (S n))%nat with (S (S (S (S (2 * n))))) by lia.
  cbn [Nat.eqb]. now rewrite andb_false_r.
Qed.

End ListValueFacts.

Module AssignFacts.
Import Str Num Re Obj Mesa Shape StrFacts DictFacts ListFacts.
Import Forms.

Section Generic.
Context {K V : Type} (keqb : K -> K -> bool).

Lemma set_new k v (d : list (K * V)) :
  Dict.get keqb k d = None -> Dict.set keqb k v d = d ++ [(k, v)].
Proof.
  induction d as [|[k' v'] d IH]; simpl; [reflexivity|].
  destruct (keqb k k'); [discriminate|]. intros H. now rewrite IH.
Qed.

Lemma get_app_none k (d1 d2 : list (K * V)) :
  Dict.get keqb k d1 = None -> Dict.get keqb k (d1 ++ d2) = Dict.get keqb k d2.
Proof.
  induction d1 as [|[k' v'] d IH]; simpl; [reflexivity|].
  destruct (keqb k k'); [discriminate|]. exact IH.
Qed.

Lemma set_app_last k v v' (d : list (K * V)) :
  Dict.get keqb k d = None -> keqb k k = true ->
  Dict.set keqb k v (d ++ [(k, v')]) = d ++ [(k, v)].
Proof.
  intros H R. induction d as [|[k0 v0] d IH]; simpl.
  - now rewrite R.
  - simpl in H. destruct (keqb k k0); [discriminate|]. now rewrite IH.
Qed.

End Generic.

Lemma omem_get_none {V} k (g : odict V) : omem k g = false -> oget k g = None.
Proof. unfold omem, oget, Dict.mem. now destruct (Dict.get Str.eqb k g). Qed.

Lemma oset_app_last {V} k (x y : V) (g : odict V) :
  omem k g = false -> oset k y (g ++ [(k, x)]) = g ++ [(k, y)].
Proof.
  intros H. apply set_app_last; [now apply omem_get_none|apply eqb_refl].
Qed.

Lemma omem_app_last {V} k (x : V) (g : odict V) : omem k (g ++ [(k, x)]) = true.
Proof.
  unfold omem, Dict.mem. induction g as [|[k' v'] g IH]; simpl.
  - now rewrite eqb_refl.
  - destruct (Str.eqb k k'); [reflexivity|exact IH].
Qed.

Lemma assign_plain g name v :
  omem name g = false -> assign g name None v = Ok (g ++ [(name, v)]).
Proof. intros H. simpl. now rewrite oset_keys_new. Qed.

Lemma assign_first g name i v :
  omem name g = false ->
  assign g name (Some i) v = Ok (g ++ [(name, PyDict [flag; (KInt i, v)])]).
Proof.
  intros H. unfold assign. rewrite H.
  rewrite (oset_keys_new name _ g H).
  rewrite omem_app_new by exact H.
  cbn [setitem bind]. rewrite oset_app_last by exact H. reflexivity.
Qed.

Lemma assign_next g name d i v :
  omem name g = false -> dget (KInt i) d = None ->
  assign (g ++ [(name, PyDict d)]) name (Some i) v
  = Ok (g ++ [(name, PyDict (d ++ [(KInt i, v)]))]).
Proof.
  intros H Hd. unfold assign. rewrite omem_app_last.
  rewrite omem_app_new by exact H.
  cbn [setitem bind]. unfold dset. rewrite set_new by exact Hd.
  rewrite oset_app_last by exact H. reflexivity.
Qed.

Lemma dget_int_app i j d v :
  dget (KInt i) d = None -> i <> j ->
  dget (KInt i) (d ++ [(KInt j, v)]) = None.
Proof.
  intros H N. unfold dget in *. rewrite get_app_none by exact H.
  simpl. destruct (Z.eqb_spec i j); [contradiction|reflexivity].
Qed.

(** The loop over the entries of an inline list, once the dictionary of the
    list exists. *)
Lemma assign_entries_next g name : forall ts vs n d,
  omem name g = false ->
  Forall2 (fun t v => _parse_value t = Ok v) ts vs ->
  (forall j, (n <= j)%nat -> dget (KInt (Z.of_nat j)) d = None) ->
  assign_entries (g ++ [(name, PyDict d)]) name n ts
  = Ok (g ++ [(name, PyDict (d ++ index_items (enum_from n vs)))]).
Proof.
  intros ts vs n d H F. revert n d.
  induction F as [|t v ts vs Ht F IH]; intros n d Hd.
  - simpl. now rewrite app_nil_r.
  - cbn [assign_entries]. rewrite Ht. cbn [bind].
    rewrite assign_next; [|exact H|apply Hd; lia]. cbn [bind].
    rewrite IH.
    + simpl. now rewrite <- app_assoc.
    + intros j Hj. apply dget_int_app; [apply Hd; lia|lia].
Qed.

Lemma assign_entries_all g name ts vs :
  omem name g = false -> ts <> [] ->
  Forall2 (fun t v => _parse_value t = Ok v) ts vs ->
  assign_entries g name 0 ts = Ok (g ++ [(name, is_list_dict (enum_from 0 vs))]).
Proof.
  intros H N F. destruct F as [|t v ts vs Ht F]; [contradiction|].
  cbn [assign_entries]. rewrite Ht. cbn [bind].
  rewrite assign_first by exact H. cbn [bind].
  rewrite (assign_entries_next g name ts vs 1 _ H F).
  - reflexivity.
  - intros j Hj. unfold dget. simpl.
    destruct (Z.eqb_spec (Z.of_nat j) 0); [lia|reflexivity].
Qed.

Lemma enum_from_fst vs : forall n,
  map fst (enum_from n vs) = map Z.of_nat (seq n (length vs)).
Proof. induction vs as [|v vs IH]; intros n; simpl; [reflexivity|]. now rewrite IH. Qed.

Lemma enum_from_nth vs : forall n j v,
  nth_error vs j = Some v -> In (Z.of_nat (n + j), v) (enum_from n vs).
Proof.
  induction vs as [|x vs IH]; intros n j v H; [destruct j; discriminate|].
  destruct j as [|j]; simpl in *.
  - inversion H; subst. left. f_equal. lia.
  - right. replace (n + S j)%nat with (S n + j)%nat by lia. now apply IH.
Qed.

Lemma enum_from_length vs n : length (enum_from n vs) = length vs.
Proof. revert n. induction vs; intros n; simpl; [reflexivity|]. now rewrite IHvs. Qed.

Lemma NoDup_seqZ k : forall n, NoDup (map Z.of_nat (seq n k)).
Proof.
  induction k as [|k IH]; intros n; simpl; constructor; [|apply IH].
  intros H. apply in_map_iff in H as (x & E & Hx).
  apply in_seq in Hx. lia.
Qed.

(** The dictionary of an inline list becomes the list. *)
Lemma check_value_enum vs :
  check_value (is_list_dict (enum_from 0 vs)) = Ok (PyList vs).
Proof.
  destruct (check_value_dense (enum_from 0 vs)) as (l & E & L & Hn).
  - rewrite enum_from_fst. apply NoDup_seqZ.
  - intros i Hi. rewrite enum_from_fst in Hi. apply in_map_iff in Hi as (j & <- & Hj).
    apply in_seq in Hj. rewrite enum_from_length. lia.
  - rewrite E. do 2 f_equal. rewrite enum_from_length in L.
    apply nth_error_ext. intros j.
    destruct (nth_error vs j) as [v|] eqn:Ev.
    + specialize (Hn (Z.of_nat j) v (enum_from_nth vs 0 j v Ev)).
      now rewrite Nat2Z.id in Hn.
    + apply nth_error_None. apply nth_error_None in Ev. lia.
Qed.

Lemma check_value_scalar v :
  match v with PyDict _ => False | _ => True end -> check_value v = Ok v.
Proof. destruct v; simpl; tauto. Qed.

End AssignFacts.
Module LineFacts.
Import Str Num Re Obj Mesa Shape StrFacts DictFacts ReFacts NumFacts ComplexFacts ListFacts.
Import TokenFacts ScalarFacts JoinFacts SpaceFacts ListValueFacts AssignFacts.
Import Forms.

(** *** The split of a line at its [=] *)

Lemma split_at_equals a b :
  contains "=" a = false -> contains "=" b = false ->
  split "=" (a ++ "="%char :: b) = [a; b].
Proof. intros Ha Hb. rewrite split_app by exact Ha. now rewrite split_none. Qed.

Lemma endswith_comma_app n v :
  endswith v [","%char] = false -> endswith (n ++ "="%char :: v) [","%char] = false.
Proof.
  intros Hc. destruct v as [|x v'].
  - apply (endswith_one_last n "="%char ","%char).
  - change (n ++ "="%char :: x :: v') with (n ++ ["="%char] ++ (x :: v')).
    rewrite app_assoc, endswith_one_app by discriminate. exact Hc.
Qed.

Lemma name_value_plain n v :
  contains "=" n = false -> contains "=" v = false ->
  contains "!" n = false -> contains "!" v = false ->
  endswith v [","%char] = false ->
  name_value (n ++ "="%char :: v) = Ok (n, v).
Proof.
  intros En Ev Bn Bv Hc. unfold name_value, cleaned; lits.
  assert (Hbang : contains "!" (n ++ "="%char :: v) = false).
  { rewrite contains_app, contains_cons, Bn, Bv. reflexivity. }
  rewrite endswith_comma_app by exact Hc.
  rewrite Hbang. now rewrite split_at_equals.
Qed.

Lemma name_value_comma n v :
  contains "=" n = false -> contains "=" v = false ->
  contains "!" n = false -> contains "!" v = false ->
  name_value (n ++ "="%char :: v ++ [","%char]) = Ok (n, v).
Proof.
  intros En Ev Bn Bv. unfold name_value, cleaned; lits.
  assert (Hbang : contains "!" (n ++ "="%char :: v) = false).
  { rewrite contains_app, contains_cons, Bn, Bv. reflexivity. }
  replace (n ++ "="%char :: v ++ [","%char]) with ((n ++ "="%char :: v) ++ [","%char])
    by (now rewrite <- app_assoc).
  rewrite endswith_last, slice_m1_last, Hbang.
  now rewrite split_at_equals.
Qed.

Lemma name_value_comment n v c :
  contains "=" n = false -> contains "=" v = false ->
  contains "!" n = false -> contains "!" v = false ->
  name_value (n ++ "="%char :: v ++ "!"%char :: c)
  = Ok (lstrip_by isspace n, rstrip_by isspace v).
Proof.
  intros En Ev Bn Bv. unfold name_value, cleaned; lits.
  assert (Hbang : contains "!" (n ++ "="%char :: v) = false).
  { rewrite contains_app, contains_cons, Bn, Bv. reflexivity. }
  set (line := n ++ "="%char :: v ++ "!"%char :: c).
  assert (E : exists c', (if endswith line [","%char] then slice_m1 line else line)
                         = (n ++ "="%char :: v) ++ "!"%char :: c').
  { destruct (endswith line [","%char]) eqn:Hc.
    - destruct (last_case c) as [->|[c0 [x ->]]].
      + subst line.
        replace (n ++ "="%char :: v ++ ["!"%char])
          with ((n ++ "="%char :: v) ++ ["!"%char]) in Hc
          by (now rewrite <- app_assoc).
        rewrite endswith_one_last in Hc. discriminate.
      + exists c0. subst line. unfold slice_m1.
        replace (n ++ "="%char :: v ++ "!"%char :: c0 ++ [x])
          with ((n ++ "="%char :: v ++ "!"%char :: c0) ++ [x]).
        * rewrite removelast_last. now rewrite <- app_assoc.
        * rewrite <- !app_assoc. simpl. now rewrite <- app_assoc.
    - exists c. subst line. now rewrite <- app_assoc. }
  destruct E as [c' ->].
  rewrite contains_app, contains_cons. simpl (Ascii.eqb _ _).
  rewrite orb_true_r, split_app by exact Hbang. simpl hd.
  unfold strip. rewrite strip_by_around by reflexivity.
  rewrite split_at_equals.
  - reflexivity.
  - now apply lstrip_by_incl.
  - now apply rstrip_by_incl.
Qed.

(** The first loop keeps a line with one [=] as a line of its own. *)
Lemma assemble_keeps n v rest block_lines :
  contains "=" n = false -> contains "=" v = false -> contains "!" n = false ->
  assemble ((n ++ "="%char :: v) :: rest) block_lines
  = assemble rest (block_lines ++ [strip (n ++ "="%char :: v)]).
Proof.
  intros En Ev Bn. simpl assemble; lits.
  unfold strip. rewrite strip_by_around by reflexivity.
  pose proof (lstrip_by_incl isspace n "!"%char Bn) as Bn'.
  set (n' := lstrip_by isspace n) in *.
  assert (Hn : Str.eqb (n' ++ "="%char :: rstrip_by isspace v) [] = false)
    by (destruct n'; reflexivity).
  rewrite Hn.
  assert (Hb : startswith (n' ++ "="%char :: rstrip_by isspace v) ["!"%char] = false).
  { destruct n' as [|x n'']; [reflexivity|].
    rewrite contains_cons in Bn'. apply orb_false_iff in Bn' as [Bx _].
    cbn [app startswith]. rewrite Ascii.eqb_sym, Bx. reflexivity. }
  cbn [startswith] in Hb. rewrite Hb, split_at_equals.
  - reflexivity.
  - now apply lstrip_by_incl.
  - now apply rstrip_by_incl.
Qed.

(** *** The pattern of indexed names *)

Lemma scan_none pat s : forall bos,
  (forall b s1 s2, s = s1 ++ s2 -> match_at pat b s2 = None) ->
  scan pat bos 0 s = [].
Proof.
  induction s as [|c s IH]; intros bos H; [reflexivity|].
  rewrite scan_miss by (apply (H bos []); reflexivity).
  apply IH. intros b s1 s2 ->. apply (H b (c :: s1)). reflexivity.
Qed.

Lemma match_array_none bos s :
  contains "(" s = false -> match_at array_re bos s = None.
Proof.
  intros H. unfold match_at, array_re. rewrite run_open.
  destruct s as [|c s]; [reflexivity|].
  destruct (isword c) eqn:W; [|simpl; now rewrite W].
  rewrite run_plus_cons by exact W.
  apply star_none_suffix. intros acc' s1 s2 E.
  rewrite run_close. destruct s2 as [|c' s2]; [reflexivity|].
  rewrite run_chr_cons. unfold only.
  simpl in H. apply orb_false_iff in H as [_ H]. rewrite E in H.
  rewrite contains_app, contains_cons in H.
  apply orb_false_iff in H as [_ H]. apply orb_false_iff in H as [H _].
  rewrite Ascii.eqb_sym, H. reflexivity.
Qed.

Lemma findall_array_none k : contains "(" k = false -> Re.findall array_re k = [].
Proof.
  intros H. apply scan_none. intros b s1 s2 ->.
  apply match_array_none. rewrite contains_app in H.
  now apply orb_false_iff in H as [_ H].
Qed.

End LineFacts.
Module ValueLineFacts.
Import Str Num Re Obj Mesa Shape StrFacts DictFacts ReFacts NumFacts ComplexFacts ListFacts.
Import TokenFacts ScalarFacts JoinFacts SpaceFacts ListValueFacts AssignFacts LineFacts.
Import Forms.

Lemma vchar_plain c :
  vchar c = true ->
  Ascii.eqb c "=" = false /\ Ascii.eqb c "!" = false
  /\ Ascii.eqb c "&" = false /\ Ascii.eqb c nl = false.
Proof.
  destruct c as [[] [] [] [] [] [] [] []]; vm_compute; intuition congruence.
Qed.

Lemma edge_plain c :
  edge c = true -> isspace c = false /\ Ascii.eqb c "," = false.
Proof.
  unfold edge. intros H. apply negb_true_iff in H. now apply orb_false_iff in H.
Qed.

Lemma tok_char_vchar c : tok_char c = true -> vchar c = true /\ edge c = true.
Proof.
  destruct c as [[] [] [] [] [] [] [] []]; vm_compute; intuition congruence.
Qed.

Lemma text_char_vchar c : text_char c = true -> vchar c = true.
Proof.
  destruct c as [[] [] [] [] [] [] [] []]; vm_compute; intuition congruence.
Qed.

Lemma name_char_plain c :
  name_char c = true ->
  vchar c = true /\ isspace c = false /\ Ascii.eqb c "(" = false.
Proof.
  destruct c as [[] [] [] [] [] [] [] []]; vm_compute; intuition congruence.
Qed.

Lemma forallb_impl (p q : ascii -> bool) s :
  (forall c, p c = true -> q c = true) -> forallb p s = true -> forallb q s = true.
Proof.
  intros H. rewrite !forallb_forall. auto.
Qed.

Lemma forallb_join p sep ts :
  forallb p sep = true -> Forall (fun t => forallb p t = true) ts ->
  forallb p (join sep ts) = true.
Proof.
  intros Hs H. induction H as [|t ts Ht H IH]; [reflexivity|].
  destruct ts as [|t2 ts]; [exact Ht|].
  rewrite join_cons, !forallb_app, Ht, Hs. exact IH.
Qed.

Lemma vtext_contains V :
  vtext V ->
  contains "=" V = false /\ contains "!" V = false
  /\ contains "&" V = false /\ contains nl V = false.
Proof.
  intros [H _]. repeat split;
    (eapply forallb_contains; [|exact H]; intros c Hc;
     now destruct (vchar_plain c Hc) as (? & ? & ? & ?)).
Qed.

Lemma vtext_strip V : vtext V -> strip V = V.
Proof.
  intros (_ & (c & m & -> & Hc) & (m' & c' & E & Hc')).
  apply strip_ends.
  - now destruct (edge_plain c Hc).
  - rewrite E. apply head_ok_rev_last. now destruct (edge_plain c' Hc').
Qed.

Lemma vtext_no_comma V : vtext V -> endswith V [","%char] = false.
Proof.
  intros (_ & _ & (m & c & -> & Hc)). rewrite endswith_one_last.
  now destruct (edge_plain c Hc).
Qed.

Lemma num_tok_vtext t : num_tok t -> vtext t.
Proof.
  intros T. split; [|split].
  - destruct T as [_ H]. eapply forallb_impl; [|exact H].
    intros c Hc. now destruct (tok_char_vchar c Hc).
  - destruct (num_tok_head t T) as (c & m & -> & Hc).
    exists c, m. split; [reflexivity|]. now destruct (tok_char_vchar c Hc).
  - destruct (num_tok_last t T) as (m & c & -> & Hc).
    exists m, c. split; [reflexivity|]. now destruct (tok_char_vchar c Hc).
Qed.

Lemma quoted_vchar s : text_ok s = true -> forallb vchar (quoted s) = true.
Proof.
  intros H. unfold quoted. simpl. rewrite forallb_app. simpl.
  rewrite andb_true_r. eapply forallb_impl; [|exact H].
  apply text_char_vchar.
Qed.

Lemma quoted_vtext s : text_ok s = true -> vtext (quoted s).
Proof.
  intros H. split; [now apply quoted_vchar|]. split.
  - exists quote, (s ++ [quote]). now split.
  - exists (quote :: s), quote. now split.
Qed.

Lemma numbers_vtext ts :
  Forall num_tok ts -> (2 <= length ts)%nat -> vtext (join [blank] ts).
Proof.
  intros H L. split; [|split].
  - apply forallb_join; [reflexivity|].
    eapply Forall_impl; [|exact H]. intros t T. now apply num_tok_vtext.
  - destruct (join_ends ts H L) as (c & m & c' & -> & Hc & _).
    exists c, (m ++ [c']). split; [reflexivity|]. now destruct (tok_char_vchar c Hc).
  - destruct (join_ends ts H L) as (c & m & c' & -> & _ & Hc' & _).
    exists (c :: m), c'. split; [reflexivity|]. now destruct (tok_char_vchar c' Hc').
Qed.

Lemma join_last_quote ss :
  ss <> [] -> exists m, join [blank] (map quoted ss) = m ++ [quote].
Proof.
  intros N. induction ss as [|s ss IH]; [contradiction|].
  destruct ss as [|s2 ss].
  - exists (quote :: s). reflexivity.
  - destruct (IH ltac:(discriminate)) as (m & E).
    exists (quoted s ++ blank :: m).
    change (map quoted (s :: s2 :: ss)) with (quoted s :: map quoted (s2 :: ss)).
    change (map quoted (s2 :: ss)) with (quoted s2 :: map quoted ss) in *.
    rewrite join_cons, E. now rewrite <- !app_assoc.
Qed.

Lemma list_text_ok_text s : list_text_ok s = true -> text_ok s = true.
Proof. unfold list_text_ok. intros H. now apply andb_true_iff in H. Qed.

Lemma texts_vtext ss :
  forallb list_text_ok ss = true -> ss <> [] -> vtext (join [blank] (map quoted ss)).
Proof.
  intros H N. split; [|split].
  - apply forallb_join; [reflexivity|].
    apply Forall_forall. intros t Ht. apply in_map_iff in Ht as (s & <- & Hs).
    apply quoted_vchar, list_text_ok_text.
    rewrite forallb_forall in H. now apply H.
  - destruct ss as [|s ss]; [contradiction|].
    simpl map. unfold quoted at 1. rewrite join_head. eexists _, _. now split.
  - destruct (join_last_quote ss N) as (m & E). exists m, quote. now split.
Qed.

(** *** The line of a variable *)

Lemma var_name_facts n :
  var_name_ok n = true ->
  forallb vchar n = true /\ contains "(" n = false
  /\ (exists c m, n = c :: m /\ isspace c = false)
  /\ forallb (fun c => negb (isspace c)) n = true.
Proof.
  unfold var_name_ok. destruct n as [|c m]; [discriminate|]. intros H.
  split; [|split; [|split]].
  - eapply forallb_impl; [|exact H]. intros x Hx. now destruct (name_char_plain x Hx).
  - eapply forallb_contains; [|exact H]. intros x Hx.
    now destruct (name_char_plain x Hx) as (_ & _ & ?).
  - exists c, m. split; [reflexivity|]. simpl in H.
    apply andb_true_iff in H as [H _]. now destruct (name_char_plain c H) as (_ & ? & _).
  - eapply forallb_impl; [|exact H]. intros x Hx.
    destruct (name_char_plain x Hx) as (_ & -> & _). reflexivity.
Qed.

Lemma vchar_contains n :
  forallb vchar n = true ->
  contains "=" n = false /\ contains "!" n = false
  /\ contains "&" n = false /\ contains nl n = false.
Proof.
  intros H. repeat split;
    (eapply forallb_contains; [|exact H]; intros c Hc;
     now destruct (vchar_plain c Hc) as (? & ? & ? & ?)).
Qed.

Lemma line_split n V :
  line n V = (n ++ [blank]) ++ "="%char :: (blank :: V).
Proof. unfold line. lits. now rewrite <- app_assoc. Qed.

Lemma strip_no_space s :
  forallb (fun c => negb (isspace c)) s = true -> strip s = s.
Proof.
  intros H. apply strip_ends.
  - destruct s as [|c s]; [exact I|]. simpl in *.
    apply andb_true_iff in H as [H _]. now apply negb_true_iff in H.
  - assert (R : forallb (fun c => negb (isspace c)) (rev s) = true).
    { rewrite forallb_forall in *. intros c Hc. apply H. now apply in_rev. }
    destruct (rev s) as [|c r]; [exact I|]. simpl in *.
    apply andb_true_iff in R as [R _]. now apply negb_true_iff in R.
Qed.

Lemma strip_name_blank n :
  forallb (fun c => negb (isspace c)) n = true -> strip (n ++ [blank]) = n.
Proof.
  intros H. pose proof (strip_no_space n H) as E.
  destruct n as [|c m]; [reflexivity|].
  unfold strip, strip_by in *.
  assert (L : lstrip_by isspace ((c :: m) ++ [blank])
              = lstrip_by isspace (c :: m) ++ [blank]).
  { simpl in *. apply andb_true_iff in H as [Hc _]. apply negb_true_iff in Hc.
    now rewrite Hc. }
  rewrite L. unfold rstrip_by in *. rewrite rev_app_distr. simpl. exact E.
Qed.

Lemma strip_blank_front V : strip (blank :: V) = strip V.
Proof. reflexivity. Qed.

Section Line.
Variables (n V : str).
Hypothesis Hn : var_name_ok n = true.
Hypothesis HV : vtext V.

Lemma line_name_value : name_value (line n V) = Ok (n ++ [blank], blank :: V).
Proof.
  destruct (var_name_facts n Hn) as (Hv & _).
  destruct (vchar_contains n Hv) as (E1 & B1 & _).
  destruct (vtext_contains V HV) as (E2 & B2 & _).
  rewrite line_split. apply name_value_plain.
  - rewrite contains_app, E1. reflexivity.
  - rewrite contains_cons, E2. reflexivity.
  - rewrite contains_app, B1. reflexivity.
  - rewrite contains_cons, B2. reflexivity.
  - change (blank :: V) with ([blank] ++ V).
    destruct HV as (_ & (c & m & E & _) & _).
    rewrite endswith_one_app by (rewrite E; discriminate).
    now apply vtext_no_comma.
Qed.

Lemma line_name_and_index : name_and_index (n ++ [blank]) = Ok (n, None).
Proof.
  destruct (var_name_facts n Hn) as (_ & P & _ & S).
  unfold name_and_index. rewrite findall_array_none.
  - now rewrite strip_name_blank.
  - rewrite contains_app, P. reflexivity.
Qed.

(** What the second loop does with the line of a variable. *)
Lemma process_line_value g :
  process_line g (line n V)
  = match _parse_value V with
    | Ok parsed_value => assign g n None parsed_value
    | Raise (NoSingleValueFoundException _) =>
        assign_entries g n 0 (inline_entries V)
    | Raise e => Raise e
    end.
Proof.
  unfold process_line. rewrite line_name_value. cbn [bind].
  rewrite line_name_and_index. cbn [bind].
  rewrite strip_blank_front, vtext_strip by exact HV. reflexivity.
Qed.

Lemma line_strip : strip (lit "   " ++ line n V) = line n V.
Proof.
  destruct (var_name_facts n Hn) as (_ & _ & (c & m & E & Hc) & _).
  destruct HV as (_ & _ & (m' & c' & E' & Hc')).
  change (strip (lit "   " ++ line n V)) with (strip (line n V)).
  apply strip_ends.
  - unfold line. rewrite E. exact Hc.
  - unfold line. rewrite E', !app_assoc. apply head_ok_rev_last.
    now destruct (edge_plain c' Hc').
Qed.

Lemma line_contains :
  contains "&" (line n V) = false /\ contains nl (line n V) = false.
Proof.
  destruct (var_name_facts n Hn) as (Hv & _).
  destruct (vchar_contains n Hv) as (_ & _ & A1 & N1).
  destruct (vtext_contains V HV) as (_ & _ & A2 & N2).
  unfold line. rewrite !contains_app, A1, A2, N1, N2. split; reflexivity.
Qed.

End Line.

End ValueLineFacts.
Module VariableFacts.
Import Str Num Re Obj Mesa Shape StrFacts DictFacts ReFacts NumFacts ComplexFacts ListFacts.
Import TokenFacts ScalarFacts JoinFacts SpaceFacts ListValueFacts AssignFacts LineFacts ValueLineFacts.
Import Forms.

Lemma format_all_numbers vs :
  forallb number_like vs = true ->
  exists ts, format_all vs = Ok ts /\ Forall num_tok ts
             /\ Forall2 parses ts (map reread_scalar vs).
Proof.
  induction vs as [|v vs IH]; intros H.
  - exists []. repeat split; constructor.
  - simpl in H. apply andb_true_iff in H as [Hv H].
    destruct (number_token v Hv) as (t & Ft & Tt & Pt).
    destruct (IH H) as (ts & Fs & Ts & Ps).
    exists (t :: ts). cbn [format_all]. rewrite Ft. cbn [bind]. rewrite Fs.
    cbn [bind]. split; [reflexivity|]. split; constructor; assumption.
Qed.

Lemma texts_of vs :
  forallb is_list_text vs = true ->
  exists ss, vs = map PyStr ss /\ forallb list_text_ok ss = true.
Proof.
  induction vs as [|v vs IH]; intros H; [exists []; now split|].
  simpl in H. apply andb_true_iff in H as [Hv H].
  destruct (IH H) as (ss & -> & Hs).
  destruct v; try discriminate. exists (s :: ss). split; [reflexivity|].
  simpl in Hv. simpl. now rewrite Hv, Hs.
Qed.

Lemma format_all_texts ss : format_all (map PyStr ss) = Ok (map quoted ss).
Proof.
  induction ss as [|s ss IH]; [reflexivity|].
  simpl map. cbn [format_all format_value_to_fortran bind]. rewrite IH.
  reflexivity.
Qed.

Lemma parses_texts ss :
  forallb list_text_ok ss = true -> Forall2 parses (map quoted ss) (map PyStr ss).
Proof.
  induction ss as [|s ss IH]; intros H; [constructor|].
  simpl in H. apply andb_true_iff in H as [Hs H].
  simpl. constructor; [|now apply IH].
  apply text_token. now apply list_text_ok_text.
Qed.

Lemma Forall2_length_pos {A B} (R : A -> B -> Prop) l l' :
  Forall2 R l l' -> l' <> [] -> l <> [].
Proof. intros [|]; [contradiction|discriminate]. Qed.

(** The line [dump] writes for a variable, and what the second loop of the
    parser makes of it. *)
Lemma variable_line n v :
  var_name_ok n = true -> value_ok v = true ->
  exists V, dump_variable true n v = Ok [lit "   " ++ line n V]
            /\ vtext V
            /\ forall g, omem n g = false ->
                         process_line g (line n V) = Ok (g ++ [(n, held v)]).
Proof.
  intros Hn Hv.
  assert (Num : number_like v = true ->
    exists V, dump_variable true n v = Ok [lit "   " ++ line n V]
              /\ vtext V
              /\ forall g, omem n g = false ->
                           process_line g (line n V) = Ok (g ++ [(n, held v)])).
  { intros L. destruct (number_token v L) as (t & Ft & Tt & Pt).
    exists t. split; [|split].
    - destruct v; try discriminate; unfold dump_variable; rewrite Ft; reflexivity.
    - now apply num_tok_vtext.
    - intros g Hg. rewrite process_line_value by (assumption || now apply num_tok_vtext).
      rewrite Pt. rewrite assign_plain by exact Hg.
      destruct v; try discriminate; reflexivity. }
  destruct v; try discriminate; try (apply Num; reflexivity).
  - (* a Text *)
    simpl in Hv. exists (quoted s). split; [reflexivity|].
    split; [now apply quoted_vtext|].
    intros g Hg. rewrite process_line_value by (assumption || now apply quoted_vtext).
    rewrite text_token by exact Hv. now apply assign_plain.
  - (* a List *)
    cbn [value_ok] in Hv. apply andb_true_iff in Hv as [Hl Hk].
    apply Nat.leb_le in Hl.
    destruct (forallb number_like items) eqn:Hnum.
    + destruct (format_all_numbers items Hnum) as (ts & Fs & Ts & Ps).
      assert (Lt : (2 <= length ts)%nat).
      { apply Forall2_length in Ps. rewrite length_map in Ps. lia. }
      pose proof (numbers_vtext ts Ts Lt) as VT.
      exists (join [blank] ts). split; [|split; [exact VT|]].
      * unfold dump_variable. rewrite Fs. reflexivity.
      * intros g Hg. rewrite process_line_value by assumption.
        destruct (join_ends ts Ts Lt) as (c & m & c' & E & Hc & Hc' & Hb).
        rewrite E at 1. rewrite parse_value_blank by assumption.
        rewrite inline_entries_numbers by exact Ts.
        apply assign_entries_all; [exact Hg| |exact Ps].
        destruct ts; [simpl in Lt; lia|discriminate].
    + cbn [orb] in Hk. destruct (texts_of items Hk) as (ss & -> & Hs).
      rewrite length_map in Hl.
      assert (VT : vtext (join [blank] (map quoted ss))).
      { apply texts_vtext; [exact Hs|]. destruct ss; [simpl in Hl; lia|discriminate]. }
      exists (join [blank] (map quoted ss)). split; [|split; [exact VT|]].
      * unfold dump_variable. rewrite format_all_texts. reflexivity.
      * intros g Hg. rewrite process_line_value by assumption.
        rewrite parse_value_texts by assumption.
        rewrite inline_entries_texts by assumption.
        unfold held.
        replace (map reread_scalar (map PyStr ss)) with (map PyStr ss)
          by (rewrite map_map; reflexivity).
        apply assign_entries_all; [exact Hg| |now apply parses_texts].
        destruct ss; [simpl in Hl; lia|discriminate].
Qed.

(** [_check_lists] turns what the parser holds into the value read. *)
Lemma check_value_held v :
  value_ok v = true -> check_value (held v) = Ok (reread v).
Proof.
  destruct v; try discriminate; intros _; try reflexivity.
  unfold held, reread. apply check_value_enum.
Qed.

End VariableFacts.
Module GroupFacts.
Import Str Num Re Obj Mesa Shape StrFacts DictFacts ReFacts NumFacts ComplexFacts ListFacts.
Import TokenFacts ScalarFacts JoinFacts SpaceFacts ListValueFacts AssignFacts LineFacts.
Import ValueLineFacts VariableFacts.
Import Forms.

Lemma keys_app {V} (g h : odict V) : Dict.keys (g ++ h) = Dict.keys g ++ Dict.keys h.
Proof. apply map_app. Qed.

Lemma body_line_good n V :
  var_name_ok n = true -> vtext V -> good_line (lit "   " ++ line n V) (line n V).
Proof.
  intros Hn HV.
  destruct (line_contains n V Hn HV) as [A N].
  pose proof (line_strip n V Hn HV) as St.
  destruct (var_name_facts n Hn) as (Hv & _ & (c & m & E & Hc) & _).
  destruct (vchar_contains n Hv) as (E1 & B1 & _).
  destruct (vtext_contains V HV) as (E2 & B2 & _).
  split; [|split; [|split]].
  - rewrite contains_app, N. reflexivity.
  - rewrite contains_app, A. reflexivity.
  - rewrite St. unfold line. rewrite E. lits. cbn [app startswith].
    rewrite E in Hv. simpl in Hv. apply andb_true_iff in Hv as [Hv _].
    destruct (vchar_plain c Hv) as (_ & B & _). rewrite Ascii.eqb_sym in B.
    rewrite Ascii.eqb_sym. rewrite B. reflexivity.
  - intros rest bl. rewrite <- St at 2. rewrite line_split.
    rewrite app_assoc. apply assemble_keeps.
    + rewrite !contains_app, E1. reflexivity.
    + rewrite contains_cons, E2. reflexivity.
    + rewrite !contains_app, B1. reflexivity.
Qed.

Lemma assemble_good bs ls :
  Forall2 good_line bs ls ->
  forall acc, assemble (bs ++ [[]]) acc = Ok (acc ++ ls).
Proof.
  induction 1 as [|b l bs ls (_ & _ & _ & H) F IH]; intros acc.
  - simpl. now rewrite app_nil_r.
  - cbn [app]. rewrite H, IH, <- app_assoc. reflexivity.
Qed.

(** The lines of the variables of a group, and the second loop over them. *)
Lemma items_lines items :
  forallb variable_ok items = true -> NoDup (map fst items) ->
  exists ls,
    dump_items true items = Ok (map (fun l => lit "   " ++ l) ls)
    /\ Forall2 good_line (map (fun l => lit "   " ++ l) ls) ls
    /\ forall g, (forall k, In k (map fst items) -> ~ In k (Dict.keys g)) ->
                 process_lines g ls = Ok (g ++ held_items items).
Proof.
  induction items as [|[n v] items IH]; intros Hok Hnd.
  - exists []. split; [reflexivity|]. split; [constructor|].
    intros g _. simpl. now rewrite app_nil_r.
  - simpl in Hok. apply andb_true_iff in Hok as [Hnv Hok].
    unfold variable_ok in Hnv. apply andb_true_iff in Hnv as [Hn Hv].
    simpl in Hn, Hv. simpl in Hnd. inversion Hnd as [|? ? Hnot Hnd']; subst.
    destruct (IH Hok Hnd') as (ls & D & G & P).
    destruct (variable_line n v Hn Hv) as (V & DV & VT & PV).
    exists (line n V :: ls). split; [|split].
    + cbn [dump_items]. rewrite DV. cbn [bind]. rewrite D. reflexivity.
    + simpl. constructor; [now apply body_line_good|exact G].
    + intros g Hg. cbn [process_lines]. rewrite PV.
      * cbn [bind]. rewrite P.
        -- rewrite <- app_assoc. reflexivity.
        -- intros k Hk. rewrite keys_app. intros Hin.
           apply in_app_or in Hin as [Hin|[<-|[]]].
           ++ apply (Hg k); [now right|exact Hin].
           ++ now apply Hnot.
      * apply omem_false_not_in. apply Hg. now left.
Qed.

(** [_check_lists] on the variables of one group. *)
Lemma oset_middle {V} k (x y : V) (d1 d2 : odict V) :
  ~ In k (Dict.keys d1) -> oset k y (d1 ++ (k, x) :: d2) = d1 ++ (k, y) :: d2.
Proof.
  unfold oset. induction d1 as [|[k' v'] d1 IH]; simpl; intros H.
  - now rewrite eqb_refl.
  - destruct (Str.eqb k k') eqn:E.
    + apply eqb_eq in E. subst. exfalso. apply H. now left.
    + rewrite IH; [reflexivity|]. intros Hin. apply H. now right.
Qed.

Lemma check_items_all (f : obj -> obj) items : forall done,
  (forall nv, In nv items -> check_value (snd nv) = Ok (f (snd nv))) ->
  NoDup (Dict.keys done ++ map fst items) ->
  check_items items (done ++ items)
  = Ok (done ++ map (fun nv => (fst nv, f (snd nv))) items).
Proof.
  induction items as [|[n v] items IH]; intros done Hc Hnd; [reflexivity|].
  cbn [check_items]. pose proof (Hc (n, v) (or_introl eq_refl)) as Hv.
  cbn [snd] in Hv. rewrite Hv. cbn [bind fst snd].
  rewrite oset_middle.
  - change (done ++ (n, f v) :: items) with (done ++ [(n, f v)] ++ items).
    rewrite app_assoc. rewrite IH.
    + rewrite <- app_assoc. reflexivity.
    + intros nv Hin. apply Hc. now right.
    + rewrite keys_app. simpl. rewrite <- app_assoc. exact Hnd.
  - simpl in Hnd. apply NoDup_remove_2 in Hnd. intros Hin. apply Hnd.
    apply in_or_app. now left.
Qed.

Lemma check_items_held g :
  forallb variable_ok g = true -> NoDup (map fst g) ->
  check_items (held_items g) (held_items g) = Ok (reread_group g).
Proof.
  intros Hok Hnd.
  pose (f := fun o => match check_value o with Ok o' => o' | Raise _ => o end).
  assert (Hf : forall nv, In nv g -> check_value (held (snd nv)) = Ok (reread (snd nv))).
  { intros nv Hin. apply check_value_held. rewrite forallb_forall in Hok.
    specialize (Hok nv Hin). unfold variable_ok in Hok.
    now apply andb_true_iff in Hok. }
  pose proof (check_items_all f (held_items g) []) as H. cbn [app] in H.
  rewrite H.
  - unfold held_items, reread_group. rewrite map_map. apply f_equal. apply map_ext_in.
    intros nv Hin. cbn [fst snd]. unfold f. now rewrite (Hf nv Hin).
  - intros nv Hin. unfold held_items in Hin. apply in_map_iff in Hin as (nv' & <- & Hin).
    cbn [snd]. unfold f. now rewrite (Hf nv' Hin).
  - simpl. unfold held_items. rewrite map_map. simpl. exact Hnd.
Qed.

Lemma distinct_NoDup ks : distinct ks = true -> NoDup ks.
Proof.
  induction ks as [|k ks IH]; intros H; constructor;
    simpl in H; apply andb_true_iff in H as [H1 H2]; [|now apply IH].
  intros Hin. apply negb_true_iff in H1.
  assert (E : existsb (Str.eqb k) ks = true)
    by (apply existsb_exists; exists k; split; [exact Hin|apply eqb_refl]).
  congruence.
Qed.

End GroupFacts.
Module TextFacts.
Import Str Num Re Obj Mesa Shape StrFacts DictFacts ReFacts NumFacts ComplexFacts ListFacts.
Import TokenFacts ScalarFacts JoinFacts SpaceFacts ListValueFacts AssignFacts LineFacts.
Import ValueLineFacts VariableFacts GroupFacts.
Import Forms.

Lemma group_char_plain c :
  group_char c = true ->
  Ascii.eqb c "&" = false /\ Ascii.eqb c "/" = false
  /\ Ascii.eqb c nl = false /\ isspace c = false.
Proof.
  destruct c as [[] [] [] [] [] [] [] []]; vm_compute; intuition congruence.
Qed.

Lemma group_name_facts gname :
  group_name_ok gname = true ->
  contains "&" gname = false /\ contains "/" gname = false
  /\ contains nl gname = false
  /\ forallb (fun c => negb (isspace c)) gname = true.
Proof.
  unfold group_name_ok. intros H. repeat split.
  - eapply forallb_contains; [|exact H]. intros c Hc. now destruct (group_char_plain c Hc).
  - eapply forallb_contains; [|exact H].
    intros c Hc. now destruct (group_char_plain c Hc) as (_ & ? & _).
  - eapply forallb_contains; [|exact H].
    intros c Hc. now destruct (group_char_plain c Hc) as (_ & _ & ? & _).
  - eapply forallb_impl; [|exact H].
    intros c Hc. destruct (group_char_plain c Hc) as (_ & _ & _ & S). now rewrite S.
Qed.

Lemma trailer_contains a gname :
  contains a gname = false -> contains a (lit " ! end of  namelist") = false ->
  contains a (trailer gname) = false.
Proof.
  intros H1 H2. unfold trailer. rewrite !contains_app, H1.
  lits. simpl in H2. simpl.
  repeat (apply orb_false_iff in H2 as [?E H2]; rewrite ?E).
  repeat match goal with E : Ascii.eqb _ _ = false |- _ => rewrite E; clear E end.
  reflexivity.
Qed.

Lemma dumped_shape gname bs :
  dumped gname bs
  = "&"%char :: block_of gname bs ++ "/"%char :: trailer gname ++ [nl].
Proof.
  unfold dumped, block_of, trailer.
  change (lit "&" ++ gname) with ("&"%char :: gname).
  change (lit "/ ! end of " ++ gname ++ lit " namelist")
    with ("/"%char :: (lit " ! end of " ++ gname ++ lit " namelist")).
  change ([?x] ++ ?r) with (x :: r).
  rewrite join_head.
  change (gname :: bs ++ ?l) with ((gname :: bs) ++ l).
  rewrite join_app by discriminate.
  change (join [nl] [?x]) with x.
  cbn [app]. rewrite <- !app_assoc. cbn [app]. rewrite <- !app_assoc. reflexivity.
Qed.

Lemma filter_all {A} (f : A -> bool) l :
  Forall (fun x => f x = true) l -> filter f l = l.
Proof. induction 1 as [|x l Hx H IH]; simpl; [reflexivity|]. now rewrite Hx, IH. Qed.

Lemma startswith_head c s a :
  Ascii.eqb c a = false -> isspace c = false ->
  startswith (strip (c :: s)) [a] = false.
Proof.
  intros Hc Sc. destruct (strip_by_head isspace c s Sc) as (s' & E).
  unfold strip. rewrite E. cbn [startswith]. rewrite Ascii.eqb_sym in Hc.
  rewrite Ascii.eqb_sym in Hc. rewrite Hc. reflexivity.
Qed.

(** The first loop of [Namelist.__init__] keeps the text as it is. *)
Lemma filtered_dumped gname bs ls :
  group_name_ok gname = true -> Forall2 good_line bs ls ->
  join [nl] (filtered_lines (dumped gname bs)) = dumped gname bs.
Proof.
  intros Hg F. unfold filtered_lines, dumped.
  destruct (group_name_facts gname Hg) as (A & S & N & _).
  set (L := [lit "&" ++ gname] ++ bs ++ [lit "/ ! end of " ++ gname ++ lit " namelist"]).
  assert (NL : L <> []) by discriminate.
  rewrite <- (join_snoc_empty [nl] L NL).
  assert (Hnl : Forall (fun l => contains nl l = false) (L ++ [[]])).
  { unfold L. repeat (apply Forall_app; split).
    - constructor; [|constructor].
      change (lit "&" ++ gname) with ("&"%char :: gname).
      rewrite contains_cons, N. reflexivity.
    - clear -F. induction F as [|b l bs ls (H & _) F IH]; constructor; assumption.
    - constructor; [|constructor].
      change (lit "/ ! end of " ++ gname ++ lit " namelist")
        with ("/"%char :: trailer gname).
      rewrite contains_cons, trailer_contains by (exact N || reflexivity). reflexivity.
    - constructor; [reflexivity|constructor]. }
  rewrite split_join; [|now destruct L|exact Hnl].
  rewrite filter_all; [reflexivity|].
  unfold L. repeat (apply Forall_app; split).
  - constructor; [|constructor]. lits. cbn [app].
    rewrite startswith_head; reflexivity.
  - clear -F. induction F as [|b l bs ls (_ & _ & H & _) F IH]; constructor;
      [|assumption]. lits. now rewrite H.
  - constructor; [|constructor]. lits. cbn [app].
    rewrite startswith_head; reflexivity.
  - constructor; [reflexivity|constructor].
Qed.

(** The pattern of groups finds the one block of the text. *)
Lemma group_scan block tail :
  block <> [] -> contains "&" block = false ->
  contains "&" tail = false -> contains "/" tail = false ->
  Re.findall group_re ("&"%char :: block ++ "/"%char :: tail)
  = [("&"%char :: block ++ ["/"%char], [block])].
Proof.
  intros NB AB AT ST. unfold Re.findall.
  change ("&"%char :: block ++ "/"%char :: tail)
    with (("&"%char :: block) ++ "/"%char :: tail).
  replace (("&"%char :: block) ++ "/"%char :: tail)
    with (("&"%char :: block ++ ["/"%char]) ++ tail)
    by (cbn [app]; rewrite <- app_assoc; reflexivity).
  rewrite (scan_hit _ _ _ [block]); [|discriminate|].
  - f_equal. apply scan_first_char. exact AT.
  - destruct block as [|c block']; [contradiction|].
    rewrite contains_cons in AB. apply orb_false_iff in AB as [Ac AB].
    unfold match_at, group_re.
    cbn [app]. rewrite run_chr_cons. unfold only at 1. rewrite Ascii.eqb_refl.
    rewrite run_open. rewrite run_plus_cons
      by (unfold except; now rewrite Ascii.eqb_sym, Ac).
    rewrite <- app_assoc. cbn [app].
    apply star_backtrack.
    + now apply contains_false_except.
    + simpl. unfold except at 1. simpl. now apply contains_false_except.
    + intros v1 v2 E N1. destruct v1 as [|x v1]; [contradiction|].
      cbn [app] in E. injection E as _ E.
      rewrite run_close. destruct v2 as [|y v2]; [reflexivity|].
      rewrite run_chr_cons. unfold only.
      rewrite E, contains_app in ST. apply orb_false_iff in ST as [_ ST].
      rewrite contains_cons in ST. apply orb_false_iff in ST as [ST _].
      now rewrite Ascii.eqb_sym, ST.
    + rewrite run_close, run_chr_cons. unfold only. rewrite Ascii.eqb_refl.
      cbn [run]. f_equal.
      assert (R : rev ("/"%char :: rev block' ++ [c; "&"%char])
                  = "&"%char :: (c :: block') ++ ["/"%char]).
      { cbn [rev]. rewrite rev_app_distr, rev_involutive. reflexivity. }
      rewrite R. f_equal.
      cbn [rev app length groups_of].
      rewrite length_app, length_rev. cbn [length].
      replace (length block' + 2)%nat with (1 + length (c :: block'))%nat
        by (cbn [length]; lia).
      f_equal.
      apply (sub_middle ["&"%char] (c :: block') ["/"%char]).
Qed.

Lemma findall_dumped gname bs ls :
  group_name_ok gname = true -> Forall2 good_line bs ls ->
  map (fun m => hd [] (snd m)) (Re.findall group_re (dumped gname bs))
  = [block_of gname bs].
Proof.
  intros Hg F. destruct (group_name_facts gname Hg) as (A & S & N & _).
  rewrite dumped_shape, group_scan; [reflexivity| | | |].
  - unfold block_of. now destruct (join [nl] (gname :: bs)).
  - unfold block_of. rewrite contains_app. cbn [contains orb].
    rewrite contains_join; [reflexivity|reflexivity|].
    constructor; [exact A|].
    clear -F. induction F as [|b l bs ls (_ & H & _) F IH]; constructor; assumption.
  - rewrite contains_app, trailer_contains by (exact A || reflexivity). reflexivity.
  - rewrite contains_app, trailer_contains by (exact S || reflexivity). reflexivity.
Qed.

Lemma parse_block_dumped gname bs ls g :
  group_name_ok gname = true -> Forall2 good_line bs ls ->
  process_lines [] ls = Ok g ->
  parse_block (block_of gname bs) = Ok (gname, g).
Proof.
  intros Hg F P. destruct (group_name_facts gname Hg) as (_ & _ & N & Sp).
  unfold parse_block, block_of.
  rewrite <- (join_snoc_empty [nl] (gname :: bs)) by discriminate.
  rewrite split_join; [|discriminate|].
  - cbn [app hd tl]. rewrite (assemble_good bs ls F). cbn [bind app].
    rewrite P. cbn [bind]. now rewrite strip_no_space.
  - cbn [app]. constructor; [exact N|]. apply Forall_app. split.
    + clear -F. induction F as [|b l bs ls (H & _) F IH]; constructor; assumption.
    + constructor; [reflexivity|constructor].
Qed.

(** Reading the text of one dumped group. *)
Lemma parse_dumped gname bs ls g g' :
  group_name_ok gname = true -> Forall2 good_line bs ls ->
  process_lines [] ls = Ok g -> check_items g g = Ok g' ->
  parse (dumped gname bs) = Ok (Some [(gname, g')]).
Proof.
  intros Hg F P C. unfold parse, Namelist.
  replace (Str.eqb (dumped gname bs) []) with false
    by (rewrite dumped_shape; reflexivity).
  rewrite andb_false_r.
  rewrite (filtered_dumped gname bs ls Hg F).
  rewrite (findall_dumped gname bs ls Hg F).
  cbn [parse_blocks]. rewrite (parse_block_dumped gname bs ls g Hg F P).
  cbn [bind]. unfold resolve_name. cbn [omem Dict.mem Dict.get].
  unfold _check_lists. cbn [oset Dict.set check_groups]. rewrite C. cbn [bind].
  cbn [oset Dict.set check_groups]. rewrite eqb_refl. reflexivity.
Qed.

End TextFacts.
Module OutcomeFacts.
Import Str Num Re Obj Mesa Shape Forms Kinds.
Import StrFacts DictFacts ReFacts NumFacts ComplexFacts ScalarFacts.

(** The pattern of complex numbers matches at the start only, and only a
    text that starts with a parenthesis. *)
Lemma findall_complex_head t m ms :
  Re.findall complex_re t = m :: ms -> exists r, t = "("%char :: r.
Proof.
  destruct t as [|c t]; [discriminate|].
  destruct (Ascii.eqb c "(") eqn:E.
  - apply Ascii.eqb_eq in E. subst. eauto.
  - now rewrite complex_none_head.
Qed.

Lemma quoted_by_head q c s :
  quoted_by q (c :: s) = true -> c = q.
Proof.
  unfold quoted_by. intros H. apply andb_true_iff in H as [H _].
  apply andb_true_iff in H as [H _]. cbn [startswith] in H.
  apply andb_true_iff in H as [H _]. now apply Ascii.eqb_eq.
Qed.

Lemma quoted_by_nil q : quoted_by q [] = false.
Proof. reflexivity. Qed.

Lemma words_paren r :
  words ("("%char :: r) = Raise (NoSingleValueFoundException ("("%char :: r)).
Proof.
  unfold words. lits.
  rewrite !eqb_head_diff by reflexivity. cbn [orb].
  destruct (quoted_by quote ("("%char :: r)) eqn:Q1;
    [apply quoted_by_head in Q1; discriminate|].
  destruct (quoted_by dquote ("("%char :: r)) eqn:Q2;
    [apply quoted_by_head in Q2; discriminate|].
  reflexivity.
Qed.

Lemma words_outcome t :
  match words t with
  | Ok (PyBool _) | Ok (PyStr _) => True
  | Ok _ => False
  | Raise e => e = NoSingleValueFoundException t
  end.
Proof.
  unfold words.
  destruct (_ || _); [exact I|]. destruct (_ || _); [exact I|].
  destruct (quoted_by quote t); [exact I|].
  destruct (quoted_by dquote t); [exact I|reflexivity].
Qed.

Lemma defaults_parse_value_words t :
  Defaults._parse_value t
  = match Num.int t with
    | Some z => Ok (PyInt z)
    | None => match Num.float (replace "d" "E" t) with
              | Some x => Ok (PyFloat x)
              | None => words t
              end
    end.
Proof. reflexivity. Qed.

Lemma parse_value_words t :
  Num.int t = None -> Num.float (replace "d" "E" t) = None ->
  Re.findall complex_re t = [] -> _parse_value t = words t.
Proof. intros Hi Hf Hc. unfold _parse_value. now rewrite Hi, Hf, Hc. Qed.

(** The outcomes of [_parse_value]. *)
Lemma parse_value_outcome t :
  match _parse_value t with
  | Ok v => scalar v = true
  | Raise e => e = NoSingleValueFoundException t
               \/ (e = ValueError /\ exists r, t = "("%char :: r)
  end.
Proof.
  unfold _parse_value.
  destruct (Num.int t); [reflexivity|].
  destruct (Num.float _); [reflexivity|].
  fold (words t).
  destruct (Re.findall complex_re t) as [|[m gs] ms] eqn:F.
  - pose proof (words_outcome t) as W.
    destruct (words t) as [v|e]; [now destruct v|now left].
  - destruct (findall_complex_head t _ _ F) as [r ->].
    destruct gs as [|a [|b [|c gs]]], ms as [|m2 ms];
      rewrite ?words_paren; try (now left).
    destruct (Num.float a), (Num.float b); try reflexivity; right; eauto.
Qed.

Lemma parse_value_scalar t v : _parse_value t = Ok v -> scalar v = true.
Proof. intros H. pose proof (parse_value_outcome t) as O. now rewrite H in O. Qed.

(** The two chains side by side. *)
Lemma parse_value_defaults t :
  match _parse_value t with
  | Ok (PyComplex _ _) | Raise ValueError =>
      Defaults._parse_value t = Raise (NoSingleValueFoundException t)
  | r => Defaults._parse_value t = r
  end.
Proof.
  rewrite defaults_parse_value_words. unfold _parse_value.
  destruct (Num.int t); [reflexivity|].
  destruct (Num.float _); [reflexivity|].
  fold (words t).
  destruct (Re.findall complex_re t) as [|[m gs] ms] eqn:F.
  - pose proof (words_outcome t) as W.
    destruct (words t) as [v|e]; [destruct v; try contradiction; reflexivity|].
    subst. reflexivity.
  - destruct (findall_complex_head t _ _ F) as [r ->].
    rewrite words_paren.
    destruct gs as [|a [|b [|c gs]]], ms as [|m2 ms]; try reflexivity.
    destruct (Num.float a), (Num.float b); reflexivity.
Qed.

(** A text between single quotes. *)
Lemma quoted_by_quoted s :
  quoted_by quote (quoted s) = negb (contains quote s).
Proof.
  unfold quoted_by, quoted.
  change (quote :: s ++ [quote]) with ((quote :: s) ++ [quote]) at 2.
  rewrite endswith_last. cbn [startswith]. rewrite Ascii.eqb_refl. cbn [andb].
  change (quote :: s ++ [quote]) with ([quote] ++ s ++ [quote]).
  rewrite !count_app, count_one.
  destruct (contains quote s) eqn:C.
  - assert (L : (0 < count quote s)%nat).
    { clear -C. unfold count. induction s as [|c s IH]; [discriminate|].
      rewrite contains_cons in C. cbn [filter].
      destruct (Ascii.eqb quote c); [simpl; lia|]. now apply IH. }
    apply Nat.eqb_neq. lia.
  - now rewrite (count_zero _ _ C).
Qed.

Lemma slice_quoted s : slice_1_m1 (quoted s) = s.
Proof. unfold slice_1_m1, quoted. cbn [tl]. apply removelast_last. Qed.

Lemma parse_value_quoted s :
  _parse_value (quoted s)
  = if contains quote s then Raise (NoSingleValueFoundException (quoted s))
    else Ok (PyStr s).
Proof.
  unfold quoted at 1. rewrite parse_value_quote_head. fold (quoted s).
  rewrite quoted_by_quoted, slice_quoted. now destruct (contains quote s).
Qed.

End OutcomeFacts.
Module SweepFacts.
Import Str Num Re Obj Mesa Shape Forms Kinds.
Import StrFacts DictFacts AssignFacts GroupFacts.

Section Entries.
Context {V : Type}.
Implicit Types (d : odict V) (k : str) (v : V).

Lemma oget_In k v d : oget k d = Some v -> In (k, v) d.
Proof.
  unfold oget. induction d as [|[k' v'] d IH]; simpl; [discriminate|].
  destruct (Str.eqb k k') eqn:E.
  - apply eqb_eq in E. intros [= ->]. subst. now left.
  - intros H. right. now apply IH.
Qed.

Lemma In_oget k v d : NoDup (Dict.keys d) -> In (k, v) d -> oget k d = Some v.
Proof.
  unfold oget. induction d as [|[k' v'] d IH]; simpl; intros Hn Hin; [contradiction|].
  inversion Hn as [|? ? Hk Hn']; subst.
  destruct Hin as [[= -> ->]|Hin]; [now rewrite eqb_refl|].
  destruct (Str.eqb k k') eqn:E; [|now apply IH].
  apply eqb_eq in E. subst. exfalso. apply Hk.
  apply in_map_iff. exists (k', v). now split.
Qed.

Lemma In_keys k v d : In (k, v) d -> In k (Dict.keys d).
Proof. intros H. apply in_map_iff. exists (k, v). now split. Qed.

Lemma omem_In_keys k d : omem k d = true <-> In k (Dict.keys d).
Proof.
  unfold omem, Dict.mem, Dict.keys.
  induction d as [|[k' v'] d IH]; simpl; [split; [discriminate|contradiction]|].
  destruct (Str.eqb k k') eqn:E.
  - apply eqb_eq in E. subst. split; [now left|reflexivity].
  - rewrite IH. split; [now right|]. intros [->|H]; [|exact H].
    now rewrite eqb_refl in E.
Qed.

(** The entries after an assignment. *)
Lemma In_oset_weak k v k0 v0 d :
  In (k, v) (oset k0 v0 d) -> v = v0 \/ In (k, v) d.
Proof.
  unfold oset. induction d as [|[k' v'] d IH]; simpl.
  - intros [[= -> ->]|[]]. now left.
  - destruct (Str.eqb k0 k').
    + intros [[= -> ->]|H]; [now left|right; now right].
    + intros [H|H]; [right; now left|].
      destruct (IH H) as [->|H']; [now left|right; now right].
Qed.

Lemma oset_keys k0 v0 d :
  Dict.keys (oset k0 v0 d)
  = if omem k0 d then Dict.keys d else Dict.keys d ++ [k0].
Proof.
  unfold oset, omem, Dict.mem, Dict.keys.
  induction d as [|[k' v'] d IH]; simpl; [reflexivity|].
  destruct (Str.eqb k0 k') eqn:E; simpl; [reflexivity|].
  rewrite IH. now destruct (Dict.get Str.eqb k0 d).
Qed.

Lemma NoDup_oset k0 v0 d : NoDup (Dict.keys d) -> NoDup (Dict.keys (oset k0 v0 d)).
Proof.
  intros H. rewrite oset_keys. destruct (omem k0 d) eqn:M; [exact H|].
  apply NoDup_app; [exact H|repeat constructor; intros []|].
  intros x Hx [<-|[]]. apply omem_In_keys in Hx. congruence.
Qed.

Lemma In_oset k v k0 v0 d :
  NoDup (Dict.keys d) -> In (k, v) (oset k0 v0 d) ->
  (k = k0 /\ v = v0) \/ (k <> k0 /\ In (k, v) d).
Proof.
  unfold oset. induction d as [|[k' v'] d IH]; simpl; intros Hn.
  - intros [[= -> ->]|[]]. now left.
  - inversion Hn as [|? ? Hk Hn']; subst.
    destruct (Str.eqb k0 k') eqn:E.
    + apply eqb_eq in E. subst k'.
      intros [[= -> ->]|H]; [now left|]. right. split; [|now right].
      intros ->. apply Hk. eapply In_keys, H.
    + intros [[= -> ->]|H].
      * right. split; [|now left]. intros ->. now rewrite eqb_refl in E.
      * destruct (IH Hn' H) as [?|[? ?]]; [now left|right; split; [assumption|now right]].
Qed.

Lemma oset_same k v d : NoDup (Dict.keys d) -> In (k, v) d -> oset k v d = d.
Proof.
  unfold oset. induction d as [|[k' v'] d IH]; simpl; intros Hn Hin; [contradiction|].
  inversion Hn as [|? ? Hk Hn']; subst.
  destruct Hin as [[= -> ->]|Hin]; [now rewrite eqb_refl|].
  destruct (Str.eqb k k') eqn:E.
  - apply eqb_eq in E. subst. exfalso. apply Hk. eapply In_keys, Hin.
  - now rewrite IH.
Qed.

Lemma In_oset_other k v k0 v0 d :
  k <> k0 -> In (k, v) d -> In (k, v) (oset k0 v0 d).
Proof.
  unfold oset. intros N. induction d as [|[k' v'] d IH]; simpl; [contradiction|].
  destruct (Str.eqb k0 k') eqn:E.
  - apply eqb_eq in E. subst k'. intros [[= -> ->]|H]; [contradiction|now right].
  - intros [H|H]; [now left|right; now apply IH].
Qed.

Lemma oset_map_same {W} (h : V -> W) k v v' d :
  NoDup (Dict.keys d) -> In (k, v) d -> h v' = h v ->
  map (fun e => h (snd e)) (oset k v' d) = map (fun e => h (snd e)) d.
Proof.
  unfold oset. intros Hn Hin Hh.
  induction d as [|[k1 v1] d IH]; simpl; [contradiction|].
  inversion Hn as [|? ? Hk Hn']; subst.
  destruct Hin as [[= -> ->]|Hin].
  - rewrite eqb_refl. simpl. now rewrite Hh.
  - destruct (Str.eqb k k1) eqn:E.
    + apply eqb_eq in E. subst. exfalso. apply Hk. eapply In_keys, Hin.
    + simpl. now rewrite IH.
Qed.

Section Sweeps.
Variable f : V -> result V.

(** What [f] keeps of every value, the loop keeps of the dictionary. *)
Lemma sweep_map {W} (h : V -> W) items : forall d d',
  sweep f items d = Ok d' ->
  NoDup (Dict.keys d) -> NoDup (Dict.keys items) ->
  (forall k v, In (k, v) items -> In (k, v) d) ->
  (forall k v v', In (k, v) items -> f v = Ok v' -> h v' = h v) ->
  map (fun e => h (snd e)) d' = map (fun e => h (snd e)) d.
Proof.
  induction items as [|[k0 v0] items IH]; intros d d' H Hn Hi Hin Hh.
  - now injection H as <-.
  - cbn [sweep] in H. destruct (f v0) as [v0'|e] eqn:E; [|discriminate].
    cbn [bind] in H. inversion Hi as [|? ? Hk Hi']; subst.
    rewrite (IH _ _ H).
    + apply (oset_map_same h k0 v0); [exact Hn|apply Hin; now left|].
      apply (Hh k0); [now left|exact E].
    + now apply NoDup_oset.
    + exact Hi'.
    + intros k v Hv. apply In_oset_other; [|apply Hin; now right].
      intros ->. apply Hk. eapply In_keys, Hv.
    + intros k v v' Hv. apply (Hh k). now right.
Qed.

Lemma sweep_keys items : forall d d',
  sweep f items d = Ok d' ->
  (forall k, In k (Dict.keys items) -> In k (Dict.keys d)) ->
  Dict.keys d' = Dict.keys d.
Proof.
  induction items as [|[k v] items IH]; intros d d' H Hk; [now injection H as <-|].
  cbn [sweep] in H. destruct (f v) as [v'|e]; [|discriminate]. cbn [bind] in H.
  assert (M : omem k d = true) by (apply omem_In_keys, Hk; now left).
  rewrite (IH _ _ H).
  - rewrite oset_keys, M. reflexivity.
  - intros k1 H1. rewrite oset_keys, M. apply Hk. now right.
Qed.

(** After the loop every value has gone through [f]. *)
Lemma sweep_all (Q : V -> Prop) items : forall d d',
  sweep f items d = Ok d' ->
  NoDup (Dict.keys d) ->
  (forall k v v', In (k, v) items -> f v = Ok v' -> Q v') ->
  (forall k v, In (k, v) d -> Q v \/ In k (Dict.keys items)) ->
  forall k v, In (k, v) d' -> Q v.
Proof.
  induction items as [|[k0 v0] items IH]; intros d d' H Hn Hf Hd k v Hin.
  - injection H as <-. destruct (Hd k v Hin) as [?|[]]. assumption.
  - cbn [sweep] in H. destruct (f v0) as [v0'|e] eqn:E; [|discriminate].
    cbn [bind] in H.
    apply (IH _ _ H (NoDup_oset _ _ _ Hn)) with (k := k); [| |exact Hin].
    + intros k1 v1 v1' H1. apply (Hf k1). now right.
    + intros k1 v1 H1. destruct (In_oset _ _ _ _ _ Hn H1) as [[-> ->]|[N H1']].
      * left. apply (Hf k0 v0); [now left|exact E].
      * destruct (Hd k1 v1 H1') as [?|Hk1]; [now left|].
        destruct Hk1 as [Hk1|Hk1]; [simpl in Hk1; congruence|now right].
Qed.

(** A dictionary whose values [f] leaves alone comes out as it was. *)
Lemma sweep_fixed items d :
  NoDup (Dict.keys d) ->
  (forall k v, In (k, v) items -> In (k, v) d /\ f v = Ok v) ->
  sweep f items d = Ok d.
Proof.
  intros Hn. induction items as [|[k v] items IH]; intros H; [reflexivity|].
  cbn [sweep]. destruct (H k v (or_introl eq_refl)) as [Hin ->]. cbn [bind].
  rewrite oset_same by assumption. apply IH.
  intros k1 v1 H1. apply H. now right.
Qed.

End Sweeps.
End Entries.

Lemma check_items_sweep items g : check_items items g = sweep check_value items g.
Proof.
  revert g. induction items as [|[k v] items IH]; intros g; [reflexivity|].
  cbn [check_items sweep]. destruct (check_value v); [apply IH|reflexivity].
Qed.

Lemma check_groups_sweep todo groups :
  check_groups todo groups = sweep (fun g => check_items g g) todo groups.
Proof.
  revert groups. induction todo as [|[k g] todo IH]; intros groups; [reflexivity|].
  cbn [check_groups sweep]. destruct (check_items g g); [apply IH|reflexivity].
Qed.

Lemma distinct_iff ks : distinct ks = true <-> NoDup ks.
Proof.
  split; [apply distinct_NoDup|].
  induction 1 as [|k ks Hk Hn IH]; [reflexivity|]. simpl. rewrite IH, andb_true_r.
  apply negb_true_iff. destruct (existsb (Str.eqb k) ks) eqn:E; [|reflexivity].
  apply existsb_exists in E as (x & Hx & Ex). apply eqb_eq in Ex. now subst.
Qed.

Lemma all_values_forall {V} (p : V -> bool) (d : odict V) :
  all_values p d = true <-> forall k v, In (k, v) d -> p v = true.
Proof.
  unfold all_values. rewrite forallb_forall. split.
  - intros H k v Hin. apply (H (k, v) Hin).
  - intros H [k v] Hin. apply (H k v Hin).
Qed.

End SweepFacts.
Module InvariantFacts.
Import Str Num Re Obj Mesa Shape Forms Kinds.
Import StrFacts DictFacts AssignFacts GroupFacts OutcomeFacts SweepFacts.

Lemma scalar_pending v : scalar v = true -> pending v = true.
Proof. now destruct v. Qed.

Lemma scalar_flat v : scalar v = true -> flat v = true.
Proof. now destruct v. Qed.

Lemma slots_dset i v d :
  slots d = true -> scalar v = true -> slots (dset (KInt i) v d) = true.
Proof.
  unfold slots, dset. intros Hd Hv. induction d as [|[k x] d IH].
  - simpl. now rewrite Hv.
  - simpl in Hd. apply andb_true_iff in Hd as [Hx Hd].
    destruct k as [f|j]; [discriminate|].
    cbn [Dict.set key_eqb]. destruct (i =? j).
    + simpl. now rewrite Hv, Hd.
    + simpl. now rewrite Hx, IH.
Qed.

Lemma setitem_pending target i v t' :
  pending target = true -> scalar v = true ->
  setitem target i v = Ok t' -> pending t' = true.
Proof.
  intros Ht Hv. destruct target; try discriminate.
  destruct items as [|[[f|j] x] d]; try discriminate.
  destruct x; try discriminate. destruct b; try discriminate.
  cbn [pending] in Ht. apply andb_true_iff in Ht as [Hf Hd].
  cbn [setitem]. intros [= <-].
  unfold dset. cbn [Dict.set key_eqb]. fold (dset (KInt i) v d).
  cbn [pending]. rewrite Hf, slots_dset by assumption. reflexivity.
Qed.

Lemma pending_oset k v g :
  pending_group g -> pending v = true -> pending_group (oset k v g).
Proof.
  intros [Hn Hp] Hv. split; [now apply NoDup_oset|].
  intros k1 v1 H1. destruct (In_oset_weak _ _ _ _ _ H1) as [->|H]; [exact Hv|].
  now apply (Hp k1).
Qed.

Lemma assign_pending g name idx v g' :
  pending_group g -> scalar v = true ->
  assign g name idx v = Ok g' -> pending_group g'.
Proof.
  intros Hg Hv. destruct idx as [i|]; cbn [assign].
  - set (g1 := if omem name g then g else oset name _ g).
    assert (H1 : pending_group g1).
    { subst g1. destruct (omem name g); [exact Hg|].
      apply pending_oset; [exact Hg|reflexivity]. }
    destruct (oget name g1) as [target|] eqn:E; [|discriminate].
    destruct (setitem target i v) as [t'|e] eqn:S; [|discriminate].
    cbn [bind]. intros [= <-]. apply pending_oset; [exact H1|].
    apply (setitem_pending target i v); [|exact Hv|exact S].
    destruct H1 as [_ H1]. apply (H1 name). now apply oget_In.
  - intros [= <-]. apply pending_oset; [exact Hg|now apply scalar_pending].
Qed.

Lemma assign_entries_pending name : forall entries g n g',
  pending_group g -> assign_entries g name n entries = Ok g' -> pending_group g'.
Proof.
  induction entries as [|t entries IH]; intros g n g' Hg H.
  - injection H as <-. exact Hg.
  - cbn [assign_entries] in H.
    destruct (_parse_value t) as [v|e] eqn:P; [|discriminate]. cbn [bind] in H.
    destruct (assign g name (Some (Z.of_nat n)) v) as [g1|e] eqn:A; [|discriminate].
    cbn [bind] in H. apply (IH g1 (S n)); [|exact H].
    apply (assign_pending g name (Some (Z.of_nat n)) v); [exact Hg| |exact A].
    now apply (parse_value_scalar t).
Qed.

Lemma process_line_pending g line g' :
  pending_group g -> process_line g line = Ok g' -> pending_group g'.
Proof.
  intros Hg. unfold process_line.
  destruct (name_value line) as [[k v]|e]; [|discriminate]. cbn [bind].
  destruct (name_and_index k) as [[name idx]|e]; [|discriminate]. cbn [bind].
  destruct (_parse_value (strip v)) as [pv|e] eqn:P.
  - intros A. apply (assign_pending g name idx pv); [exact Hg| |exact A].
    now apply (parse_value_scalar (strip v)).
  - destruct e; try discriminate. now apply assign_entries_pending.
Qed.

Lemma process_lines_pending ls : forall g g',
  pending_group g -> process_lines g ls = Ok g' -> pending_group g'.
Proof.
  induction ls as [|l ls IH]; intros g g' Hg H.
  - injection H as <-. exact Hg.
  - cbn [process_lines] in H.
    destruct (process_line g l) as [g1|e] eqn:P; [|discriminate]. cbn [bind] in H.
    apply (IH g1); [|exact H]. now apply (process_line_pending g l).
Qed.

Lemma parse_block_pending b name g :
  parse_block b = Ok (name, g) -> pending_group g.
Proof.
  unfold parse_block.
  destruct (assemble _ _) as [ls|e]; [|discriminate]. cbn [bind].
  destruct (process_lines [] ls) as [g1|e] eqn:P; [|discriminate]. cbn [bind].
  intros [= _ <-]. apply (process_lines_pending ls []); [|exact P].
  split; [constructor|intros k v []].
Qed.

(** *** [_check_lists] *)

Lemma list_setitem_loose l i v l' :
  forallb loose l = true -> scalar v = true ->
  list_setitem l i v = Ok l' -> forallb loose l' = true.
Proof.
  intros Hl Hv. unfold list_setitem.
  set (j := if i <? 0 then i + Z.of_nat (length l) else i).
  destruct (_ && _); [|discriminate]. intros [= <-].
  rewrite forallb_app. cbn [forallb]. unfold loose at 2. rewrite Hv. cbn [orb andb].
  rewrite forallb_forall in Hl.
  apply andb_true_iff. split; apply forallb_forall; intros x Hx; apply Hl.
  - rewrite <- (firstn_skipn (Z.to_nat j) l). apply in_or_app. now left.
  - rewrite <- (firstn_skipn (S (Z.to_nat j)) l). apply in_or_app. now right.
Qed.

Lemma fill_list_loose n : forall items l l',
  slots items = true -> forallb loose l = true ->
  fill_list n items l = Ok l' -> forallb loose l' = true.
Proof.
  induction items as [|[k x] items IH]; intros l l' Hs Hl H.
  - now injection H as <-.
  - simpl in Hs. apply andb_true_iff in Hs as [Hx Hs].
    destruct k as [f|i]; [discriminate|]. cbn [fill_list] in H.
    destruct (n <=? i); [discriminate|].
    destruct (list_setitem l i x) as [l1|e] eqn:E; [|discriminate].
    cbn [bind] in H. apply (IH l1 l' Hs); [|exact H].
    now apply (list_setitem_loose l i x).
Qed.

Lemma repeat_loose n : forallb loose (repeat PyNone n) = true.
Proof. induction n; [reflexivity|exact IHn]. Qed.

Lemma flat_fixed v : flat v = true -> check_value v = Ok v.
Proof. now destruct v. Qed.

Lemma check_value_flat v v' :
  flat v = true \/ pending v = true -> check_value v = Ok v' -> flat v' = true.
Proof.
  intros [F|P] H.
  - rewrite (flat_fixed v F) in H. now injection H as <-.
  - destruct v; try (injection H as <-; exact P); try discriminate.
    destruct items as [|[[f|j] x] d]; try discriminate.
    destruct x; try discriminate. destruct b; try discriminate.
    cbn [pending] in P. apply andb_true_iff in P as [Hf Hd].
    apply eqb_eq in Hf. subst f.
    cbn [check_value] in H. unfold dget, ddel in H.
    cbn [Dict.get Dict.del key_eqb] in H.
    change (Str.eqb (lit "_is_list") (lit "_is_list")) with true in H.
    cbn [truthy] in H.
    destruct (fill_list _ d _) as [l|e] eqn:E; [|discriminate].
    injection H as <-. cbn [flat].
    apply (fill_list_loose _ d _ l Hd (repeat_loose _) E).
Qed.

(** A value that has gone through [check_value] goes through it unchanged. *)
Lemma check_value_fixed v v' : check_value v = Ok v' -> check_value v' = Ok v'.
Proof.
  destruct v; try (now intros [= <-]).
  cbn [check_value]. destruct (dget _ items) as [flag|] eqn:G.
  - destruct (truthy flag) eqn:T.
    + destruct (fill_list _ _ _); [|discriminate]. now intros [= <-].
    + intros [= <-]. cbn [check_value]. now rewrite G, T.
  - intros [= <-]. cbn [check_value]. now rewrite G.
Qed.

Lemma check_items_keys g g' :
  NoDup (Dict.keys g) -> check_items g g = Ok g' ->
  NoDup (Dict.keys g') /\ Dict.keys g' = Dict.keys g.
Proof.
  intros Hn H. rewrite check_items_sweep in H.
  assert (K : Dict.keys g' = Dict.keys g) by (apply (sweep_keys _ _ _ _ H); auto).
  split; [now rewrite K|exact K].
Qed.

Lemma check_items_flat g g' :
  NoDup (Dict.keys g) ->
  (forall k v, In (k, v) g -> flat v = true \/ pending v = true) ->
  check_items g g = Ok g' -> flat_group g'.
Proof.
  intros Hn Hp H. split; [now apply (check_items_keys g)|].
  rewrite check_items_sweep in H.
  apply (sweep_all check_value (fun v => flat v = true) g g g' H Hn).
  - intros k v v' Hin. apply check_value_flat. now apply (Hp k).
  - intros k v Hin. right. eapply In_keys, Hin.
Qed.

(** A checked group, checked again, is unchanged. *)
Lemma check_items_fixed g g' :
  NoDup (Dict.keys g) -> check_items g g = Ok g' -> check_items g' g' = Ok g'.
Proof.
  intros Hn H. destruct (check_items_keys g g' Hn H) as [Hn' _].
  rewrite check_items_sweep in *.
  apply sweep_fixed; [exact Hn'|]. intros k v Hin. split; [exact Hin|].
  apply (sweep_all check_value (fun v => check_value v = Ok v) g g g' H Hn)
    with (k := k); [| |exact Hin].
  - intros k1 v1 v1' _. apply check_value_fixed.
  - intros k1 v1 H1. right. eapply In_keys, H1.
Qed.

Lemma flat_group_fixed g : flat_group g -> check_items g g = Ok g.
Proof.
  intros [Hn Hf]. rewrite check_items_sweep. apply sweep_fixed; [exact Hn|].
  intros k v Hin. split; [exact Hin|]. apply flat_fixed. now apply (Hf k).
Qed.

(** The groups of a document after [_check_lists]. *)
Lemma check_lists_flat D D' :
  NoDup (Dict.keys D) ->
  (forall n g, In (n, g) D -> flat_group g \/ pending_group g) ->
  _check_lists D = Ok D' ->
  NoDup (Dict.keys D') /\ forall n g, In (n, g) D' -> flat_group g.
Proof.
  intros Hn Hg H. unfold _check_lists in H. rewrite check_groups_sweep in H.
  split.
  - rewrite (sweep_keys _ _ _ _ H); auto.
  - apply (sweep_all _ flat_group D D D' H Hn).
    + intros n g g' Hin C. destruct (Hg n g Hin) as [[N F]|[N P]];
        apply (check_items_flat g g' N); try exact C; intros k v Hv.
      * left. now apply (F k).
      * right. now apply (P k).
    + intros n g Hin. right. eapply In_keys, Hin.
Qed.

Lemma parse_blocks_flat blocks : forall D cnt D',
  NoDup (Dict.keys D) -> (forall n g, In (n, g) D -> flat_group g) ->
  parse_blocks blocks D cnt = Ok D' ->
  NoDup (Dict.keys D') /\ forall n g, In (n, g) D' -> flat_group g.
Proof.
  induction blocks as [|b blocks IH]; intros D cnt D' Hn Hf H.
  - injection H as <-. now split.
  - cbn [parse_blocks] in H.
    destruct (parse_block b) as [[name g]|e] eqn:P; [|discriminate]. cbn [bind] in H.
    destruct (resolve_name D cnt name) as [name' cnt'].
    destruct (_check_lists (oset name' g D)) as [D1|e] eqn:C; [|discriminate].
    cbn [bind] in H.
    destruct (check_lists_flat (oset name' g D) D1) as [N1 F1]; [| |exact C|].
    + now apply NoDup_oset.
    + intros n1 g1 H1. destruct (In_oset_weak _ _ _ _ _ H1) as [->|H1'].
      * right. now apply (parse_block_pending b name).
      * left. now apply (Hf n1).
    + now apply (IH D1 cnt').
Qed.

End InvariantFacts.
Module DumpFacts.
Import Str Num Re Obj Mesa Shape Forms Kinds.
Import StrFacts DictFacts SweepFacts.

Lemma format_outcome v :
  match format_value_to_fortran v with
  | Ok _ => scalar v = true
  | Raise e => scalar v = false /\ e = not_understood v
  end.
Proof. destruct v; simpl; auto. Qed.

Lemma format_all_outcome vs :
  match format_all vs with
  | Ok ts => forallb scalar vs = true
  | Raise e => forallb scalar vs = false
               /\ exists x, first_refused (PyList vs) x /\ e = not_understood x
  end.
Proof.
  induction vs as [|v vs IH]; [reflexivity|].
  cbn [format_all forallb]. pose proof (format_outcome v) as Hv.
  destruct (format_value_to_fortran v) as [t|e]; cbn [bind].
  - rewrite Hv. cbn [andb]. destruct (format_all vs) as [ts|e]; cbn [bind]; [exact IH|].
    destruct IH as (F & x & (Sx & l1 & l2 & -> & H1) & ->). split; [exact F|].
    exists x. split; [|reflexivity]. split; [exact Sx|].
    exists (v :: l1), l2. split; [reflexivity|]. cbn [forallb]. now rewrite Hv, H1.
  - destruct Hv as [Sv ->]. rewrite Sv. split; [reflexivity|].
    exists v. split; [|reflexivity]. split; [exact Sv|]. now exists [], vs.
Qed.

Lemma indexed_lines_outcome name vs : forall n,
  match indexed_lines name n vs with
  | Ok ls => forallb scalar vs = true /\ length ls = length vs
  | Raise e => forallb scalar vs = false
               /\ exists x, first_refused (PyList vs) x /\ e = not_understood x
  end.
Proof.
  induction vs as [|v vs IH]; intros n; [now split|].
  cbn [indexed_lines forallb]. pose proof (format_outcome v) as Hv.
  destruct (format_value_to_fortran v) as [t|e]; cbn [bind].
  - rewrite Hv. cbn [andb]. specialize (IH (S n)).
    destruct (indexed_lines name (S n) vs) as [ls|e]; cbn [bind].
    + destruct IH as [F L]. split; [exact F|]. simpl. now rewrite L.
    + destruct IH as (F & x & (Sx & l1 & l2 & -> & H1) & ->). split; [exact F|].
      exists x. split; [|reflexivity]. split; [exact Sx|].
      exists (v :: l1), l2. split; [reflexivity|]. cbn [forallb]. now rewrite Hv, H1.
  - destruct Hv as [Sv ->]. rewrite Sv. split; [reflexivity|].
    exists v. split; [|reflexivity]. split; [exact Sv|]. now exists [], vs.
Qed.

Lemma dump_variable_outcome inline name v :
  match dump_variable inline name v with
  | Ok _ => dumpable v = true
  | Raise e => dumpable v = false
               /\ exists x, first_refused v x /\ e = not_understood x
  end.
Proof.
  destruct v as [|b|z|x|re im|s|items|d];
    try reflexivity.
  - split; [reflexivity|]. exists PyNone. now repeat split.
  - cbn [dump_variable dumpable]. destruct inline.
    + pose proof (format_all_outcome items) as H.
      destruct (format_all items); cbn [bind]; exact H.
    + pose proof (indexed_lines_outcome name items 0) as H.
      destruct (indexed_lines name 0 items); [now destruct H|exact H].
  - split; [reflexivity|]. exists (PyDict d). now repeat split.
Qed.

Lemma dump_items_outcome inline g :
  match dump_items inline g with
  | Ok _ => all_values dumpable g = true
  | Raise e => all_values dumpable g = false
               /\ exists g1 name v g2 x,
                    g = g1 ++ (name, v) :: g2
                    /\ all_values dumpable g1 = true
                    /\ first_refused v x /\ e = not_understood x
  end.
Proof.
  induction g as [|[n v] g IH]; [reflexivity|].
  cbn [dump_items]. unfold all_values in *. cbn [forallb snd].
  pose proof (dump_variable_outcome inline n v) as Hv.
  destruct (dump_variable inline n v) as [ls|e]; cbn [bind].
  - rewrite Hv. cbn [andb]. destruct (dump_items inline g); cbn [bind]; [exact IH|].
    destruct IH as (F & g1 & name & w & g2 & x & -> & G1 & R & ->).
    split; [exact F|]. exists ((n, v) :: g1), name, w, g2, x.
    split; [reflexivity|]. split; [|now split].
    cbn [forallb snd]. now rewrite Hv, G1.
  - destruct Hv as (-> & x & R & ->). split; [reflexivity|].
    exists [], n, v, g, x. split; [reflexivity|]. split; [reflexivity|]. now split.
Qed.

Lemma dump_outcome D n inline :
  match dump D n inline with
  | Ok _ => exists g, oget n D = Some g /\ all_values dumpable g = true
  | Raise e =>
      (oget n D = None /\ e = KeyError n)
      \/ (exists g1 name v g2 x,
             oget n D = Some (g1 ++ (name, v) :: g2)
             /\ all_values dumpable (g1 ++ (name, v) :: g2) = false
             /\ all_values dumpable g1 = true
             /\ first_refused v x /\ e = not_understood x)
  end.
Proof.
  unfold dump. destruct (oget n D) as [g|]; [|now left].
  pose proof (dump_items_outcome inline g) as H.
  destruct (dump_items inline g); cbn [bind].
  - eauto.
  - destruct H as (F & g1 & name & v & g2 & x & -> & G1 & R & ->). right.
    exists g1, name, v, g2, x. auto.
Qed.

End DumpFacts.

Module CommentFacts.
Import Str Num Re Obj Mesa Shape Forms Kinds.
Import StrFacts DictFacts ReFacts JoinFacts TextFacts.

Lemma no_feed_Forall ls :
  no_feed ls = true -> Forall (fun l => contains nl l = false) ls.
Proof.
  unfold no_feed. rewrite forallb_forall, Forall_forall. intros H l Hl.
  apply negb_true_iff. now apply H.
Qed.

Lemma filtered_lines_join ls :
  ls <> [] -> no_feed ls = true -> filtered_lines (join [nl] ls) = filter kept ls.
Proof.
  intros N H. unfold filtered_lines. rewrite split_join; [reflexivity|exact N|].
  now apply no_feed_Forall.
Qed.

Lemma split_contains a sep s :
  contains a s = false -> Forall (fun l => contains a l = false) (split sep s).
Proof.
  induction s as [|c s IH]; intros H; [repeat constructor|].
  rewrite contains_cons in H. apply orb_false_iff in H as [Hc H].
  specialize (IH H). cbn [split]. destruct (Ascii.eqb c sep).
  - constructor; [reflexivity|exact IH].
  - destruct (split sep s) as [|p ps]; [repeat constructor; rewrite contains_cons, Hc; reflexivity|].
    inversion IH; subst. constructor; [|assumption].
    rewrite contains_cons, Hc. assumption.
Qed.

Lemma filter_Forall {A} (P : A -> Prop) f l : Forall P l -> Forall P (filter f l).
Proof.
  induction 1 as [|x l Hx H IH]; simpl; [constructor|].
  destruct (f x); [constructor|]; assumption.
Qed.

(** A text without [&] holds no group. *)
Lemma findall_no_group text :
  contains "&" text = false ->
  Re.findall group_re (join [nl] (filtered_lines text)) = [].
Proof.
  intros H. unfold Re.findall, group_re. apply scan_first_char.
  apply contains_join; [reflexivity|].
  unfold filtered_lines. apply filter_Forall. now apply split_contains.
Qed.

End CommentFacts.

Module BoundsFacts.
Import Str Num Re Obj Mesa Shape Forms Kinds.
Import StrFacts DictFacts ListFacts.

Lemma list_setitem_outcome l i v :
  let n := Z.of_nat (length l) in
  match list_setitem l i v with
  | Ok l' => - n <= i < n /\ length l' = length l
  | Raise e => (i < - n \/ n <= i) /\ e = IndexError
  end.
Proof.
  cbv zeta. unfold list_setitem.
  set (n := Z.of_nat (length l)). set (j := if i <? 0 then i + n else i).
  assert (Hj : j = if i <? 0 then i + n else i) by reflexivity.
  destruct ((0 <=? j) && (j <? n)) eqn:E.
  - apply andb_true_iff in E as [E1 E2]. apply Z.leb_le in E1. apply Z.ltb_lt in E2.
    split; [destruct (i <? 0) eqn:Ei; [apply Z.ltb_lt in Ei|apply Z.ltb_ge in Ei]; lia|].
    rewrite length_app. cbn [length]. rewrite length_firstn, length_skipn.
    subst n. lia.
  - split; [|reflexivity]. apply andb_false_iff in E.
    destruct (i <? 0) eqn:Ei; [apply Z.ltb_lt in Ei|apply Z.ltb_ge in Ei];
      destruct E as [E|E]; try apply Z.leb_gt in E; try apply Z.ltb_ge in E; lia.
Qed.

Lemma fill_list_outcome (vs : list (Z * obj)) : forall (l0 : list obj),
  let n := Z.of_nat (length l0) in
  match fill_list n (index_items vs) l0 with
  | Ok l => (forall i, In i (map fst vs) -> - n <= i < n) /\ length l = length l0
  | Raise e =>
      exists i, In i (map fst vs)
                /\ ((n <= i /\ e = NameError (lit "variable"))
                    \/ (i < - n /\ e = IndexError))
  end.
Proof.
  induction vs as [|[i v] vs IH]; intros l0; cbv zeta.
  - split; [intros i []|reflexivity].
  - cbn [index_items map fst snd fill_list].
    destruct (Z.of_nat (length l0) <=? i) eqn:E.
    + apply Z.leb_le in E. exists i. split; [now left|]. left. now split.
    + apply Z.leb_gt in E. pose proof (list_setitem_outcome l0 i v) as S.
      cbv zeta in S. destruct (list_setitem l0 i v) as [l1|e]; cbn [bind].
      * destruct S as [Hi L1]. specialize (IH l1). cbv zeta in IH.
        rewrite L1 in IH.
        fold (index_items vs).
        destruct (fill_list (Z.of_nat (length l0)) (index_items vs) l1) as [l|e].
        -- destruct IH as [Hr L]. split; [|exact L].
           intros k [<-|Hk]; [exact Hi|now apply Hr].
        -- destruct IH as (k & Hk & Hc). exists k. split; [now right|exact Hc].
      * destruct S as [[Hlt|Hge] ->]; [|lia].
        exists i. split; [now left|]. right. now split.
Qed.

Lemma check_value_bounds (vs : list (Z * obj)) :
  let n := Z.of_nat (length vs) in
  match check_value (is_list_dict vs) with
  | Ok v => (forall i, In i (map fst vs) -> - n <= i < n)
            /\ exists l, v = PyList l /\ length l = length vs
  | Raise e =>
      exists i, In i (map fst vs)
                /\ ((n <= i /\ e = NameError (lit "variable"))
                    \/ (i < - n /\ e = IndexError))
  end.
Proof.
  cbv zeta. unfold is_list_dict, check_value.
  cbn [dget Dict.get key_eqb lit list_ascii_of_string].
  rewrite StrFacts.eqb_refl. cbn [truthy ddel Dict.del key_eqb].
  rewrite StrFacts.eqb_refl.
  assert (Ln : length (index_items vs) = length vs) by apply length_map.
  rewrite Ln.
  pose proof (fill_list_outcome vs (repeat PyNone (length vs))) as H.
  cbv zeta in H. rewrite repeat_length in H.
  destruct (fill_list _ _ _) as [l|e]; cbn [bind]; [|exact H].
  destruct H as [Hr L]. split; [exact Hr|]. exists l. now split.
Qed.

End BoundsFacts.
Module BlockFacts.
Import Str Num Re Obj Mesa Shape Forms Kinds.
Import StrFacts DictFacts ReFacts JoinFacts ValueLineFacts GroupFacts TextFacts.

Lemma plain_line_facts b :
  plain_line b = true ->
  contains nl b = false /\ contains "&" b = false
  /\ startswith (strip b) (lit "!") = false.
Proof.
  unfold plain_line. intros H. apply andb_true_iff in H as [H H3].
  apply andb_true_iff in H as [H1 H2].
  apply negb_true_iff in H1, H2, H3. auto.
Qed.

Lemma plain_lines_Forall (P : str -> Prop) bs :
  (forall b, plain_line b = true -> P b) ->
  forallb plain_line bs = true -> Forall P bs.
Proof.
  intros HP H. rewrite forallb_forall in H. apply Forall_forall.
  intros b Hb. apply HP, H, Hb.
Qed.

Lemma filtered_block gname bs :
  group_name_ok gname = true -> forallb plain_line bs = true ->
  join [nl] (filtered_lines (dumped gname bs)) = dumped gname bs.
Proof.
  intros Hg F. unfold filtered_lines, dumped.
  destruct (group_name_facts gname Hg) as (A & S & N & _).
  set (L := [lit "&" ++ gname] ++ bs ++ [lit "/ ! end of " ++ gname ++ lit " namelist"]).
  assert (NL : L <> []) by discriminate.
  rewrite <- (join_snoc_empty [nl] L NL).
  assert (Hnl : Forall (fun l => contains nl l = false) (L ++ [[]])).
  { unfold L. repeat (apply Forall_app; split).
    - constructor; [|constructor].
      change (lit "&" ++ gname) with ("&"%char :: gname).
      rewrite contains_cons, N. reflexivity.
    - apply plain_lines_Forall; [|exact F]. intros b Hb.
      now destruct (plain_line_facts b Hb).
    - constructor; [|constructor].
      change (lit "/ ! end of " ++ gname ++ lit " namelist")
        with ("/"%char :: trailer gname).
      rewrite contains_cons, trailer_contains by (exact N || reflexivity). reflexivity.
    - constructor; [reflexivity|constructor]. }
  rewrite split_join; [|now destruct L|exact Hnl].
  rewrite filter_all; [reflexivity|].
  unfold L. repeat (apply Forall_app; split).
  - constructor; [|constructor]. lits. cbn [app].
    rewrite startswith_head; reflexivity.
  - apply plain_lines_Forall; [|exact F]. intros b Hb.
    destruct (plain_line_facts b Hb) as (_ & _ & H). lits. now rewrite H.
  - constructor; [|constructor]. lits. cbn [app].
    rewrite startswith_head; reflexivity.
  - constructor; [reflexivity|constructor].
Qed.

Lemma findall_block gname bs :
  group_name_ok gname = true -> forallb plain_line bs = true ->
  map (fun m => hd [] (snd m)) (Re.findall group_re (dumped gname bs))
  = [block_of gname bs].
Proof.
  intros Hg F. destruct (group_name_facts gname Hg) as (A & S & N & _).
  rewrite dumped_shape, group_scan; [reflexivity| | | |].
  - unfold block_of. now destruct (join [nl] (gname :: bs)).
  - unfold block_of. rewrite contains_app. cbn [contains orb].
    rewrite contains_join; [reflexivity|reflexivity|].
    constructor; [exact A|].
    apply plain_lines_Forall; [|exact F]. intros b Hb.
    now destruct (plain_line_facts b Hb) as (_ & ? & _).
  - rewrite contains_app, trailer_contains by (exact A || reflexivity). reflexivity.
  - rewrite contains_app, trailer_contains by (exact S || reflexivity). reflexivity.
Qed.

Lemma parse_block_lines gname bs ls g :
  group_name_ok gname = true -> forallb plain_line bs = true ->
  assemble (bs ++ [[]]) [] = Ok ls ->
  process_lines [] ls = Ok g ->
  parse_block (block_of gname bs) = Ok (gname, g).
Proof.
  intros Hg F A P. destruct (group_name_facts gname Hg) as (_ & _ & N & Sp).
  unfold parse_block, block_of.
  rewrite <- (join_snoc_empty [nl] (gname :: bs)) by discriminate.
  rewrite split_join; [|discriminate|].
  - cbn [app hd tl].
    match goal with
    | |- context [assemble ?x ?y] =>
        replace (assemble x y) with (Ok ls) by (symmetry; exact A)
    end.
    cbn [bind app]. rewrite P. cbn [bind]. now rewrite strip_no_space.
  - cbn [app]. constructor; [exact N|]. apply Forall_app. split.
    + apply plain_lines_Forall; [|exact F]. intros b Hb.
      now destruct (plain_line_facts b Hb).
    + constructor; [reflexivity|constructor].
Qed.

(** Reading the text of one group from its lines. *)
Lemma parse_group_text gname bs ls g g' :
  group_name_ok gname = true -> forallb plain_line bs = true ->
  assemble (bs ++ [[]]) [] = Ok ls ->
  process_lines [] ls = Ok g -> check_items g g = Ok g' ->
  parse (dumped gname bs) = Ok (Some [(gname, g')]).
Proof.
  intros Hg F A P C. unfold parse, Namelist.
  replace (Str.eqb (dumped gname bs) []) with false
    by (rewrite dumped_shape; reflexivity).
  rewrite andb_false_r.
  rewrite (filtered_block gname bs Hg F).
  rewrite (findall_block gname bs Hg F).
  cbn [parse_blocks]. rewrite (parse_block_lines gname bs ls g Hg F A P).
  cbn [bind]. unfold resolve_name. cbn [omem Dict.mem Dict.get].
  unfold _check_lists. cbn [oset Dict.set check_groups]. rewrite C. cbn [bind].
  cbn [oset Dict.set check_groups]. rewrite eqb_refl. reflexivity.
Qed.

End BlockFacts.
Module CommaFacts.
Import Str Num Re Obj Mesa Shape StrFacts ReFacts NumFacts ComplexFacts Round3Facts FormatFacts TokenFacts ScalarFacts JoinFacts SpaceFacts ListValueFacts AssignFacts LineFacts ValueLineFacts.
Import Forms Kinds.

(** A comma is never part of the digits [digitpart] reads. *)
Lemma digitpart_comma n : forall s,
  (length s <= n)%nat -> In comma s -> In comma (snd (digitpart s)).
Proof.
  induction n as [|n IH]; intros s L H.
  - destruct s; [destruct H|simpl in L; lia].
  - destruct s as [|c s]; [destruct H|]. simpl in L.
    simpl digitpart. destruct (isdigit c) eqn:Hc; [|exact H].
    assert (Hs : In comma s).
    { destruct H as [->|H]; [discriminate Hc|exact H]. }
    destruct s as [|u [|c2 t]].
    + destruct Hs.
    + specialize (IH [u] ltac:(simpl in *; lia) Hs).
      destruct (digitpart [u]). exact IH.
    + destruct (Ascii.eqb u "_" && isdigit c2) eqn:E.
      * apply andb_true_iff in E as [Eu _]. apply Ascii.eqb_eq in Eu. subst u.
        assert (Hs' : In comma (c2 :: t)).
        { destruct Hs as [Hs|Hs]; [discriminate|exact Hs]. }
        specialize (IH (c2 :: t) ltac:(simpl in *; lia) Hs').
        destruct (digitpart (c2 :: t)). exact IH.
      * specialize (IH (u :: c2 :: t) ltac:(simpl in *; lia) Hs).
        destruct (digitpart (u :: c2 :: t)). exact IH.
Qed.

Lemma digitpart_comma_rest s ds r :
  digitpart s = (ds, r) -> In comma s -> r <> [].
Proof.
  intros E H. pose proof (digitpart_comma (length s) s (le_n _) H) as B.
  rewrite E in B. simpl in B. destruct r; [destruct B|discriminate].
Qed.

Lemma split_sign_comma c s :
  In comma s -> In comma (snd (split_sign (c :: s))).
Proof.
  intros H. unfold split_sign.
  destruct (Ascii.eqb c "-"); [exact H|].
  destruct (Ascii.eqb c "+"); [exact H|]. now right.
Qed.

(** [int()] refuses a text with a comma inside. *)
Lemma int_none_comma c s :
  strip_by numspace (c :: s) = c :: s -> In comma s -> Num.int (c :: s) = None.
Proof.
  intros E H. unfold Num.int. rewrite E.
  pose proof (split_sign_comma c s H) as B.
  destruct (split_sign (c :: s)) as [neg r]. simpl in B.
  destruct (digitpart r) as [ds r'] eqn:D.
  pose proof (digitpart_comma_rest r ds r' D B).
  destruct ds; [reflexivity|]. destruct r'; [contradiction|reflexivity].
Qed.

Lemma eqb_lower_comma r (w : string) :
  In comma r -> ~ In comma (lit w) -> Str.eqb (map lower r) (lit w) = false.
Proof.
  intros H N. apply eqb_neq. intros E. apply N. rewrite <- E.
  change comma with (lower comma). now apply in_map.
Qed.

Lemma float_number_comma neg r : In comma r -> float_number neg r = None.
Proof.
  intros H. unfold float_number.
  destruct (digitpart r) as [ip r1] eqn:D1.
  pose proof (digitpart_comma (length r) r (le_n _) H) as B1.
  rewrite D1 in B1. simpl in B1.
  destruct r1 as [|c r1']; [destruct B1|].
  assert (B2 : forall fp r2,
             (if Ascii.eqb c "." then digitpart r1' else ([], c :: r1')) = (fp, r2) ->
             In comma r2).
  { intros fp r2 E. destruct (Ascii.eqb c ".") eqn:Ec.
    - apply Ascii.eqb_eq in Ec. subst c.
      destruct B1 as [B1|B1]; [discriminate|].
      pose proof (digitpart_comma (length r1') r1' (le_n _) B1) as B.
      now rewrite E in B.
    - inversion E; subst. exact B1. }
  match goal with
  | |- context [let (_, _) := ?X in _] =>
      destruct X as [fp r2] eqn:Eq
  end.
  specialize (B2 fp r2 Eq).
  destruct (ip ++ fp); [reflexivity|].
  destruct r2 as [|c2 r3]; [destruct B2|].
  destruct (Ascii.eqb c2 "e" || Ascii.eqb c2 "E") eqn:Ee; [|reflexivity].
  assert (B3 : In comma r3).
  { destruct B2 as [->|B2]; [discriminate Ee|exact B2]. }
  destruct r3 as [|c3 r3']; [destruct B3|].
  assert (B4 : In comma (snd (split_sign (c3 :: r3')))).
  { unfold split_sign.
    destruct (Ascii.eqb c3 "-") eqn:E1.
    - apply Ascii.eqb_eq in E1. subst. destruct B3 as [B3|B3]; [discriminate|exact B3].
    - destruct (Ascii.eqb c3 "+") eqn:E2; [|exact B3].
      apply Ascii.eqb_eq in E2. subst. destruct B3 as [B3|B3]; [discriminate|exact B3]. }
  destruct (split_sign (c3 :: r3')) as [eneg r4]. simpl in B4.
  destruct (digitpart r4) as [es r5] eqn:D5.
  pose proof (digitpart_comma_rest r4 es r5 D5 B4).
  destruct es; [reflexivity|]. destruct r5; [contradiction|reflexivity].
Qed.

(** [float()] refuses a text with a comma inside. *)
Lemma float_none_comma c s :
  strip_by numspace (c :: s) = c :: s -> In comma s -> Num.float (c :: s) = None.
Proof.
  intros E H. unfold Num.float. rewrite E.
  pose proof (split_sign_comma c s H) as B.
  destruct (split_sign (c :: s)) as [neg r]. simpl in B.
  rewrite !eqb_lower_comma; try assumption.
  - simpl. now apply float_number_comma.
  - vm_compute. intuition discriminate.
  - vm_compute. intuition discriminate.
  - vm_compute. intuition discriminate.
Qed.

(** A text with a comma inside, and no parenthesis or quote in front, is
    no single value. *)
Lemma parse_value_comma c m c' :
  tok_char c = true -> tok_char c' = true -> In comma m ->
  _parse_value (c :: m ++ [c'])
  = Raise (NoSingleValueFoundException (c :: m ++ [c'])).
Proof.
  intros Hc Hc' Hb.
  destruct (tok_char_plain c Hc) as (_ & Hs & Hq & Hdq & _ & _ & _ & Hp & _).
  destruct (tok_char_plain c' Hc') as (_ & Hs' & _).
  assert (Hin : In comma (m ++ [c'])) by (apply in_or_app; now left).
  unfold _parse_value.
  rewrite int_none_comma; [|now apply strip_by_id|exact Hin].
  assert (E : replace "d" "E" (c :: m ++ [c'])
              = d_to_E c :: replace "d" "E" m ++ [d_to_E c']).
  { unfold replace. simpl. now rewrite map_app. }
  rewrite E, float_none_comma.
  - rewrite complex_none_head by exact Hp.
    assert (B : forall w : string, ~ In comma (lit w) ->
                                   Str.eqb (c :: m ++ [c']) (lit w) = false).
    { intros w N. apply eqb_neq. intros F. apply N. rewrite <- F. now right. }
    rewrite !B by (vm_compute; intuition discriminate).
    unfold quoted_by. cbn [startswith]. rewrite Hq, Hdq. reflexivity.
  - apply strip_by_id; now apply tok_char_d_to_E.
  - apply in_or_app. left. change comma with (d_to_E comma).
    unfold replace. apply (in_map d_to_E). exact Hb.
Qed.

(** *** Values and separators in turn *)

Lemma token_num_tok t : token t = true -> num_tok t.
Proof.
  unfold token. intros H. apply andb_true_iff in H as [N H]. split; [|exact H].
  intros ->. discriminate N.
Qed.

Lemma entries_ok_parts t more :
  entries_ok t more = true -> num_tok t /\ parts_ok more.
Proof.
  unfold entries_ok. intros H. apply andb_true_iff in H as [Ht H].
  split; [now apply token_num_tok|].
  apply Forall_forall. intros st Hst. rewrite forallb_forall in H.
  specialize (H st Hst). apply andb_true_iff in H as [H1 H2].
  split; [exact H1|now apply token_num_tok].
Qed.

Lemma separator_head s :
  separator s = true ->
  exists x s', s = x :: s' /\ sep_char x = true /\ forallb sep_char s' = true.
Proof.
  unfold separator. destruct s as [|x s']; [discriminate|].
  cbn [Str.eqb negb andb forallb]. intros H. apply andb_true_iff in H as [Hx H].
  now exists x, s'.
Qed.

Lemma sep_char_cases x : sep_char x = true -> x = comma \/ x = blank.
Proof.
  unfold sep_char. intros H. apply orb_true_iff in H as [H|H];
    apply Ascii.eqb_eq in H; auto.
Qed.

Lemma listed_last : forall more t,
  num_tok t -> parts_ok more ->
  exists m c, listed t more = m ++ [c] /\ tok_char c = true.
Proof.
  induction more as [|[s t'] more IH]; intros t Ht H.
  - now apply num_tok_last.
  - inversion H as [|? ? [_ Ht'] H']; subst. cbn [snd] in Ht'.
    destruct (IH t' Ht' H') as (m & c & E & Hc).
    exists (t ++ s ++ m), c. split; [|exact Hc].
    cbn [listed]. rewrite E. now rewrite <- !app_assoc.
Qed.

(** A value followed by others: a character of a number at each end and a
    comma or a blank inside. *)
Lemma listed_ends t more :
  num_tok t -> parts_ok more -> more <> [] ->
  exists c m c', listed t more = c :: m ++ [c']
                 /\ tok_char c = true /\ tok_char c' = true
                 /\ (In comma m \/ In blank m).
Proof.
  intros Ht H N. destruct more as [|[s t'] more]; [contradiction|].
  inversion H as [|? ? [Hs Ht'] H']; subst. cbn [fst snd] in Hs, Ht'.
  destruct (num_tok_head t Ht) as (c & t0 & -> & Hc).
  destruct (separator_head s Hs) as (x & s' & -> & Hx & _).
  destruct (listed_last more t' Ht' H') as (m & c' & E & Hc').
  exists c, (t0 ++ x :: s' ++ m), c'. cbn [listed]. rewrite E.
  split; [|split; [exact Hc|split; [exact Hc'|]]].
  - cbn [app]. f_equal. rewrite <- app_assoc. cbn [app]. now rewrite <- app_assoc.
  - destruct (sep_char_cases x Hx) as [->| ->]; [left|right];
      apply in_or_app; right; now left.
Qed.

Lemma parse_value_listed t more :
  num_tok t -> parts_ok more -> more <> [] ->
  _parse_value (listed t more)
  = Raise (NoSingleValueFoundException (listed t more)).
Proof.
  intros Ht H N.
  destruct (listed_ends t more Ht H N) as (c & m & c' & -> & Hc & Hc' & [I|I]).
  - now apply parse_value_comma.
  - now apply parse_value_blank.
Qed.

Lemma listed_forallb (p : ascii -> bool) : forall more t,
  forallb p t = true ->
  Forall (fun st => forallb p (fst st) = true /\ forallb p (snd st) = true) more ->
  forallb p (listed t more) = true.
Proof.
  induction more as [|[s t'] more IH]; intros t Ht H; [exact Ht|].
  inversion H as [|? ? [Hs Ht'] H']; subst. cbn [fst snd] in Hs, Ht'.
  cbn [listed]. rewrite !forallb_app, Ht, Hs. now apply IH.
Qed.

Lemma part_char_plain c :
  tok_char c || sep_char c = true ->
  vchar c = true /\ Ascii.eqb c quote = false /\ Ascii.eqb c "(" = false.
Proof.
  destruct c as [[] [] [] [] [] [] [] []]; vm_compute; intuition congruence.
Qed.

Lemma listed_chars t more :
  num_tok t -> parts_ok more ->
  forallb (fun c => tok_char c || sep_char c) (listed t more) = true.
Proof.
  intros [_ Ht] H. apply listed_forallb.
  - eapply forallb_impl; [|exact Ht]. intros c ->. reflexivity.
  - eapply Forall_impl; [|exact H]. intros [s t'] [Hs [_ Ht']]. cbn [fst snd] in *.
    split.
    + destruct (separator_head s Hs) as (x & s' & -> & Hx & Hs').
      cbn [forallb]. rewrite Hx, orb_true_r. cbn [andb].
      eapply forallb_impl; [|exact Hs']. intros c ->. apply orb_true_r.
    + eapply forallb_impl; [|exact Ht']. intros c ->. reflexivity.
Qed.

Lemma listed_vtext t more :
  num_tok t -> parts_ok more -> more <> [] -> vtext (listed t more).
Proof.
  intros Ht H N. split; [|split].
  - eapply forallb_impl; [|exact (listed_chars t more Ht H)].
    intros c Hc. now destruct (part_char_plain c Hc).
  - destruct (listed_ends t more Ht H N) as (c & m & c' & -> & Hc & _).
    exists c, (m ++ [c']). split; [reflexivity|].
    now destruct (tok_char_vchar c Hc).
  - destruct (listed_ends t more Ht H N) as (c & m & c' & -> & _ & Hc' & _).
    exists (c :: m), c'. split; [reflexivity|].
    now destruct (tok_char_vchar c' Hc').
Qed.

(** *** The entries of the value *)

Lemma replace_listed : forall more t,
  num_tok t -> parts_ok more ->
  replace comma blank (listed t more) = listed t (map blanked more).
Proof.
  assert (T : forall t, num_tok t -> replace comma blank t = t).
  { intros t Ht. apply contains_false_replace. apply (num_tok_contains comma t); [|exact Ht].
    intros c Hc. now destruct (tok_char_plain c Hc) as (_ & _ & _ & _ & _ & _ & _ & _ & ? & _). }
  induction more as [|[s t'] more IH]; intros t Ht H; [now apply T|].
  inversion H as [|? ? [Hs Ht'] H']; subst. cbn [fst snd] in Hs, Ht'.
  cbn [listed map blanked fst snd]. rewrite !replace_app, T by exact Ht.
  now rewrite IH.
Qed.

Lemma split_ws_spaces w rest :
  forallb isspace w = true -> split_ws (w ++ rest) = split_ws rest.
Proof.
  induction w as [|c w IH]; [reflexivity|].
  cbn [forallb]. intros H. apply andb_true_iff in H as [Hc H].
  cbn [app split_ws]. rewrite Hc. now apply IH.
Qed.

Lemma split_ws_gap t w rest :
  no_space t -> w <> [] -> forallb isspace w = true ->
  split_ws (t ++ w ++ rest) = t :: split_ws rest.
Proof.
  intros Ht N H. destruct w as [|x w]; [contradiction|].
  cbn [forallb] in H. apply andb_true_iff in H as [Hx H].
  destruct Ht as [Nt Ht]. induction t as [|c t IH]; [contradiction|].
  simpl in Ht. apply andb_true_iff in Ht as [Hc Ht]. apply negb_true_iff in Hc.
  destruct t as [|c' t].
  - cbn [app split_ws]. rewrite Hc, Hx. f_equal. now apply split_ws_spaces.
  - pose proof Ht as Ht'. simpl in Ht'. apply andb_true_iff in Ht' as [Hc' _].
    apply negb_true_iff in Hc'.
    assert (E := IH ltac:(discriminate) Ht).
    change ((c :: c' :: t) ++ (x :: w) ++ rest)
      with (c :: c' :: (t ++ (x :: w) ++ rest)).
    rewrite split_ws_cons2 by assumption.
    change (c' :: t ++ (x :: w) ++ rest) with ((c' :: t) ++ (x :: w) ++ rest).
    now rewrite E.
Qed.

Lemma blanked_space s :
  separator s = true ->
  replace comma blank s <> [] /\ forallb isspace (replace comma blank s) = true.
Proof.
  intros Hs. destruct (separator_head s Hs) as (x & s' & -> & Hx & Hs').
  split; [discriminate|].
  assert (B : forall c, sep_char c = true ->
                        isspace (if Ascii.eqb c comma then blank else c) = true).
  { intros c Hc. destruct (sep_char_cases c Hc) as [->| ->]; reflexivity. }
  unfold replace. cbn [map forallb]. rewrite (B x Hx). cbn [andb].
  clear Hs Hx. induction s' as [|c s' IH]; [reflexivity|].
  cbn [forallb] in Hs'. apply andb_true_iff in Hs' as [Hc Hs'].
  cbn [map forallb]. rewrite (B c Hc). now apply IH.
Qed.

Lemma split_ws_listed : forall more t,
  num_tok t -> parts_ok more ->
  split_ws (listed t (map blanked more)) = t :: map snd more.
Proof.
  induction more as [|[s t'] more IH]; intros t Ht H.
  - apply split_ws_single. now apply num_tok_no_space.
  - inversion H as [|? ? [Hs Ht'] H']; subst. cbn [fst snd] in Hs, Ht'.
    cbn [map listed blanked fst snd].
    destruct (blanked_space s Hs) as [N Sp].
    rewrite split_ws_gap; [|now apply num_tok_no_space|exact N|exact Sp].
    now rewrite IH.
Qed.

(** The entries of values separated by commas and blanks are the values. *)
Lemma inline_entries_listed t more :
  num_tok t -> parts_ok more ->
  inline_entries (listed t more) = t :: map snd more.
Proof.
  intros Ht H. unfold inline_entries.
  pose proof (listed_chars t more Ht H) as C.
  assert (Q : contains quote (listed t more) = false).
  { eapply forallb_contains; [|exact C]. intros c Hc.
    now destruct (part_char_plain c Hc) as (_ & ? & _). }
  assert (P : contains "(" (listed t more) = false).
  { eapply forallb_contains; [|exact C]. intros c Hc.
    now destruct (part_char_plain c Hc) as (_ & _ & ?). }
  rewrite (count_zero _ _ Q), (count_zero _ _ P). cbn [Nat.eqb orb negb].
  change (replace "," " " (listed t more)) with (replace comma blank (listed t more)).
  rewrite replace_listed by assumption. now apply split_ws_listed.
Qed.

(** The line of such a value gives the dictionary of a list. *)
Lemma process_line_listed n t more vs :
  var_name_ok n = true -> num_tok t -> parts_ok more -> more <> [] ->
  Forall2 parses (t :: map snd more) vs ->
  process_line [] (line n (listed t more))
  = Ok [(n, is_list_dict (enum_from 0 vs))].
Proof.
  intros Hn Ht H N F.
  rewrite process_line_value by (exact Hn || now apply listed_vtext).
  rewrite parse_value_listed by assumption.
  rewrite inline_entries_listed by assumption.
  apply (assign_entries_all [] n (t :: map snd more) vs); [reflexivity|discriminate|exact F].
Qed.

End CommaFacts.

Module ContinueFacts.
Import Str Num Re Obj Mesa Shape Forms Kinds.
Import StrFacts DictFacts ReFacts TokenFacts ScalarFacts JoinFacts ValueLineFacts GroupFacts TextFacts BlockFacts.

(** *** The ends of a stripped text *)

Lemma lstrip_by_first p s : head_ok p (lstrip_by p s).
Proof.
  induction s as [|c s IH]; simpl; [exact I|].
  destruct (p c) eqn:E; [exact IH|exact E].
Qed.

Lemma lstrip_by_suffix p s : exists w, s = w ++ lstrip_by p s.
Proof.
  induction s as [|c s [w IH]]; simpl; [now exists []|].
  destruct (p c); [|now exists []].
  exists (c :: w). simpl. now rewrite <- IH.
Qed.

Lemma strip_head_ok p s : head_ok p (strip_by p s).
Proof.
  unfold strip_by, rstrip_by.
  pose proof (lstrip_by_first p s) as H.
  set (t := lstrip_by p s) in *.
  destruct (lstrip_by_suffix p (rev t)) as [w E].
  set (u := lstrip_by p (rev t)) in *.
  apply (f_equal (@rev ascii)) in E. rewrite rev_involutive, rev_app_distr in E.
  destruct (rev u) as [|c r] eqn:R; [exact I|].
  rewrite E in H. exact H.
Qed.

Lemma strip_last_ok p s : head_ok p (rev (strip_by p s)).
Proof.
  unfold strip_by, rstrip_by. rewrite rev_involutive. apply lstrip_by_first.
Qed.

(** *** Counting a character *)

Lemma count_cons a c s :
  count a (c :: s) = ((if Ascii.eqb a c then 1 else 0) + count a s)%nat.
Proof. unfold count. simpl. now destruct (Ascii.eqb a c). Qed.

Lemma count_rev a s : count a (rev s) = count a s.
Proof.
  induction s as [|c s IH]; [reflexivity|].
  simpl rev. rewrite count_app, IH, !count_cons.
  change (count a []) with 0%nat. lia.
Qed.

Lemma count_lstrip_by p a s :
  p a = false -> count a (lstrip_by p s) = count a s.
Proof.
  intros H. induction s as [|c s IH]; [reflexivity|].
  simpl. destruct (p c) eqn:E; [|reflexivity].
  rewrite IH, count_cons.
  destruct (Ascii.eqb a c) eqn:Q; [|reflexivity].
  apply Ascii.eqb_eq in Q. congruence.
Qed.

Lemma count_strip a s : isspace a = false -> count a (strip s) = count a s.
Proof.
  intros H. unfold strip, strip_by, rstrip_by.
  now rewrite count_rev, count_lstrip_by, count_rev, count_lstrip_by.
Qed.

Lemma count_contains a s : count a s = 0%nat -> contains a s = false.
Proof.
  induction s as [|c s IH]; [reflexivity|].
  rewrite count_cons, contains_cons.
  destruct (Ascii.eqb a c); [discriminate|]. exact IH.
Qed.

Lemma split_length sep s : length (split sep s) = S (count sep s).
Proof.
  induction s as [|c s IH]; [reflexivity|].
  rewrite count_cons. simpl split. rewrite (Ascii.eqb_sym c sep).
  destruct (Ascii.eqb sep c).
  - simpl. now rewrite IH.
  - destruct (split sep s) as [|p ps]; [discriminate|]. simpl in *. exact IH.
Qed.

Lemma split_two sep s :
  count sep s = 1%nat -> exists k v, split sep s = [k; v].
Proof.
  intros H. pose proof (split_length sep s) as L. rewrite H in L.
  destruct (split sep s) as [|k [|v [|x r]]]; try discriminate.
  now exists k, v.
Qed.

Lemma split_not_two sep s :
  count sep s <> 1%nat ->
  match split sep s with [_; _] => False | _ => True end.
Proof.
  intros H. pose proof (split_length sep s) as L.
  destruct (split sep s) as [|k [|v [|x r]]]; try exact I.
  simpl in L. apply H. lia.
Qed.

(** *** The first loop over the lines of a block *)

(** A line with one [=] is kept as a line of its own. *)
Lemma assemble_one_equals b rest bl :
  count "=" b = 1%nat -> startswith (strip b) (lit "!") = false ->
  assemble (b :: rest) bl = assemble rest (bl ++ [strip b]).
Proof.
  intros C B. cbn [assemble]. rewrite B.
  destruct (split_two "="%char (strip b)) as (k & v & E).
  { now rewrite count_strip. }
  rewrite E.
  destruct (strip b) as [|x r]; [discriminate E|]. reflexivity.
Qed.

(** A line which is not split in two at [=] is added to the line before it
    when that one ends with a comma, and is an error otherwise. *)
Lemma assemble_stray b rest bl :
  count "=" b <> 1%nat -> strip b <> [] ->
  startswith (strip b) (lit "!") = false ->
  assemble (b :: rest) bl
  = match bl with
    | [] => Raise IndexError
    | _ :: _ =>
        if endswith (last bl []) (lit ",")
        then assemble rest (append_to_last bl (strip b))
        else Raise ValueError
    end.
Proof.
  intros C N B. cbn [assemble]. rewrite B.
  assert (C' : count "=" (strip b) <> 1%nat) by now rewrite count_strip.
  pose proof (split_not_two "="%char (strip b) C') as S2.
  destruct (strip b) as [|x r] eqn:E; [contradiction|].
  cbn [Str.eqb].
  destruct (split "=" (x :: r)) as [|k [|v [|y q]]]; try reflexivity.
  contradiction.
Qed.

Lemma append_to_last_snoc bl l c : append_to_last (bl ++ [l]) c = bl ++ [l ++ c].
Proof.
  unfold append_to_last. now rewrite removelast_last, last_last.
Qed.

Lemma assemble_continued b1 b2 rest bl :
  count "=" b1 = 1%nat -> startswith (strip b1) (lit "!") = false ->
  endswith (strip b1) (lit ",") = true ->
  count "=" b2 = 0%nat -> strip b2 <> [] ->
  startswith (strip b2) (lit "!") = false ->
  assemble (b1 :: b2 :: rest) bl = assemble rest (bl ++ [strip b1 ++ strip b2]).
Proof.
  intros C1 B1 E1 C2 N2 B2.
  rewrite assemble_one_equals by assumption.
  rewrite assemble_stray; [|lia|exact N2|exact B2].
  destruct (bl ++ [strip b1]) as [|x r] eqn:E.
  { destruct bl; discriminate E. }
  rewrite <- E, last_last, E1. now rewrite append_to_last_snoc.
Qed.

Lemma strip_joined b1 b2 :
  count "=" b1 = 1%nat -> strip b2 <> [] ->
  strip (strip b1 ++ strip b2) = strip b1 ++ strip b2.
Proof.
  intros C N. unfold strip in *.
  destruct (strip_by isspace b1) as [|a x] eqn:A.
  { pose proof (count_strip "="%char b1 eq_refl) as Q. unfold strip in Q.
    rewrite A, C in Q. discriminate Q. }
  destruct (strip_by isspace b2) as [|b y] eqn:B; [contradiction|].
  apply strip_ends.
  - pose proof (strip_head_ok isspace b1) as H. rewrite A in H. exact H.
  - apply head_ok_rev_app; [discriminate|].
    rewrite <- B. apply strip_last_ok.
Qed.

Lemma startswith_app_one s t c :
  s <> [] -> startswith (s ++ t) [c] = startswith s [c].
Proof. destruct s; [contradiction|reflexivity]. Qed.

Lemma assemble_joined b1 b2 rest bl :
  count "=" b1 = 1%nat -> startswith (strip b1) (lit "!") = false ->
  count "=" b2 = 0%nat -> strip b2 <> [] ->
  assemble ((strip b1 ++ strip b2) :: rest) bl
  = assemble rest (bl ++ [strip b1 ++ strip b2]).
Proof.
  intros C1 B1 C2 N2.
  assert (S1 : strip b1 <> []).
  { intros E. pose proof (count_strip "="%char b1 eq_refl) as Q.
    rewrite E, C1 in Q. discriminate Q. }
  rewrite assemble_one_equals.
  - now rewrite strip_joined.
  - rewrite count_app, !count_strip by reflexivity. lia.
  - rewrite strip_joined by assumption. lits.
    rewrite startswith_app_one by exact S1. exact B1.
Qed.

(** Lines in front change nothing. *)
Lemma assemble_front bs X Y :
  (forall bl, assemble X bl = assemble Y bl) ->
  forall bl, assemble (bs ++ X) bl = assemble (bs ++ Y) bl.
Proof.
  intros H. induction bs as [|b bs IH]; intros bl; [apply H|].
  cbn [app assemble].
  destruct (Str.eqb (strip b) []); [apply IH|].
  destruct (startswith (strip b) (lit "!")); [apply IH|].
  destruct (split "=" (strip b)) as [|k [|v [|y q]]];
    try apply IH;
    (destruct bl; [reflexivity|];
     match goal with |- context [endswith ?a ?b] => destruct (endswith a b) end;
     [apply IH|reflexivity]).
Qed.

(** *** The text of a group read through its lines *)

Lemma parse_block_block gname bs :
  group_name_ok gname = true -> forallb plain_line bs = true ->
  parse_block (block_of gname bs)
  = (block_lines <- assemble (bs ++ [[]]) [] ;;
     g <- process_lines [] block_lines ;;
     Ok (gname, g)).
Proof.
  intros Hg F. destruct (group_name_facts gname Hg) as (_ & _ & N & Sp).
  unfold parse_block, block_of.
  rewrite <- (join_snoc_empty [nl] (gname :: bs)) by discriminate.
  rewrite split_join; [|discriminate|].
  - cbn [app hd tl]. now rewrite strip_no_space.
  - cbn [app]. constructor; [exact N|]. apply Forall_app. split.
    + apply plain_lines_Forall; [|exact F]. intros b Hb.
      now destruct (plain_line_facts b Hb).
    + constructor; [reflexivity|constructor].
Qed.

Lemma parse_text_block gname bs :
  group_name_ok gname = true -> forallb plain_line bs = true ->
  parse (dumped gname bs)
  = (groups <- parse_blocks [block_of gname bs] [] [] ;; Ok (Some groups)).
Proof.
  intros Hg F. unfold parse, Namelist.
  replace (Str.eqb (dumped gname bs) []) with false
    by (rewrite dumped_shape; reflexivity).
  rewrite andb_false_r.
  rewrite (filtered_block gname bs Hg F).
  rewrite (findall_block gname bs Hg F). reflexivity.
Qed.

Lemma parse_same_lines gname bs bs' :
  group_name_ok gname = true ->
  forallb plain_line bs = true -> forallb plain_line bs' = true ->
  assemble (bs ++ [[]]) [] = assemble (bs' ++ [[]]) [] ->
  parse (dumped gname bs) = parse (dumped gname bs').
Proof.
  intros Hg F F' A.
  rewrite !parse_text_block by assumption.
  cbn [parse_blocks]. rewrite !parse_block_block by assumption.
  now rewrite A.
Qed.

Lemma parse_raises gname bs e :
  group_name_ok gname = true -> forallb plain_line bs = true ->
  assemble (bs ++ [[]]) [] = Raise e ->
  parse (dumped gname bs) = Raise e.
Proof.
  intros Hg F A.
  rewrite parse_text_block by assumption.
  cbn [parse_blocks]. rewrite parse_block_block by assumption.
  match goal with
  | |- context [assemble ?x ?y] =>
      replace (assemble x y) with (@Raise (list str) e) by (symmetry; exact A)
  end.
  reflexivity.
Qed.

Lemma plain_line_strip b : plain_line b = true -> plain_line (strip b) = true.
Proof.
  intros H. destruct (plain_line_facts b H) as (N & A & B).
  unfold plain_line.
  assert (I : forall a, contains a b = false -> contains a (strip b) = false).
  { intros a Ha. unfold strip, strip_by. now apply rstrip_by_incl, lstrip_by_incl. }
  rewrite (I _ N), (I _ A). cbn [negb andb].
  destruct (strip b) as [|x r] eqn:E; [reflexivity|].
  assert (St : strip (x :: r) = x :: r).
  { rewrite <- E. unfold strip. apply strip_ends.
    - apply strip_head_ok.
    - apply strip_last_ok. }
  rewrite St, B. reflexivity.
Qed.

Lemma plain_line_joined b1 b2 :
  plain_line b1 = true -> plain_line b2 = true ->
  count "=" b1 = 1%nat -> strip b2 <> [] ->
  plain_line (strip b1 ++ strip b2) = true.
Proof.
  intros H1 H2 C N.
  pose proof (plain_line_strip b1 H1) as P1.
  pose proof (plain_line_strip b2 H2) as P2.
  destruct (plain_line_facts _ P1) as (N1 & A1 & B1).
  destruct (plain_line_facts _ P2) as (N2 & A2 & _).
  destruct (plain_line_facts _ H1) as (_ & _ & B0).
  unfold plain_line. rewrite !contains_app, N1, N2, A1, A2. cbn [orb negb andb].
  rewrite strip_joined by assumption. lits.
  rewrite startswith_app_one.
  - lits. now rewrite B0.
  - intros E. pose proof (count_strip "="%char b1 eq_refl) as Q.
    rewrite E, C in Q. discriminate Q.
Qed.

(** The lines in front are read first. *)
Lemma assemble_app bs X : forall bl,
  assemble (bs ++ X) bl = (ls <- assemble bs bl ;; assemble X ls).
Proof.
  induction bs as [|b bs IH]; intros bl; [reflexivity|].
  cbn [app assemble].
  destruct (Str.eqb (strip b) []); [apply IH|].
  destruct (startswith (strip b) (lit "!")); [apply IH|].
  destruct (split "=" (strip b)) as [|k [|v [|y q]]];
    try apply IH;
    (destruct bl; [reflexivity|];
     match goal with |- context [endswith ?a ?b] => destruct (endswith a b) end;
     [apply IH|reflexivity]).
Qed.

Lemma one_equals_kept b rest bl :
  plain_line b = true -> one_equals b = true ->
  assemble (b :: rest) bl = assemble rest (bl ++ [strip b]).
Proof.
  intros P C. apply Nat.eqb_eq in C.
  destruct (plain_line_facts b P) as (_ & _ & B).
  now apply assemble_one_equals.
Qed.

Lemma assemble_kept bs : forall bl,
  forallb plain_line bs = true -> forallb one_equals bs = true ->
  assemble bs bl = Ok (bl ++ map strip bs).
Proof.
  induction bs as [|b bs IH]; intros bl P C.
  - cbn [assemble map]. now rewrite app_nil_r.
  - cbn [forallb] in P, C.
    apply andb_true_iff in P as [Pb P]. apply andb_true_iff in C as [Cb C].
    rewrite one_equals_kept by assumption.
    rewrite IH by assumption. cbn [map]. now rewrite <- app_assoc.
Qed.

Lemma last_map_strip bs : last (map strip bs) [] = strip (last bs []).
Proof.
  induction bs as [|b [|b' bs] IH]; [reflexivity|reflexivity|].
  exact IH.
Qed.

End ContinueFacts.

Module IndexedFacts.
Import Str Num Re Obj Mesa Shape Forms Kinds.
Import StrFacts DictFacts ReFacts NumFacts ComplexFacts ListFacts FormatFacts.
Import TokenFacts ScalarFacts JoinFacts SpaceFacts ListValueFacts AssignFacts LineFacts.
Import ValueLineFacts VariableFacts GroupFacts TextFacts SweepFacts.

Lemma isword_plain c :
  isword c = true -> vchar c = true /\ isspace c = false /\ name_char c = true.
Proof.
  destruct c as [[] [] [] [] [] [] [] []]; vm_compute; intuition congruence.
Qed.

Lemma isdigit_vchar c : isdigit c = true -> vchar c = true.
Proof.
  destruct c as [[] [] [] [] [] [] [] []]; vm_compute; intuition congruence.
Qed.

Lemma word_name_var n : word_name n = true -> var_name_ok n = true.
Proof.
  unfold word_name, var_name_ok. destruct n as [|c m]; [discriminate|].
  apply forallb_impl. intros x Hx. now destruct (isword_plain x Hx) as (_ & _ & ?).
Qed.

(** *** The pattern of indexed names *)

Lemma array_match bos n ds rest :
  word_name n = true -> digits ds ->
  match_at array_re bos (n ++ "("%char :: ds ++ ")"%char :: rest)
  = Some (n ++ "("%char :: ds ++ [")"%char], [n; ds]).
Proof.
  intros Hn [Nd Hd]. unfold match_at, array_re.
  destruct n as [|c n']; [discriminate|]. cbn [word_name forallb] in Hn.
  apply andb_true_iff in Hn as [Hc Hn].
  destruct ds as [|d ds']; [contradiction|]. cbn [forallb] in Hd.
  apply andb_true_iff in Hd as [Hd0 Hd].
  rewrite run_open. cbn [app]. rewrite run_plus_cons by exact Hc.
  apply star_longest; [exact Hn|reflexivity|].
  rewrite run_close, run_chr_cons. change (only "(" "(") with true. cbv iota.
  rewrite run_open. cbn [app]. rewrite run_plus_cons by exact Hd0.
  apply star_longest; [exact Hd|reflexivity|].
  rewrite run_close, run_chr_cons. change (only ")" ")") with true. cbv iota.
  cbn [run]. f_equal.
  assert (E : rev (")"%char :: rev ds' ++ d :: "("%char :: rev n' ++ [c])
              = (c :: n') ++ ["("%char] ++ (d :: ds') ++ [")"%char]).
  { cbn [rev]. rewrite !rev_app_distr. cbn [rev app]. rewrite !rev_app_distr.
    cbn [rev app]. rewrite !rev_involutive, <- !app_assoc. reflexivity. }
  rewrite E. f_equal.
  cbn [rev app length groups_of].
  repeat (rewrite ?length_app, ?length_rev; cbn [length]).
  f_equal.
  - pose proof (sub_middle [] (c :: n') (["("%char] ++ (d :: ds') ++ [")"%char])) as HS.
    cbn [length app Nat.add] in HS. cbn [app].
    replace (length n' + 1)%nat with (S (length n')) by lia. exact HS.
  - f_equal.
    pose proof (sub_middle ((c :: n') ++ ["("%char]) (d :: ds') [")"%char]) as HS.
    rewrite !length_app in HS. cbn [length] in HS. rewrite <- !app_assoc in HS.
    match goal with |- sub ?a ?b _ = _ =>
      replace b with (S (length n') + 1 + S (length ds'))%nat by lia;
      replace a with (S (length n') + 1)%nat by lia
    end.
    exact HS.
Qed.

Lemma format_d_digits k : digits (format_d (Z.of_nat k + 1)).
Proof.
  destruct (format_d_shape (Z.of_nat k + 1)) as (ds & D & E & _).
  destruct (Z.ltb_spec (Z.of_nat k + 1) 0); [lia|]. now rewrite E.
Qed.

Lemma index_key_name n k :
  word_name n = true ->
  name_and_index (index_key n k ++ [blank]) = Ok (n, Some (Z.of_nat k)).
Proof.
  intros Hn. unfold name_and_index, index_key. lits.
  pose proof (format_d_digits k) as D.
  set (fd := format_d (Z.of_nat k + 1)) in *.
  assert (E : n ++ ["("%char] ++ fd ++ [")"%char] = n ++ "("%char :: fd ++ [")"%char])
    by reflexivity.
  rewrite E. set (m := n ++ "("%char :: fd ++ [")"%char]).
  assert (F : Re.findall array_re (m ++ [blank]) = [(m, [n; fd])]).
  { unfold Re.findall. rewrite (scan_hit array_re true m [n; fd] [blank]).
    - reflexivity.
    - subst m. now destruct n.
    - subst m. rewrite <- app_assoc. cbn [app]. rewrite <- app_assoc. cbn [app].
      now apply array_match. }
  rewrite F. subst fd. rewrite int_format_d. f_equal. f_equal. f_equal. lia.
Qed.

(** *** A line [key = value] *)

Section KeyLine.
Variables (K V : str).
Hypothesis HK : forallb vchar K = true.
Hypothesis HK0 : exists c m, K = c :: m /\ isspace c = false.
Hypothesis HV : vtext V.

Lemma key_line_name_value : name_value (line K V) = Ok (K ++ [blank], blank :: V).
Proof.
  destruct (vchar_contains K HK) as (E1 & B1 & _).
  destruct (vtext_contains V HV) as (E2 & B2 & _).
  rewrite line_split. apply name_value_plain.
  - rewrite contains_app, E1. reflexivity.
  - rewrite contains_cons, E2. reflexivity.
  - rewrite contains_app, B1. reflexivity.
  - rewrite contains_cons, B2. reflexivity.
  - change (blank :: V) with ([blank] ++ V).
    destruct HV as (_ & (c & m & E & _) & _).
    rewrite endswith_one_app by (rewrite E; discriminate).
    now apply vtext_no_comma.
Qed.

Lemma key_line_strip : strip (indent (line K V)) = line K V.
Proof.
  destruct HK0 as (c & m & E & Hc).
  destruct HV as (_ & _ & (m' & c' & E' & Hc')).
  change (strip (indent (line K V))) with (strip (line K V)).
  apply strip_ends.
  - unfold line. rewrite E. exact Hc.
  - unfold line. rewrite E', !app_assoc. apply head_ok_rev_last.
    now destruct (edge_plain c' Hc').
Qed.

Lemma key_line_good : good_line (indent (line K V)) (line K V).
Proof.
  destruct (vchar_contains K HK) as (E1 & B1 & A1 & N1).
  destruct (vtext_contains V HV) as (E2 & B2 & A2 & N2).
  pose proof key_line_strip as St.
  destruct HK0 as (c & m & E & Hc).
  assert (A : contains "&" (line K V) = false)
    by (unfold line; rewrite !contains_app, A1, A2; reflexivity).
  assert (N : contains nl (line K V) = false)
    by (unfold line; rewrite !contains_app, N1, N2; reflexivity).
  split; [|split; [|split]].
  - unfold indent. rewrite contains_app, N. reflexivity.
  - unfold indent. rewrite contains_app, A. reflexivity.
  - rewrite St. unfold line. rewrite E. lits. cbn [app startswith].
    rewrite E in B1. rewrite contains_cons in B1.
    apply orb_false_iff in B1 as [B _]. rewrite Ascii.eqb_sym in B.
    now rewrite B.
  - intros rest bl. rewrite <- St at 2. unfold indent. rewrite line_split.
    rewrite app_assoc. apply assemble_keeps.
    + rewrite !contains_app, E1. reflexivity.
    + rewrite contains_cons, E2. reflexivity.
    + rewrite !contains_app, B1. reflexivity.
Qed.

End KeyLine.

Lemma index_key_facts n k :
  word_name n = true ->
  forallb vchar (index_key n k) = true
  /\ exists c m, index_key n k = c :: m /\ isspace c = false.
Proof.
  intros Hn. unfold index_key, word_name in *.
  destruct (format_d_digits k) as [_ D].
  destruct n as [|c m]; [discriminate|]. split.
  - rewrite forallb_app. apply andb_true_iff. split.
    + eapply forallb_impl; [|exact Hn]. intros x Hx. now destruct (isword_plain x Hx).
    + rewrite forallb_app. apply andb_true_iff. split; [reflexivity|].
      rewrite forallb_app. apply andb_true_iff. split; [|reflexivity].
      eapply forallb_impl; [|exact D]. apply isdigit_vchar.
  - exists c, (m ++ lit "(" ++ format_d (Z.of_nat k + 1) ++ lit ")").
    split; [reflexivity|]. cbn [forallb] in Hn. apply andb_true_iff in Hn as [Hc _].
    now destruct (isword_plain c Hc) as (_ & ? & _).
Qed.

(** What the second loop does with the line of an entry. *)
Lemma process_index_line g n k t v :
  word_name n = true -> vtext t -> _parse_value t = Ok v ->
  process_line g (line (index_key n k) t) = assign g n (Some (Z.of_nat k)) v.
Proof.
  intros Hn Ht Hp. destruct (index_key_facts n k Hn) as [HK HK0].
  unfold process_line. rewrite key_line_name_value by assumption. cbn [bind].
  rewrite index_key_name by exact Hn. cbn [bind].
  rewrite strip_blank_front, vtext_strip by exact Ht. now rewrite Hp.
Qed.

Lemma process_index_lines_next g n : forall ts vs k d,
  word_name n = true -> omem n g = false ->
  Forall2 reads ts vs ->
  (forall j, (k <= j)%nat -> dget (KInt (Z.of_nat j)) d = None) ->
  process_lines (g ++ [(n, PyDict d)]) (index_lines n k ts)
  = Ok (g ++ [(n, PyDict (d ++ index_items (enum_from k vs)))]).
Proof.
  intros ts vs k d Hn H F. revert k d.
  induction F as [|t v ts vs [Ht Hp] F IH]; intros k d Hd.
  - simpl. now rewrite app_nil_r.
  - cbn [index_lines process_lines].
    rewrite (process_index_line _ n k t v Hn Ht Hp).
    rewrite assign_next; [|exact H|apply Hd; lia]. cbn [bind].
    rewrite IH.
    + simpl. now rewrite <- app_assoc.
    + intros j Hj. apply dget_int_app; [apply Hd; lia|lia].
Qed.

Lemma process_index_lines_all g n ts vs :
  word_name n = true -> omem n g = false -> ts <> [] ->
  Forall2 reads ts vs ->
  process_lines g (index_lines n 0 ts)
  = Ok (g ++ [(n, is_list_dict (enum_from 0 vs))]).
Proof.
  intros Hn H N F. destruct F as [|t v ts vs [Ht Hp] F]; [contradiction|].
  cbn [index_lines process_lines].
  rewrite (process_index_line _ n 0 t v Hn Ht Hp).
  rewrite assign_first by exact H. cbn [bind].
  rewrite (process_index_lines_next g n ts vs 1 _ Hn H F).
  - reflexivity.
  - intros j Hj. unfold dget. simpl.
    destruct (Z.eqb_spec (Z.of_nat j) 0); [lia|reflexivity].
Qed.

Lemma index_lines_good n : forall ts k,
  word_name n = true -> Forall vtext ts ->
  Forall2 good_line (map indent (index_lines n k ts)) (index_lines n k ts).
Proof.
  induction ts as [|t ts IH]; intros k Hn Ht; [constructor|].
  inversion Ht; subst. cbn [index_lines map]. constructor; [|now apply IH].
  destruct (index_key_facts n k Hn) as [HK HK0]. now apply key_line_good.
Qed.

(** [dump] without inline arrays writes these lines. *)
Lemma indexed_lines_index n : forall vs ts k,
  format_all vs = Ok ts ->
  indexed_lines n k vs = Ok (map indent (index_lines n k ts)).
Proof.
  induction vs as [|v vs IH]; intros ts k H.
  - injection H as <-. reflexivity.
  - cbn [format_all] in H. cbn [indexed_lines].
    destruct (format_value_to_fortran v) as [t|e]; [|discriminate]. cbn [bind] in *.
    destruct (format_all vs) as [ts'|e] eqn:F; [|discriminate]. cbn [bind] in H.
    injection H as <-. rewrite (IH ts' (S k) eq_refl). cbn [bind index_lines map].
    do 2 f_equal. unfold indent, line, index_key. lits.
    rewrite <- !app_assoc. cbn [app]. reflexivity.
Qed.

Lemma entry_token v :
  entry_ok v = true ->
  exists t, format_value_to_fortran v = Ok t /\ reads t (reread_scalar v).
Proof.
  intros H. destruct v; try discriminate.
  - destruct (number_token (PyBool b) eq_refl) as (t & F & T & P).
    exists t. split; [exact F|]. split; [now apply num_tok_vtext|exact P].
  - destruct (number_token (PyInt z) eq_refl) as (t & F & T & P).
    exists t. split; [exact F|]. split; [now apply num_tok_vtext|exact P].
  - destruct (number_token (PyFloat x) eq_refl) as (t & F & T & P).
    exists t. split; [exact F|]. split; [now apply num_tok_vtext|exact P].
  - cbn [entry_ok] in H. exists (quoted s). split; [reflexivity|].
    split; [now apply quoted_vtext|now apply text_token].
Qed.

Lemma entries_tokens vs :
  forallb entry_ok vs = true ->
  exists ts, format_all vs = Ok ts /\ Forall2 reads ts (map reread_scalar vs).
Proof.
  induction vs as [|v vs IH]; intros H; [exists []; split; [reflexivity|constructor]|].
  cbn [forallb] in H. apply andb_true_iff in H as [Hv H].
  destruct (entry_token v Hv) as (t & F & R). destruct (IH H) as (ts & Fs & Rs).
  exists (t :: ts). cbn [format_all]. rewrite F. cbn [bind]. rewrite Fs.
  split; [reflexivity|]. now constructor.
Qed.

Lemma entry_value_ok v :
  entry_ok v = true -> value_ok v = true /\ match v with PyList _ => False | _ => True end.
Proof. destruct v; try discriminate; intros H; split; auto. Qed.

(** The lines of one variable, and the second loop over them. *)
Lemma variable_lines_indexed n v :
  indexed_ok (n, v) = true ->
  exists ls, dump_variable false n v = Ok (map indent ls)
             /\ Forall2 good_line (map indent ls) ls
             /\ forall g, omem n g = false ->
                          process_lines g ls = Ok (g ++ [(n, held v)]).
Proof.
  unfold indexed_ok. cbn [fst snd]. intros H.
  assert (Scalar : var_name_ok n && entry_ok v = true ->
    exists ls, dump_variable false n v = Ok (map indent ls)
               /\ Forall2 good_line (map indent ls) ls
               /\ forall g, omem n g = false ->
                            process_lines g ls = Ok (g ++ [(n, held v)])).
  { intros Hs. apply andb_true_iff in Hs as [Hn He].
    destruct (entry_value_ok v He) as [Hv Hl].
    destruct (variable_line n v Hn Hv) as (V & DV & VT & PV).
    exists [line n V]. split; [|split].
    - destruct v; try contradiction; exact DV.
    - constructor; [now apply body_line_good|constructor].
    - intros g Hg. cbn [process_lines]. rewrite PV by exact Hg. reflexivity. }
  destruct v as [|b|z|x|re im|s|vs|d]; try (apply Scalar; exact H).
  apply andb_true_iff in H as [H He]. apply andb_true_iff in H as [Hn Hl].
  destruct (entries_tokens vs He) as (ts & F & R).
  assert (Nts : ts <> []).
  { destruct vs; [discriminate|]. inversion R; discriminate. }
  exists (index_lines n 0 ts). split; [|split].
  - cbn [dump_variable]. now apply indexed_lines_index.
  - apply index_lines_good; [exact Hn|].
    clear -R. induction R as [|t v ts vs' [Ht _] R IH]; constructor; assumption.
  - intros g Hg. cbn [held]. now apply process_index_lines_all.
Qed.

Lemma process_lines_app a : forall g b,
  process_lines g (a ++ b) = (g' <- process_lines g a ;; process_lines g' b).
Proof.
  induction a as [|l a IH]; intros g b; [reflexivity|].
  cbn [app process_lines]. destruct (process_line g l); [apply IH|reflexivity].
Qed.

Lemma items_lines_indexed items :
  forallb indexed_ok items = true -> NoDup (map fst items) ->
  exists ls,
    dump_items false items = Ok (map indent ls)
    /\ Forall2 good_line (map indent ls) ls
    /\ forall g, (forall k, In k (map fst items) -> ~ In k (Dict.keys g)) ->
                 process_lines g ls = Ok (g ++ held_items items).
Proof.
  induction items as [|[n v] items IH]; intros Hok Hnd.
  - exists []. split; [reflexivity|]. split; [constructor|].
    intros g _. simpl. now rewrite app_nil_r.
  - cbn [forallb] in Hok. apply andb_true_iff in Hok as [Hnv Hok].
    simpl in Hnd. inversion Hnd as [|? ? Hnot Hnd']; subst.
    destruct (IH Hok Hnd') as (ls & D & G & P).
    destruct (variable_lines_indexed n v Hnv) as (lv & DV & GV & PV).
    exists (lv ++ ls). split; [|split].
    + cbn [dump_items]. rewrite DV. cbn [bind]. rewrite D. cbn [bind].
      now rewrite map_app.
    + rewrite map_app. now apply Forall2_app.
    + intros g Hg. rewrite process_lines_app, PV.
      * cbn [bind]. rewrite P.
        -- unfold held_items. cbn [map fst snd]. rewrite <- app_assoc. reflexivity.
        -- intros k Hk. rewrite keys_app. intros Hin.
           apply in_app_or in Hin as [Hin|[<-|[]]].
           ++ apply (Hg k); [now right|exact Hin].
           ++ now apply Hnot.
      * apply omem_false_not_in. apply Hg. now left.
Qed.

Lemma check_value_held_plain v :
  match v with PyDict _ => False | _ => True end ->
  check_value (held v) = Ok (reread v).
Proof.
  destruct v; try contradiction; intros _; try reflexivity.
  unfold held, reread. apply check_value_enum.
Qed.

Lemma indexed_ok_plain nv :
  indexed_ok nv = true -> match snd nv with PyDict _ => False | _ => True end.
Proof.
  unfold indexed_ok. destruct (snd nv); try exact (fun _ => I).
  rewrite andb_false_r. discriminate.
Qed.

Lemma check_items_held_indexed g :
  forallb indexed_ok g = true -> NoDup (map fst g) ->
  check_items (held_items g) (held_items g) = Ok (reread_group g).
Proof.
  intros Hok Hnd.
  pose (f := fun o => match check_value o with Ok o' => o' | Raise _ => o end).
  assert (Hf : forall nv, In nv g -> check_value (held (snd nv)) = Ok (reread (snd nv))).
  { intros nv Hin. apply check_value_held_plain, indexed_ok_plain.
    rewrite forallb_forall in Hok. now apply Hok. }
  pose proof (check_items_all f (held_items g) []) as H. cbn [app] in H.
  rewrite H.
  - unfold held_items, reread_group. rewrite map_map. apply f_equal. apply map_ext_in.
    intros nv Hin. cbn [fst snd]. unfold f. now rewrite (Hf nv Hin).
  - intros nv Hin. unfold held_items in Hin. apply in_map_iff in Hin as (nv' & <- & Hin).
    cbn [snd]. unfold f. now rewrite (Hf nv' Hin).
  - simpl. unfold held_items. rewrite map_map. simpl. exact Hnd.
Qed.

End IndexedFacts.
Module MergeFacts.
Import Str Num Re Obj Mesa Shape Forms Kinds.
Import StrFacts DictFacts ReFacts TokenFacts ScalarFacts JoinFacts ValueLineFacts GroupFacts TextFacts BlockFacts ContinueFacts IndexedFacts.

(** *** A line added to a line that ends with the comma of its comment *)

Lemma contains_first a s :
  contains a s = true -> exists p q, s = p ++ a :: q /\ contains a p = false.
Proof.
  induction s as [|c s IH]; [discriminate|].
  rewrite contains_cons. destruct (Ascii.eqb a c) eqn:E.
  - intros _. apply Ascii.eqb_eq in E. subst c. now exists [], s.
  - cbn [orb]. intros H. destruct (IH H) as (p & q & -> & Hp).
    exists (c :: p), q. split; [reflexivity|].
    now rewrite contains_cons, E, Hp.
Qed.

(** The line without its comment is what stands before the first [!]. *)
Lemma cleaned_before_bang l p r :
  contains "!" p = false ->
  (if endswith l (lit ",") then slice_m1 l else l) = p ++ "!"%char :: r ->
  cleaned l = strip p.
Proof.
  intros Hp E. unfold cleaned. rewrite E.
  rewrite contains_app, contains_cons, Ascii.eqb_refl, orb_true_r.
  now rewrite split_app by exact Hp.
Qed.

Lemma slice_m1_app s t : t <> [] -> slice_m1 (s ++ t) = s ++ slice_m1 t.
Proof. intros N. unfold slice_m1. now apply removelast_app. Qed.

(** What is added after a comment is lost with the comment. *)
Lemma cleaned_merged l x :
  contains "!" l = true -> endswith l (lit ",") = true ->
  cleaned (l ++ x) = cleaned l.
Proof.
  intros B C. destruct (contains_first "!"%char l B) as (p & q & -> & Hp).
  destruct (last_case q) as [->|(q' & c & ->)].
  { lits. rewrite endswith_one_last in C. discriminate C. }
  assert (Ec : c = ","%char).
  { lits. change (p ++ "!"%char :: q' ++ [c]) with (p ++ ("!"%char :: q') ++ [c]) in C.
    rewrite app_assoc, endswith_one_last in C. now apply Ascii.eqb_eq in C. }
  subst c.
  rewrite (cleaned_before_bang (p ++ "!"%char :: q' ++ [","%char]) p q' Hp).
  - destruct (endswith ((p ++ "!"%char :: q' ++ [","%char]) ++ x) (lit ",")) eqn:E.
    + destruct x as [|y x'].
      * rewrite app_nil_r.
        apply (cleaned_before_bang _ p q' Hp). rewrite C.
        change (p ++ "!"%char :: q' ++ [","%char]) with (p ++ ("!"%char :: q') ++ [","%char]).
        now rewrite app_assoc, slice_m1_last.
      * apply (cleaned_before_bang _ p (q' ++ [","%char] ++ slice_m1 (y :: x')) Hp).
        rewrite E, slice_m1_app by discriminate.
        rewrite <- app_assoc. cbn [app]. now rewrite <- app_assoc.
    + apply (cleaned_before_bang _ p (q' ++ [","%char] ++ x) Hp).
      rewrite E, <- app_assoc. cbn [app]. now rewrite <- app_assoc.
  - rewrite C.
    change (p ++ "!"%char :: q' ++ [","%char]) with (p ++ ("!"%char :: q') ++ [","%char]).
    now rewrite app_assoc, slice_m1_last.
Qed.

(** The second loop reads a line through [cleaned] only. *)
Lemma process_line_cleaned g l l' :
  cleaned l = cleaned l' -> process_line g l = process_line g l'.
Proof. intros E. unfold process_line, name_value. now rewrite E. Qed.

Lemma strip_contains a s : contains a s = true -> isspace a = false ->
  contains a (strip s) = true.
Proof.
  intros H Sa.
  destruct (contains a (strip s)) eqn:E; [reflexivity|].
  pose proof (count_strip a s Sa) as C.
  rewrite (count_zero _ _ E) in C.
  symmetry in C. apply count_contains in C. congruence.
Qed.

(** A line which is not split in two at [=] is added to a line that ends
    with a comma. *)
Lemma assemble_merged b1 b2 rest bl :
  count "=" b1 = 1%nat -> startswith (strip b1) (lit "!") = false ->
  endswith (strip b1) (lit ",") = true ->
  count "=" b2 <> 1%nat -> strip b2 <> [] ->
  startswith (strip b2) (lit "!") = false ->
  assemble (b1 :: b2 :: rest) bl = assemble rest (bl ++ [strip b1 ++ strip b2]).
Proof.
  intros C1 B1 E1 C2 N2 B2.
  rewrite assemble_one_equals by assumption.
  rewrite assemble_stray; [|exact C2|exact N2|exact B2].
  destruct (bl ++ [strip b1]) as [|x r] eqn:E.
  { destruct bl; discriminate E. }
  rewrite <- E, last_last, E1. now rewrite append_to_last_snoc.
Qed.

Lemma assemble_kept_end bs bl :
  forallb plain_line bs = true -> forallb one_equals bs = true ->
  assemble (bs ++ [[]]) bl = Ok (bl ++ map strip bs).
Proof.
  intros P C. rewrite assemble_app, assemble_kept by assumption. reflexivity.
Qed.

(** The lines the second loop gets with and without the added line. *)
Lemma merged_block gname bs b1 b2 rest :
  group_name_ok gname = true ->
  forallb plain_line (bs ++ b1 :: b2 :: rest) = true ->
  one_equals b1 = true -> contains "!" b1 = true ->
  endswith (strip b1) (lit ",") = true ->
  count "=" b2 <> 1%nat -> empty_line b2 = false ->
  forallb one_equals rest = true ->
  parse_block (block_of gname (bs ++ b1 :: b2 :: rest))
  = parse_block (block_of gname (bs ++ b1 :: rest)).
Proof.
  intros Hg P C1 Bg E1 C2 N2 R.
  pose proof P as P'.
  rewrite forallb_app in P'. apply andb_true_iff in P' as [P0 P1].
  cbn [forallb] in P1. apply andb_true_iff in P1 as [Pb1 P1].
  apply andb_true_iff in P1 as [Pb2 Pr].
  apply Nat.eqb_eq in C1.
  assert (S2 : strip b2 <> []).
  { intros H. unfold empty_line in N2. rewrite H in N2. discriminate N2. }
  destruct (plain_line_facts b1 Pb1) as (_ & _ & B1).
  destruct (plain_line_facts b2 Pb2) as (_ & _ & B2).
  assert (P2 : forallb plain_line (bs ++ b1 :: rest) = true).
  { rewrite forallb_app, P0. cbn [forallb]. now rewrite Pb1, Pr. }
  rewrite !parse_block_block by assumption.
  rewrite <- !app_assoc, !assemble_app. cbn [app].
  destruct (assemble bs []) as [ls|e]; [|reflexivity]. cbn [bind].
  rewrite assemble_merged by assumption.
  rewrite assemble_one_equals by assumption.
  rewrite !assemble_kept_end by assumption. cbn [bind].
  rewrite <- !app_assoc, !process_lines_app. cbn [app process_lines].
  destruct (process_lines [] ls) as [g|e]; [|reflexivity]. cbn [bind].
  rewrite (process_line_cleaned g (strip b1 ++ strip b2) (strip b1)); [reflexivity|].
  apply cleaned_merged; [|exact E1].
  now apply strip_contains.
Qed.

End MergeFacts.

Module DefaultsFacts.
Import Str Num Re Obj Mesa Shape Forms Kinds.
Import StrFacts DictFacts LineFacts.

Lemma startswith_bang n rest :
  contains "!" n = false ->
  startswith (n ++ "="%char :: rest) ["!"%char] = false.
Proof.
  intros H. destruct n as [|c n]; [reflexivity|].
  rewrite contains_cons in H. apply orb_false_iff in H as [H _].
  cbn [app startswith]. rewrite Ascii.eqb_sym, H. reflexivity.
Qed.

Lemma split_two_equals n a b :
  contains "=" n = false -> contains "=" a = false -> contains "=" b = false ->
  split "=" (n ++ "="%char :: a ++ "="%char :: b) = [n; a; b].
Proof.
  intros Hn Ha Hb. rewrite split_app by exact Hn.
  rewrite split_app by exact Ha. now rewrite split_none.
Qed.

(** A line with two [=] in [_get_defaults]. *)
Lemma read_line_two_equals elements n a b :
  contains "=" n = false -> contains "=" a = false -> contains "=" b = false ->
  contains "!" n = false -> contains "!" a = false -> contains "!" b = false ->
  Defaults.read_line elements (n ++ "="%char :: a ++ "="%char :: b)
  = ([], v <- Defaults._parse_value (strip (a ++ "="%char :: b)) ;;
         Ok (oset (strip n) v elements)).
Proof.
  intros En Ea Eb Bn Ba Bb. unfold Defaults.read_line. lits.
  rewrite startswith_bang by exact Bn.
  assert (C : contains "=" (n ++ "="%char :: a ++ "="%char :: b) = true).
  { rewrite contains_app, contains_cons. cbn. now rewrite orb_true_r. }
  rewrite C. cbn [negb andb].
  assert (B : contains "!" (n ++ "="%char :: a ++ "="%char :: b) = false).
  { rewrite contains_app, contains_cons, contains_app, contains_cons, Bn, Ba, Bb.
    reflexivity. }
  rewrite (split_none _ _ B). cbn [hd].
  rewrite split_two_equals by assumption. reflexivity.
Qed.

(** The same line in the first loop of [Namelist.__init__]. *)
Lemma assemble_two_equals n a b rest :
  contains "=" n = false -> contains "=" a = false -> contains "=" b = false ->
  contains "!" n = false ->
  assemble ((n ++ "="%char :: a ++ "="%char :: b) :: rest) [] = Raise IndexError.
Proof.
  intros En Ea Eb Bn. cbn [assemble]. lits.
  unfold strip. rewrite strip_by_around by reflexivity.
  rewrite rstrip_by_app_stop by reflexivity.
  set (n' := lstrip_by isspace n). set (b' := rstrip_by isspace b).
  assert (En' : contains "=" n' = false) by now apply lstrip_by_incl.
  assert (Bn' : contains "!" n' = false) by now apply lstrip_by_incl.
  assert (Eb' : contains "=" b' = false) by now apply rstrip_by_incl.
  assert (N : Str.eqb (n' ++ "="%char :: a ++ "="%char :: b') [] = false)
    by (destruct n'; reflexivity).
  rewrite N, startswith_bang by exact Bn'.
  rewrite split_two_equals by assumption. reflexivity.
Qed.

Lemma read_line_idle elements line :
  idle line -> Defaults.read_line elements (strip line) = ([], Ok elements).
Proof.
  intros [H|H]; unfold Defaults.read_line.
  - now rewrite H.
  - assert (C : contains "=" (strip line) = false).
    { unfold strip, strip_by. now apply rstrip_by_incl, lstrip_by_incl. }
    rewrite C. now rewrite andb_false_r.
Qed.

Lemma read_lines_skip c l1 : forall l2 elements,
  (forall e, Defaults.read_line e c = ([], Ok e)) ->
  Defaults.read_lines (l1 ++ c :: l2) elements = Defaults.read_lines (l1 ++ l2) elements.
Proof.
  induction l1 as [|l l1 IH]; intros l2 elements H.
  - cbn [app Defaults.read_lines]. rewrite H.
    now destruct (Defaults.read_lines l2 elements).
  - cbn [app Defaults.read_lines].
    destruct (Defaults.read_line elements l) as [out [e'|e]]; [|reflexivity].
    now rewrite IH.
Qed.

Lemma get_defaults_idle before after c :
  idle c ->
  Defaults._get_defaults (before ++ c :: after) = Defaults._get_defaults (before ++ after).
Proof.
  intros H. unfold Defaults._get_defaults.
  rewrite !filter_app. cbn [filter]. destruct (0 <? length c)%nat; [|reflexivity].
  rewrite !map_app. cbn [map]. apply read_lines_skip.
  intros e. now apply read_line_idle.
Qed.

End DefaultsFacts.

Module NumberedFacts.
Import Str Num Re Obj Mesa Shape Forms Kinds.
Import StrFacts DictFacts FormatFacts AssignFacts GroupFacts SweepFacts InvariantFacts.

Lemma format_d_inj z z' : format_d z = format_d z' -> z = z'.
Proof.
  intros H. pose proof (int_format_d z) as E. rewrite H, int_format_d in E.
  congruence.
Qed.

Lemma format_d_nonempty z : format_d z <> [].
Proof.
  destruct (format_d_shape z) as (ds & [N _] & -> & _).
  destruct (z <? 0); [discriminate|exact N].
Qed.

Lemma numbered_inj a i j : numbered a i = numbered a j -> i = j.
Proof.
  destruct i as [|i], j as [|j]; cbn [numbered]; intros H.
  - reflexivity.
  - exfalso. rewrite <- (app_nil_r a) in H at 1. apply app_inv_head in H.
    symmetry in H. now apply format_d_nonempty in H.
  - exfalso. rewrite <- (app_nil_r a) in H at 2. apply app_inv_head in H.
    now apply format_d_nonempty in H.
  - apply app_inv_head, format_d_inj in H. f_equal. lia.
Qed.

Lemma numbered_NoDup a n : forall k, NoDup (map (numbered a) (seq k n)).
Proof.
  induction n as [|n IH]; intros k; cbn [seq map]; constructor; [|apply IH].
  intros H. apply in_map_iff in H as (j & E & Hj). apply numbered_inj in E.
  apply in_seq in Hj. lia.
Qed.

Section Sweep.
Context {V : Type} (f : V -> result V).

Lemma sweep_app items1 : forall items2 d,
  sweep f (items1 ++ items2) d = (d1 <- sweep f items1 d ;; sweep f items2 d1).
Proof.
  induction items1 as [|[k v] items1 IH]; intros items2 d; [reflexivity|].
  cbn [app sweep]. destruct (f v); [apply IH|reflexivity].
Qed.

(** One more entry after entries that [f] leaves alone. *)
Lemma sweep_last d k v v' :
  NoDup (Dict.keys d ++ [k]) ->
  (forall k1 v1, In (k1, v1) d -> f v1 = Ok v1) ->
  f v = Ok v' ->
  sweep f (d ++ [(k, v)]) (d ++ [(k, v)]) = Ok (d ++ [(k, v')]).
Proof.
  intros Hn Hd Hv. rewrite sweep_app.
  rewrite sweep_fixed.
  - cbn [bind sweep]. rewrite Hv. cbn [bind]. rewrite oset_app_last; [reflexivity|].
    apply omem_false_not_in. apply NoDup_remove_2 in Hn.
    rewrite app_nil_r in Hn. exact Hn.
  - unfold Dict.keys. now rewrite map_app.
  - intros k1 v1 H1. split; [apply in_or_app; now left|now apply (Hd k1)].
Qed.

End Sweep.

Lemma check_lists_last (D : document) (k : str) (g h : group) :
  NoDup (Dict.keys D ++ [k]) ->
  (forall k1 g1, In (k1, g1) D -> check_items g1 g1 = Ok g1) ->
  check_items g g = Ok h ->
  _check_lists (D ++ [(k, g)]) = Ok (D ++ [(k, h)]).
Proof.
  intros Hn Hd Hg. unfold _check_lists. rewrite check_groups_sweep.
  now apply sweep_last.
Qed.

Lemma block_checked a b h : block_of_name a b h -> check_items h h = Ok h.
Proof.
  intros (g & P & C). apply (check_items_fixed g); [|exact C].
  now destruct (parse_block_pending b a g P).
Qed.

(** The loop over the blocks, from the second block on. *)
Lemma parse_blocks_numbered a :
  forall bs hs j (D : document) (cnt : odict Z),
  Forall2 (block_of_name a) bs hs ->
  (1 <= j)%nat ->
  Dict.keys D = map (numbered a) (seq 0 j) ->
  (forall k h, In (k, h) D -> check_items h h = Ok h) ->
  oget a cnt = (if (j =? 1)%nat then None else Some (Z.of_nat j - 2)) ->
  parse_blocks bs D cnt
  = Ok (D ++ combine (map (numbered a) (seq j (length bs))) hs).
Proof.
  intros bs hs j D cnt F. revert j D cnt.
  induction F as [|b h bs hs (g & P & C) F IH]; intros j D cnt Hj HK HD Hc.
  all: try change (list (str * obj)) with group in *.
  - cbn. now rewrite app_nil_r.
  - cbn [parse_blocks]. rewrite P. cbn [bind]. unfold resolve_name.
    assert (M : omem a D = true).
    { apply omem_in_keys. rewrite HK. destruct j; [lia|]. now left. }
    rewrite M, Hc.
    assert (E : a ++ format_d (if (j =? 1)%nat then 0 else Z.of_nat j - 2 + 1)
                = numbered a j).
    { destruct j as [|[|j]]; [lia|reflexivity|]. cbn [numbered Nat.eqb].
      do 2 f_equal. lia. }
    replace (match (if (j =? 1)%nat then None else Some (Z.of_nat j - 2)) with
             | Some n => n + 1 | None => 0 end)
      with (if (j =? 1)%nat then 0 else Z.of_nat j - 2 + 1)
      by (now destruct (j =? 1)%nat).
    rewrite E. cbv beta iota.
    assert (Hnew : ~ In (numbered a j) (Dict.keys D)).
    { rewrite HK. intros H. apply in_map_iff in H as (i & Ei & Hi).
      apply numbered_inj in Ei. apply in_seq in Hi. lia. }
    rewrite oset_keys_new by (now apply omem_false_not_in).
    rewrite (check_lists_last D (numbered a j) g h); [| |exact HD|exact C].
    + cbn [bind]. rewrite (IH (S j)).
      * rewrite <- app_assoc. cbn [length seq map combine app]. reflexivity.
      * lia.
      * unfold Dict.keys in *. rewrite map_app, HK. cbn [map fst].
        rewrite seq_S, map_app. reflexivity.
      * intros k1 h1 H1. apply in_app_or in H1 as [H1|[[= <- <-]|[]]].
        -- now apply (HD k1).
        -- apply (block_checked a b). now exists g.
      * rewrite oget_oset_same. destruct j as [|j]; [lia|].
        cbn [Nat.eqb]. f_equal. destruct j; cbn [Nat.eqb]; lia.
    + rewrite HK. replace (map (numbered a) (seq 0 j) ++ [numbered a j])
        with (map (numbered a) (seq 0 (S j))) by (rewrite seq_S, map_app; reflexivity).
      apply numbered_NoDup.
Qed.

Lemma parse_blocks_same_name a bs hs :
  Forall2 (block_of_name a) bs hs ->
  parse_blocks bs [] [] = Ok (combine (map (numbered a) (seq 0 (length bs))) hs).
Proof.
  intros F. destruct F as [|b h bs hs (g & P & C) F]; [reflexivity|].
  cbn [parse_blocks]. rewrite P. cbn [bind]. unfold resolve_name.
  cbn [omem Dict.mem Dict.get oset Dict.set].
  assert (CL : _check_lists [(a, g)] = Ok [(a, h)]).
  { apply (check_lists_last [] a g h); [repeat constructor; intros []|intros ? ? []|exact C]. }
  rewrite CL. cbn [bind app].
  rewrite (parse_blocks_numbered a bs hs 1 [(a, h)] []); [reflexivity|exact F|lia|reflexivity| |reflexivity].
  intros k1 h1 [[= <- <-]|[]]. apply (block_checked a b). now exists g.
Qed.

End NumberedFacts.
Module TailFacts.
Import Str Num Re Obj Mesa Shape Forms Kinds.
Import StrFacts DictFacts ReFacts NumFacts TokenFacts JoinFacts AssignFacts LineFacts.
Import ValueLineFacts VariableFacts GroupFacts TextFacts BlockFacts.

Lemma rstrip_by_last p s c : p c = false -> rstrip_by p (s ++ [c]) = s ++ [c].
Proof. intros H. now rewrite rstrip_by_app_stop. Qed.

Lemma process_line_same g a b :
  name_value a = name_value b -> process_line g a = process_line g b.
Proof. intros H. unfold process_line. now rewrite H. Qed.

Section OneLine.
Variables (n V : str).
Hypothesis Hn : var_name_ok n = true.
Hypothesis HV : vtext V.

Lemma indent_line_split suffix :
  indent (line n V) ++ suffix
  = (lit "   " ++ n ++ [blank]) ++ "="%char :: (blank :: V ++ suffix).
Proof.
  unfold indent. rewrite line_split. rewrite <- !app_assoc. cbn [app].
  rewrite <- ?app_assoc. reflexivity.
Qed.

Lemma strip_indent_line suffix s' :
  rstrip_by isspace (blank :: V ++ suffix) = blank :: V ++ s' ->
  strip (indent (line n V) ++ suffix) = line n V ++ s'.
Proof.
  intros R. destruct (var_name_facts n Hn) as (_ & _ & (c & m & E & Hc) & _).
  rewrite indent_line_split. unfold strip. rewrite strip_by_around by reflexivity.
  rewrite R. rewrite E. cbn [lit list_ascii_of_string app lstrip_by].
  change (isspace " ") with true. cbv iota. rewrite Hc.
  rewrite line_split. rewrite <- ?app_assoc. cbn [app].
  rewrite <- ?app_assoc. reflexivity.
Qed.

Lemma rstrip_value suffix s' :
  rstrip_by isspace suffix = s' -> suffix <> [] -> s' <> [] ->
  rstrip_by isspace (blank :: V ++ suffix) = blank :: V ++ s'.
Proof.
  intros R N N'. destruct (last_case s') as [->|(x & c & E)]; [contradiction|].
  unfold rstrip_by in *.
  change (blank :: V ++ suffix) with ((blank :: V) ++ suffix).
  rewrite rev_app_distr.
  assert (L : lstrip_by isspace (rev suffix) = rev s')
    by (rewrite <- R; now rewrite rev_involutive).
  assert (H : lstrip_by isspace (rev suffix ++ rev (blank :: V))
              = rev s' ++ rev (blank :: V)).
  { rewrite <- L. rewrite E in L. rewrite rev_app_distr in L. cbn [rev app] in L.
    clear -L. induction (rev suffix) as [|y r IH]; [discriminate|].
    cbn [app lstrip_by] in *. destruct (isspace y); [now apply IH|reflexivity]. }
  rewrite H, rev_app_distr, !rev_involutive. reflexivity.
Qed.

(** The line with what follows its value. *)
Lemma tail_line t :
  tail_ok t = true ->
  plain_line (with_tail (indent (line n V)) t) = true
  /\ (forall rest bl,
         assemble (with_tail (indent (line n V)) t :: rest) bl
         = assemble rest (bl ++ [strip (with_tail (indent (line n V)) t)]))
  /\ (forall g, process_line g (strip (with_tail (indent (line n V)) t))
                = process_line g (line n V)).
Proof.
  intros Ht.
  destruct (var_name_facts n Hn) as (Hv & _ & (c0 & m0 & En & Hc0) & _).
  destruct (vchar_contains n Hv) as (E1 & B1 & A1 & N1).
  destruct (vtext_contains V HV) as (E2 & B2 & A2 & N2).
  destruct (line_contains n V Hn HV) as [A N].
  pose proof (line_strip n V Hn HV) as St.
  change (lit "   " ++ line n V) with (indent (line n V)) in St.
  pose proof (line_name_value n V Hn HV) as NV.
  assert (Head : forall s, startswith (line n V ++ s) (lit "!") = false).
  { intros s. unfold line. rewrite En. lits. cbn [app startswith].
    rewrite En in B1. rewrite contains_cons in B1.
    apply orb_false_iff in B1 as [B _]. rewrite Ascii.eqb_sym in B. now rewrite B. }
  assert (Keep : forall suffix rest bl,
             contains "=" suffix = false ->
             assemble ((indent (line n V) ++ suffix) :: rest) bl
             = assemble rest (bl ++ [strip (indent (line n V) ++ suffix)])).
  { intros suffix rest bl Es. rewrite indent_line_split. apply assemble_keeps.
    - rewrite !contains_app, E1. reflexivity.
    - rewrite contains_cons, contains_app, E2, Es. reflexivity.
    - rewrite !contains_app, B1. reflexivity. }
  destruct t as [| |c]; cbn [with_tail].
  - (* nothing *)
    split; [|split].
    + unfold plain_line. rewrite St. rewrite <- (app_nil_r (line n V)), Head.
      unfold indent. rewrite !contains_app, A, N. reflexivity.
    + intros rest bl. rewrite <- (app_nil_r (indent (line n V))). now apply Keep.
    + intros g. now rewrite St.
  - (* a comma *)
    assert (S1 : strip (indent (line n V) ++ lit ",") = line n V ++ lit ",").
    { apply strip_indent_line.
      change (blank :: V ++ lit ",") with ((blank :: V) ++ [","%char]).
      now apply rstrip_by_last. }
    split; [|split].
    + unfold plain_line. rewrite S1, Head.
      unfold indent. rewrite !contains_app, A, N. reflexivity.
    + intros rest bl. now apply Keep.
    + intros g. rewrite S1. apply process_line_same. rewrite NV.
      rewrite line_split. rewrite <- app_assoc. cbn [app].
      change (blank :: V ++ lit ",") with ((blank :: V) ++ [","%char]).
      apply name_value_comma.
      * rewrite contains_app, E1. reflexivity.
      * rewrite contains_cons, E2. reflexivity.
      * rewrite contains_app, B1. reflexivity.
      * rewrite contains_cons, B2. reflexivity.
  - (* a comment *)
    cbn [tail_ok] in Ht. apply andb_true_iff in Ht as [Ht Hnl].
    apply andb_true_iff in Ht as [He Ha].
    apply negb_true_iff in He, Ha, Hnl.
    assert (S1 : strip (indent (line n V) ++ lit "!" ++ c)
                 = line n V ++ "!"%char :: rstrip_by isspace c).
    { apply strip_indent_line. lits. cbn [app].
      change (blank :: V ++ "!"%char :: c) with ((blank :: V) ++ "!"%char :: c).
      now rewrite rstrip_by_app_stop. }
    split; [|split].
    + unfold plain_line. rewrite S1, Head.
      unfold indent. lits. rewrite !contains_app, A, N. cbn [app].
      rewrite !contains_cons, Ha, Hnl. reflexivity.
    + intros rest bl. apply Keep. lits. cbn [app]. rewrite contains_cons, He.
      reflexivity.
    + intros g. rewrite S1. apply process_line_same. rewrite NV.
      rewrite line_split. rewrite <- app_assoc. cbn [app].
      change (blank :: V ++ "!"%char :: rstrip_by isspace c)
        with ((blank :: V) ++ "!"%char :: rstrip_by isspace c).
      rewrite name_value_comment.
      * f_equal. f_equal.
        -- rewrite En. cbn [app lstrip_by]. now rewrite Hc0.
        -- destruct HV as (_ & _ & (m' & c' & E' & Hc')).
           rewrite E'. change (blank :: m' ++ [c']) with ((blank :: m') ++ [c']).
           apply rstrip_by_last. now destruct (edge_plain c' Hc').
      * rewrite contains_app, E1. reflexivity.
      * rewrite contains_cons, E2. reflexivity.
      * rewrite contains_app, B1. reflexivity.
      * rewrite contains_cons, B2. reflexivity.
Qed.

End OneLine.

Lemma items_lines_shape items :
  forallb variable_ok items = true -> NoDup (map fst items) ->
  exists nVs,
    Forall name_text_ok nVs /\ length nVs = length items
    /\ dump_items true items = Ok (map indent (map line_of nVs))
    /\ forall g, (forall k, In k (map fst items) -> ~ In k (Dict.keys g)) ->
                 process_lines g (map line_of nVs) = Ok (g ++ held_items items).
Proof.
  induction items as [|[n v] items IH]; intros Hok Hnd.
  - exists []. split; [constructor|]. split; [reflexivity|]. split; [reflexivity|].
    intros g _. simpl. now rewrite app_nil_r.
  - simpl in Hok. apply andb_true_iff in Hok as [Hnv Hok].
    unfold variable_ok in Hnv. apply andb_true_iff in Hnv as [Hn Hv].
    simpl in Hn, Hv. simpl in Hnd. inversion Hnd as [|? ? Hnot Hnd']; subst.
    destruct (IH Hok Hnd') as (nVs & Sh & Len & D & P).
    destruct (variable_line n v Hn Hv) as (V & DV & VT & PV).
    exists ((n, V) :: nVs). split; [|split; [|split]].
    + constructor; [now split|exact Sh].
    + cbn [length]. now rewrite Len.
    + cbn [dump_items]. rewrite DV. cbn [bind]. rewrite D. reflexivity.
    + intros g Hg. cbn [map line_of fst snd process_lines]. rewrite PV.
      * cbn [bind]. rewrite P.
        -- rewrite <- app_assoc. reflexivity.
        -- intros k Hk. rewrite keys_app. intros Hin.
           apply in_app_or in Hin as [Hin|[<-|[]]].
           ++ apply (Hg k); [now right|exact Hin].
           ++ now apply Hnot.
      * apply omem_false_not_in. apply Hg. now left.
Qed.

Lemma tails_lines nVs :
  Forall name_text_ok nVs -> forall ts,
  length ts = length nVs -> forallb tail_ok ts = true ->
  forallb plain_line (with_tails (map indent (map line_of nVs)) ts) = true
  /\ (forall acc,
         assemble (with_tails (map indent (map line_of nVs)) ts ++ [[]]) acc
         = Ok (acc ++ map strip (with_tails (map indent (map line_of nVs)) ts)))
  /\ (forall g,
         process_lines g (map strip (with_tails (map indent (map line_of nVs)) ts))
         = process_lines g (map line_of nVs)).
Proof.
  induction 1 as [|[n V] nVs [Hn HV] F IH]; intros ts L Ht.
  - destruct ts; [|discriminate]. split; [reflexivity|]. split; [|reflexivity].
    intros acc. cbn. now rewrite app_nil_r.
  - destruct ts as [|t ts]; [discriminate|]. cbn [forallb] in Ht.
    apply andb_true_iff in Ht as [Ht Hts]. cbn [length] in L. injection L as L.
    destruct (IH ts L Hts) as (P & A & R).
    cbn [fst snd] in Hn, HV.
    destruct (tail_line n V Hn HV t Ht) as (P1 & A1 & R1).
    unfold with_tails in *. cbn [map combine fst snd] in *.
    change (line_of (n, V)) with (line n V) in *.
    split; [|split].
    + cbn [forallb]. now rewrite P1, P.
    + intros acc. cbn [app]. rewrite A1, A, <- app_assoc. reflexivity.
    + intros g. cbn [process_lines]. rewrite R1.
      destruct (process_line g (line n V)); cbn [bind]; [apply R|reflexivity].
Qed.

End TailFacts.
(** * Properties *)

Module Facts.
Import Str Obj Mesa Shape Sample.
Import StrFacts DictFacts ReFacts NumFacts ComplexFacts ListFacts.
Import LineFacts GroupFacts TextFacts.
Import BlockFacts ContinueFacts MergeFacts.
Import Forms Kinds.
Local Open Scope string_scope.
Local Open Scope list_scope.

(** C3 (code defect): with [a(1)] and [a(3)] but no [a(2)] the call fails,
    but with a [NameError] for the unbound name [variable] used to build
    the message, so the exception does not name the variable [a]. *)
Theorem gap_raises_name_error :
  parse (lines ["&g"; "a(1)=1.0"; "a(3)=3.0"; "/"])
  = Raise (NameError (lit "variable")).
Proof. vm_compute. reflexivity. Qed.

(** C4 (code defect): a group [a0] followed by two groups [a]; the second
    [a] is stored under [a0] and replaces the group read first. *)
Theorem duplicate_name_clash :
  parse (lines ["&a0"; "x = 1"; "/"; "&a"; "y = 2"; "/"; "&a"; "z = 3"; "/"])
  = Ok (Some (doc [("a0", [("z", PyInt 3)]); ("a", [("y", PyInt 2)])])).
Proof. vm_compute. reflexivity. Qed.

(** C7 (code defect): a comment that contains [=] makes the line fail
    before the comment is removed. *)
Theorem comment_with_equals_fails :
  parse (lines ["&g"; "x = 1 ! a=b"; "/"]) = Raise IndexError
  /\ parse (lines ["&g"; "x = 1"; "/"]) = Ok (Some (doc [("g", [("x", PyInt 1)])])).
Proof. split; vm_compute; reflexivity. Qed.

(** C9 (code defect): the index 0 becomes -1, passes the bound test and
    fills the last slot, so slot 0 stays [None]. *)
Theorem index_zero_leaves_hole :
  parse (lines ["&g"; "a(0)=1"; "a(2)=2"; "/"])
  = Ok (Some (doc [("g", [("a", PyList [PyNone; PyInt 2])])])).
Proof. vm_compute. reflexivity. Qed.


(** C10: assignment through [AttributeMapper] never changes the names of a
    group: a name that is present gets the new value at its place, any
    other name raises [NotImplementedError] and leaves the group as it
    was. *)
Theorem setattr_keeps_names (data : odict obj) (attr : str) (value : obj) :
  let (r, data') := AttributeMapper_setattr data attr value in
  Dict.keys data' = Dict.keys data
  /\ (omem attr data = true ->
      r = Ok tt /\ oget attr data' = Some value
      /\ forall k, k <> attr -> oget k data' = oget k data)
  /\ (omem attr data = false -> r = Raise NotImplementedError /\ data' = data).
Proof.
  unfold AttributeMapper_setattr.
  destruct (omem attr data) eqn:M.
  - split; [apply oset_keys_mem, M|]. split; [|discriminate].
    intros _. split; [reflexivity|]. split; [apply oget_oset_same|].
    intros k N. apply oget_oset_other. congruence.
  - split; [reflexivity|]. split; [discriminate|]. now intros _.
Qed.

Lemma setattr_keeps_names_witness :
  let (r, data') :=
    AttributeMapper_setattr (vars [("x", PyInt 1); ("y", PyInt 2)]) (lit "y") (PyInt 5) in
  Dict.keys data' = Dict.keys (vars [("x", PyInt 1); ("y", PyInt 2)])
  /\ (omem (lit "y") (vars [("x", PyInt 1); ("y", PyInt 2)]) = true ->
      r = Ok tt /\ oget (lit "y") data' = Some (PyInt 5)
      /\ forall k, k <> lit "y" ->
                   oget k data' = oget k (vars [("x", PyInt 1); ("y", PyInt 2)]))
  /\ (omem (lit "y") (vars [("x", PyInt 1); ("y", PyInt 2)]) = false ->
      r = Raise NotImplementedError /\ data' = vars [("x", PyInt 1); ("y", PyInt 2)]).
Proof.
  exact (setattr_keeps_names (vars [("x", PyInt 1); ("y", PyInt 2)]) (lit "y") (PyInt 5)).
Defined.


(** C5 (as amended): once [int()] has failed, a text whose lowercase [d]
    are rewritten to [E] and which then reads as a double is a Real;
    [1.5d2] is the Real 150.0. *)
Theorem real_after_integer :
  (forall (text : str) (x : spec_float),
      Num.int text = None ->
      Num.float (replace "d" "E" text) = Some x ->
      _parse_value text = Ok (PyFloat x))
  /\ _parse_value (lit "1.5d2") = Ok (real 150).
Proof.
  split; [|vm_compute; reflexivity].
  intros text x Hi Hf. unfold _parse_value. now rewrite Hi, Hf.
Qed.

Lemma real_after_integer_witness :
  Num.int (lit "2.5d-1") = None
  /\ Num.float (replace "d" "E" (lit "2.5d-1")) = Some (Num.of_decimal false 25 (-2))
  /\ _parse_value (lit "2.5d-1") = Ok (PyFloat (Num.of_decimal false 25 (-2))).
Proof.
  split; [reflexivity|]. split; [reflexivity|].
  apply (proj1 real_after_integer); reflexivity.
Defined.

(** C5 (the claim as stated fails): an uppercase [D] is not rewritten, so
    [1.5D2] is no single value, and a line [x = 1.5D2] makes the call
    fail. *)
Lemma uppercase_D_not_real :
  _parse_value (lit "1.5D2") = Raise (NoSingleValueFoundException (lit "1.5D2"))
  /\ parse (lines ["&g"; "x = 1.5D2"; "/"])
     = Raise (NoSingleValueFoundException (lit "1.5D2")).
Proof. split; vm_compute; reflexivity. Qed.

(** C6 (code defect): the split is not at the first [=].  A line with more than one [=],
    as [x = 'a=b'] with its [=] inside a quoted value, is not a data line
    for the first loop over the block: as the first line of its group it
    raises IndexError, and after a line that does not end with a comma
    ValueError.  After a line that ends with the comma of its comment it is
    added to that line and lost with the comment: the text is read as if the
    line were not there, so [y = 1 ! note,] followed by [x = 'a=b'] gives
    the group with [y] alone and no error. *)
Theorem equals_in_value_loses_line (gname : str) (bs : list str) (b1 b2 : str)
    (rest : list str) :
  group_name_ok gname = true ->
  (2 <= count "=" b2)%nat ->
  (forallb plain_line (bs ++ b2 :: rest) = true ->
   forallb one_equals bs = true ->
   endswith (strip (last bs [])) (lit ",") = false ->
   parse (dumped gname (bs ++ b2 :: rest))
   = Raise (match bs with [] => IndexError | _ :: _ => ValueError end))
  /\ (forallb plain_line (bs ++ b1 :: b2 :: rest) = true ->
      one_equals b1 = true -> contains "!" b1 = true ->
      endswith (strip b1) (lit ",") = true ->
      forallb one_equals rest = true ->
      parse (dumped gname (bs ++ b1 :: b2 :: rest))
      = parse (dumped gname (bs ++ b1 :: rest)))
  /\ parse (lines ["&g"; "y = 1 ! note,"; "x = 'a=b'"; "/"])
     = Ok (Some (doc [("g", [("y", PyInt 1)])])).
Proof.
  intros Hg C2.
  assert (N1 : count "=" b2 <> 1%nat) by lia.
  assert (N2 : empty_line b2 = false).
  { unfold empty_line. destruct (strip b2) as [|x r] eqn:E; [|reflexivity].
    pose proof (count_strip "="%char b2 eq_refl) as Q. rewrite E in Q.
    change (count "=" []) with 0%nat in Q. lia. }
  assert (S2 : strip b2 <> []).
  { intros H. unfold empty_line in N2. rewrite H in N2. discriminate N2. }
  split; [|split].
  - intros P C E.
    apply parse_raises; [exact Hg|exact P|].
    rewrite forallb_app in P. apply andb_true_iff in P as [P1 P2].
    cbn [forallb] in P2. apply andb_true_iff in P2 as [Pb _].
    destruct (plain_line_facts b2 Pb) as (_ & _ & B).
    rewrite <- app_assoc, assemble_app, (assemble_kept bs []) by assumption.
    cbn [bind app].
    rewrite assemble_stray by assumption.
    destruct bs as [|b0 bs']; [reflexivity|].
    rewrite last_map_strip, E. reflexivity.
  - intros P C1 Bg E1 R.
    assert (P2 : forallb plain_line (bs ++ b1 :: rest) = true).
    { rewrite forallb_app in *. apply andb_true_iff in P as [P0 P1].
      cbn [forallb] in *. apply andb_true_iff in P1 as [Pb1 P1].
      apply andb_true_iff in P1 as [_ Pr]. now rewrite P0, Pb1, Pr. }
    rewrite !parse_text_block by assumption. cbn [parse_blocks].
    now rewrite (merged_block gname bs b1 b2 rest) by assumption.
  - vm_compute. reflexivity.
Qed.

Lemma equals_in_value_loses_line_witness :
  parse (lines ["&g"; "x = 'a=b'"; "y = 1"; "/ ! end of g namelist"; ""])
  = Raise IndexError
  /\ parse (lines ["&g"; "y = 1 ! note,"; "x = 'a=b'"; "z = 2"; "/ ! end of g namelist"; ""])
     = Ok (Some (doc [("g", [("y", PyInt 1); ("z", PyInt 2)])])).
Proof.
  split.
  - exact (proj1 (equals_in_value_loses_line (lit "g") [] (lit "y = 1 ! note,")
                    (lit "x = 'a=b'") [lit "y = 1"] eq_refl (le_n 2))
             eq_refl eq_refl eq_refl).
  - refine (eq_trans
              (proj1 (proj2 (equals_in_value_loses_line (lit "g") [] (lit "y = 1 ! note,")
                               (lit "x = 'a=b'") [lit "z = 2"] eq_refl (le_n 2)))
                 eq_refl eq_refl eq_refl eq_refl eq_refl) _).
    vm_compute. reflexivity.
Defined.


(** C2: the values of indexed assignments are placed by their index: the
    dictionary that collects them, its indices being 0 .. n-1 in whatever
    order they were written, becomes the list with each value at its
    index; [a(2)=2.0] followed by [a(1)=1.0] gives [a = [1.0, 2.0]]. *)
Theorem indexed_values_by_index :
  (forall vs : list (Z * obj),
      NoDup (map fst vs) ->
      (forall i, In i (map fst vs) -> 0 <= i < Z.of_nat (length vs)) ->
      exists l, check_value (is_list_dict vs) = Ok (PyList l)
                /\ length l = length vs
                /\ forall i v, In (i, v) vs -> nth_error l (Z.to_nat i) = Some v)
  /\ parse (lines ["&g"; "a(2)=2.0"; "a(1)=1.0"; "/"])
     = Ok (Some (doc [("g", [("a", PyList [real 1; real 2])])])).
Proof.
  split; [exact check_value_dense|vm_compute; reflexivity].
Qed.

Lemma indexed_values_by_index_witness :
  exists l, check_value (is_list_dict [(1, real 2); (0, real 1)]) = Ok (PyList l)
            /\ length l = 2%nat
            /\ forall i v, In (i, v) [(1, real 2); (0, real 1)] ->
                           nth_error l (Z.to_nat i) = Some v.
Proof.
  apply (proj1 indexed_values_by_index [(1, real 2); (0, real 1)]).
  - repeat constructor; simpl; intuition discriminate.
  - simpl. intros i [<-|[<-|[]]]; lia.
Defined.

(** C8 (as amended): a text [(a,b)] whose sides are unsigned decimals is a
    Complex of the two reals read from [a] and [b]; the alternative comes
    after integer and real and before boolean and quoted string: a text
    that the pattern matches never reaches them. *)
Theorem complex_literal :
  (forall A B, udec A -> udec B ->
     exists re im, Num.float A = Some re /\ Num.float B = Some im
       /\ _parse_value (complex_text A B) = Ok (PyComplex re im))
  /\ (forall text,
        match Num.int text, Num.float (replace "d" "E" text),
              Re.findall complex_re text with
        | Some z, _, _ => _parse_value text = Ok (PyInt z)
        | None, Some x, _ => _parse_value text = Ok (PyFloat x)
        | None, None, [(_, [a; b])] =>
            _parse_value text
            = match Num.float a, Num.float b with
              | Some re, Some im => Ok (PyComplex re im)
              | _, _ => Raise ValueError
              end
        | None, None, _ => True
        end).
Proof.
  split.
  - intros A B HA HB.
    destruct (float_udec A HA) as [re Hre]. destruct (float_udec B HB) as [im Him].
    exists re, im. split; [exact Hre|]. split; [exact Him|].
    unfold _parse_value.
    assert (Ei : Num.int (complex_text A B) = None)
      by (apply int_none_head; reflexivity).
    assert (Ef : Num.float (replace "d" "E" (complex_text A B)) = None)
      by (apply float_none_head; reflexivity).
    rewrite Ei, Ef. unfold Re.findall.
    rewrite <- (app_nil_r (complex_text A B)) at 1.
    rewrite (scan_hit _ _ _ [A; B]).
    + simpl. now rewrite Hre, Him.
    + discriminate.
    + rewrite app_nil_r. now apply complex_match.
  - intros text. unfold _parse_value.
    destruct (Num.int text) as [z|]; [reflexivity|].
    destruct (Num.float (replace "d" "E" text)) as [x|]; [reflexivity|].
    destruct (Re.findall complex_re text) as [|[m [|a [|b [|c gs]]]] [|m2 ms]];
      auto.
Qed.

Lemma complex_literal_witness :
  udec (lit "1.0") /\ udec (lit "20")
  /\ exists re im, Num.float (lit "1.0") = Some re /\ Num.float (lit "20") = Some im
       /\ _parse_value (lit "(1.0,20)") = Ok (PyComplex re im).
Proof.
  assert (H1 : udec (lit "1.0")).
  { apply (udec_frac (lit "1") (lit "0")); [split; [discriminate|]|]; reflexivity. }
  assert (H2 : udec (lit "20")).
  { apply udec_int. split; [discriminate|reflexivity]. }
  split; [exact H1|]. split; [exact H2|].
  exact (proj1 complex_literal (lit "1.0") (lit "20") H1 H2).
Defined.

(** C8 (the claim as stated fails): a sign is not part of the pattern, so
    [(-1.0,2.0)] is no single value. *)
Lemma signed_complex_not_recognized :
  _parse_value (lit "(-1.0,2.0)")
  = Raise (NoSingleValueFoundException (lit "(-1.0,2.0)"))
  /\ parse (lines ["&g"; "x = (-1.0,2.0)"; "/"])
     = Raise (NoSingleValueFoundException (lit "(-1.0,2.0)")).
Proof. split; vm_compute; reflexivity. Qed.

(** C1 (as amended): let the group [gname] of a document hold variables
    with distinct names made of [name_char], each bound to an Integer, a
    Boolean, a Real, a Text made of [text_char], a List of two or more
    Integers, Booleans and Reals, or a List of two or more Texts that start,
    after their blanks, with a word character; let [gname] hold no white
    space, [&] or [/].  Then [dump] with inline arrays succeeds, and reading
    its text gives a document of that one group with the same names in the
    same order, every value the same but for the Reals, each of which is the
    double nearest to its three printed digits.  Texts are made of
    characters below 256, as everywhere in this development. *)
Theorem dump_then_parse (D : document) (gname : str) (g : group) :
  oget gname D = Some g ->
  group_name_ok gname = true ->
  group_ok g = true ->
  exists text,
    dump D gname true = Ok text
    /\ parse text = Ok (Some [(gname, reread_group g)]).
Proof.
  intros HD Hname Hg. unfold group_ok in Hg.
  apply andb_true_iff in Hg as [Hdist Hvars].
  apply distinct_NoDup in Hdist.
  destruct (items_lines g Hvars Hdist) as (ls & Hdump & Hlines & Hread).
  exists (dumped gname (map (fun l => lit "   " ++ l) ls)). split.
  - unfold dump. rewrite HD, Hdump. reflexivity.
  - apply (parse_dumped gname _ ls (held_items g)).
    + exact Hname.
    + exact Hlines.
    + apply (Hread []). intros k _ [].
    + now apply check_items_held.
Qed.

Lemma dump_then_parse_witness :
  exists text,
    dump (doc [("star", [("mass", real 12345); ("steps", PyInt 300);
                         ("names", PyList [PyStr (lit "a b"); PyStr (lit "c")]);
                         ("save", PyBool true); ("model", PyStr (lit "run 1"));
                         ("zs", PyList [real 2; PyInt (-3)])])])
         (lit "star") true = Ok text
    /\ parse text
       = Ok (Some (doc [("star", [("mass", real 12300); ("steps", PyInt 300);
                                  ("names", PyList [PyStr (lit "a b"); PyStr (lit "c")]);
                                  ("save", PyBool true); ("model", PyStr (lit "run 1"));
                                  ("zs", PyList [real 2; PyInt (-3)])])])).
Proof.
  apply (dump_then_parse
           (doc [("star", [("mass", real 12345); ("steps", PyInt 300);
                           ("names", PyList [PyStr (lit "a b"); PyStr (lit "c")]);
                           ("save", PyBool true); ("model", PyStr (lit "run 1"));
                           ("zs", PyList [real 2; PyInt (-3)])])])
           (lit "star")
           (vars [("mass", real 12345); ("steps", PyInt 300);
                  ("names", PyList [PyStr (lit "a b"); PyStr (lit "c")]);
                  ("save", PyBool true); ("model", PyStr (lit "run 1"));
                  ("zs", PyList [real 2; PyInt (-3)])])); reflexivity.
Defined.

(** C1 (the claim as stated fails): a List of one Integer is written as a
    single value and comes back as an Integer, and the text written for a
    Complex is no single value for the parser, which fails on it. *)
Lemma single_entry_and_complex_not_restored :
  dump (doc [("g", [("x", PyList [PyInt 1])])]) (lit "g") true
  = Ok (lines ["&g"; "   x = 1"; "/ ! end of g namelist"; ""])
  /\ parse (lines ["&g"; "   x = 1"; "/ ! end of g namelist"; ""])
     = Ok (Some (doc [("g", [("x", PyInt 1)])]))
  /\ dump (doc [("g", [("z", PyComplex (Num.of_Z 1) (Num.of_Z 2))])]) (lit "g") true
     = Ok (lines ["&g"; "   z = (1.00d+00,2.00d+00)"; "/ ! end of g namelist"; ""])
  /\ parse (lines ["&g"; "   z = (1.00d+00,2.00d+00)"; "/ ! end of g namelist"; ""])
     = Raise (NoSingleValueFoundException (lit "(1.00d+00,2.00d+00)")).
Proof. repeat split; vm_compute; reflexivity. Qed.

End Facts.
(** * Further properties of the code *)

Module More.
Import Str Obj Mesa Shape Sample Forms Kinds.
Import StrFacts DictFacts ReFacts NumFacts ComplexFacts ListFacts ScalarFacts.
Import GroupFacts OutcomeFacts SweepFacts InvariantFacts.
Import JoinFacts TextFacts DumpFacts CommentFacts BoundsFacts IndexedFacts.
Import DefaultsFacts NumberedFacts BlockFacts TailFacts.
Import AssignFacts ContinueFacts CommaFacts.
Local Open Scope string_scope.
Local Open Scope list_scope.

(** X1: what [format_value_to_fortran] writes for an Integer, a Boolean or
    a Real is read by [Namelist._parse_value] and by
    [MESAdefaults._parse_value] as the same Integer or Boolean, and as the
    Real nearest to the three digits written. *)
Theorem number_read_back (v : obj) :
  number_like v = true ->
  exists t, format_value_to_fortran v = Ok t
            /\ _parse_value t = Ok (reread_scalar v)
            /\ Defaults._parse_value t = Ok (reread_scalar v).
Proof.
  intros Hv. destruct (number_token v Hv) as (t & F & _ & P).
  exists t. split; [exact F|]. split; [exact P|].
  pose proof (parse_value_defaults t) as R. rewrite P in R.
  destruct v; try discriminate; exact R.
Qed.

Lemma number_read_back_witness :
  exists t, format_value_to_fortran (real 12345) = Ok t
            /\ _parse_value t = Ok (real 12300)
            /\ Defaults._parse_value t = Ok (real 12300).
Proof. apply (number_read_back (real 12345)). reflexivity. Defined.

(** X2: a Text is written between single quotes, and both chains read it
    back exactly when it holds no single quote; with one inside, the text
    written is no single value. *)
Theorem text_read_back (s : str) :
  format_value_to_fortran (PyStr s) = Ok (quoted s)
  /\ _parse_value (quoted s)
     = (if contains quote s then Raise (NoSingleValueFoundException (quoted s))
        else Ok (PyStr s))
  /\ Defaults._parse_value (quoted s) = _parse_value (quoted s).
Proof.
  split; [reflexivity|]. split; [apply parse_value_quoted|].
  pose proof (parse_value_defaults (quoted s)) as R.
  rewrite parse_value_quoted in *. now destruct (contains quote s).
Qed.

(** X3: [_parse_value] returns a single value only (never [None], a list or
    a dictionary); when it fails it raises [NoSingleValueFoundException]
    with its argument, or, for some texts that start with a parenthesis,
    the [ValueError] of [float()], which the caller does not catch. *)
Theorem parse_value_outcomes (t : str) :
  match _parse_value t with
  | Ok v => scalar v = true
  | Raise e => e = NoSingleValueFoundException t
               \/ (e = ValueError /\ exists r, t = "("%char :: r)
  end.
Proof. exact (parse_value_outcome t). Qed.

(** X4: [MESAdefaults._parse_value] is [Namelist._parse_value] without
    the complex numbers: where the latter gives a Complex, or fails inside
    the complex alternative, the former raises
    [NoSingleValueFoundException]; everywhere else the two agree. *)
Theorem defaults_chain_agrees (t : str) :
  match _parse_value t with
  | Ok (PyComplex _ _) | Raise ValueError =>
      Defaults._parse_value t = Raise (NoSingleValueFoundException t)
  | r => Defaults._parse_value t = r
  end.
Proof. exact (parse_value_defaults t). Qed.

(** X5: in the document of a successful call no key occurs twice, and every
    value is a single value or a list of single values and [None]: no
    dictionary of a list is left, and no list lies inside a list. *)
Theorem parsed_values_flat (text : str) (D : document) :
  parse text = Ok (Some D) ->
  keys_distinct D = true
  /\ forallb (fun ng => keys_distinct (snd ng)) D = true
  /\ all_groups flat D = true.
Proof.
  unfold parse, Namelist. destruct (_ && _); [discriminate|].
  match goal with
  | |- context [parse_blocks ?b [] []] =>
      destruct (parse_blocks b [] []) as [D1|e] eqn:P; [|discriminate]
  end.
  cbn [bind]. intros [= <-].
  apply parse_blocks_flat in P as [N F]; [|constructor|intros n g []].
  split; [now apply distinct_iff|]. split.
  - apply forallb_forall. intros [n g] Hin. apply distinct_iff.
    now destruct (F n g Hin).
  - apply all_values_forall. intros n g Hin. apply all_values_forall.
    now destruct (F n g Hin).
Qed.

Lemma parsed_values_flat_witness :
  parse (lines ["&g"; "a(0) = 1"; "a(2) = 2.5"; "t = 'x' 'y'"; "/"; "&h"; "z = (1,2)"; "/"])
  = Ok (Some (doc [("g", [("a", PyList [PyNone; PyFloat (Num.of_decimal false 25 (-1))]);
                          ("t", PyList [PyStr (lit "x"); PyStr (lit "y")])]);
                   ("h", [("z", PyComplex (Num.of_Z 1) (Num.of_Z 2))])]))
  /\ keys_distinct
       (doc [("g", [("a", PyList [PyNone; PyFloat (Num.of_decimal false 25 (-1))]);
                    ("t", PyList [PyStr (lit "x"); PyStr (lit "y")])]);
             ("h", [("z", PyComplex (Num.of_Z 1) (Num.of_Z 2))])]) = true.
Proof.
  assert (H : parse (lines ["&g"; "a(0) = 1"; "a(2) = 2.5"; "t = 'x' 'y'"; "/";
                            "&h"; "z = (1,2)"; "/"])
              = Ok (Some (doc [("g", [("a", PyList [PyNone; PyFloat (Num.of_decimal false 25 (-1))]);
                                      ("t", PyList [PyStr (lit "x"); PyStr (lit "y")])]);
                               ("h", [("z", PyComplex (Num.of_Z 1) (Num.of_Z 2))])])))
    by (vm_compute; reflexivity).
  split; [exact H|]. exact (proj1 (parsed_values_flat _ _ H)).
Defined.

(** X6: [_check_lists] keeps the names of the groups and of their variables,
    and a document that has gone through it goes through it again
    unchanged (the parser calls it once more after every group). *)
Theorem check_lists_idempotent (D D' : document) :
  keys_distinct D = true ->
  forallb (fun ng => keys_distinct (snd ng)) D = true ->
  _check_lists D = Ok D' ->
  Dict.keys D' = Dict.keys D
  /\ map (fun ng => Dict.keys (snd ng)) D' = map (fun ng => Dict.keys (snd ng)) D
  /\ _check_lists D' = Ok D'.
Proof.
  intros HD HG H. apply distinct_iff in HD. rewrite forallb_forall in HG.
  unfold _check_lists in *. rewrite check_groups_sweep in *.
  assert (K : Dict.keys D' = Dict.keys D) by (apply (sweep_keys _ _ _ _ H); auto).
  split; [exact K|].
  assert (Q : forall n g, In (n, g) D' ->
                          NoDup (Dict.keys g) /\ check_items g g = Ok g).
  { apply (sweep_all _ (fun g => NoDup (Dict.keys g) /\ check_items g g = Ok g)
             D D D' H HD).
    - intros n g g' Hin C.
      assert (N : NoDup (Dict.keys g)) by (apply distinct_iff, (HG (n, g) Hin)).
      split; [now apply (check_items_keys g)|now apply (check_items_fixed g)].
    - intros n g Hin. right. eapply In_keys, Hin. }
  split.
  - apply (sweep_map _ (@Dict.keys str obj) D D D' H HD HD); [auto|].
    intros n g g' Hin C. apply (check_items_keys g); [|exact C].
    apply distinct_iff, (HG (n, g) Hin).
  - apply sweep_fixed; [now rewrite K|].
    intros n g Hin. split; [exact Hin|]. now apply (Q n).
Qed.

Lemma check_lists_idempotent_witness :
  _check_lists (doc [("g", [("a", is_list_dict [(1, PyInt 2); (0, PyInt 1)]);
                            ("x", PyStr (lit "s"))])])
  = Ok (doc [("g", [("a", PyList [PyInt 1; PyInt 2]); ("x", PyStr (lit "s"))])])
  /\ _check_lists (doc [("g", [("a", PyList [PyInt 1; PyInt 2]); ("x", PyStr (lit "s"))])])
     = Ok (doc [("g", [("a", PyList [PyInt 1; PyInt 2]); ("x", PyStr (lit "s"))])]).
Proof.
  assert (H : _check_lists (doc [("g", [("a", is_list_dict [(1, PyInt 2); (0, PyInt 1)]);
                                        ("x", PyStr (lit "s"))])])
              = Ok (doc [("g", [("a", PyList [PyInt 1; PyInt 2]); ("x", PyStr (lit "s"))])]))
    by reflexivity.
  split; [exact H|].
  refine (proj2 (proj2 (check_lists_idempotent _ _ _ _ H))); reflexivity.
Defined.

(** X7: [dump] succeeds exactly when the group exists and each of its
    values is a single value or a list of single values, with inline arrays
    or without.  A missing group raises [KeyError] with its name.  Otherwise
    the [Exception] names the type of the value refused first: in the first
    variable of the group, in order, whose value cannot be written, that
    value itself ([None] or a dictionary) or, when it is a list, its first
    entry that is no single value. *)
Theorem dump_outcomes (D : document) (n : str) (array_inline : bool) :
  match dump D n array_inline with
  | Ok _ => exists g, oget n D = Some g /\ all_values dumpable g = true
  | Raise e =>
      (oget n D = None /\ e = KeyError n)
      \/ (exists g1 name v g2 x,
             oget n D = Some (g1 ++ (name, v) :: g2)
             /\ all_values dumpable (g1 ++ (name, v) :: g2) = false
             /\ all_values dumpable g1 = true
             /\ first_refused v x /\ e = not_understood x)
  end.
Proof. exact (dump_outcome D n array_inline). Qed.

(** X8: a line whose stripped text starts with [!] counts for nothing: the
    text with such a line among its lines is parsed as the text without
    it, whatever the line holds ([&], [/] and [=] included), as long as the
    text without it is not empty. *)
Theorem comment_line_dropped (before after : list str) (c : str) :
  no_feed (before ++ c :: after) = true ->
  startswith (strip c) (lit "!") = true ->
  join [nl] (before ++ after) <> [] ->
  parse (join [nl] (before ++ c :: after)) = parse (join [nl] (before ++ after)).
Proof.
  intros Hf Hc Hne.
  assert (Hf' : no_feed (before ++ after) = true).
  { unfold no_feed in *. rewrite forallb_app in *. cbn [forallb] in Hf.
    apply andb_true_iff in Hf as [H1 H2]. apply andb_true_iff in H2 as [_ H2].
    now rewrite H1, H2. }
  assert (N1 : before ++ c :: after <> []) by (now destruct before).
  assert (N2 : before ++ after <> []) by (intros E; rewrite E in Hne; now apply Hne).
  assert (Hc0 : exists x c', c = x :: c').
  { destruct c as [|x c']; [discriminate|eauto]. }
  assert (Hne1 : join [nl] (before ++ c :: after) <> []).
  { destruct Hc0 as (x & c' & ->). intros E.
    assert (C : contains x (join [nl] (before ++ (x :: c') :: after)) = true).
    { clear. induction before as [|b bs IH].
      - cbn [app]. destruct after; cbn [join]; rewrite ?contains_app, contains_cons,
          Ascii.eqb_refl; reflexivity.
      - cbn [app]. destruct (bs ++ (x :: c') :: after) eqn:E; [now destruct bs|].
        rewrite join_cons, !contains_app, IH. now rewrite !orb_true_r. }
    pose proof (eq_trans (eq_sym (f_equal (contains x) E)) C) as F.
    discriminate F. }
  unfold parse, Namelist.
  apply eqb_neq in Hne. apply eqb_neq in Hne1. rewrite Hne, Hne1, !andb_false_r.
  rewrite !filtered_lines_join by assumption.
  rewrite !filter_app. cbn [filter]. unfold kept at 2. rewrite Hc. reflexivity.
Qed.

Lemma comment_line_dropped_witness :
  parse (join [nl] ([lit "&g"; lit "x = 1"] ++ lit "  ! &h = / " :: [lit "y = 2"; lit "/"]))
  = parse (join [nl] ([lit "&g"; lit "x = 1"] ++ [lit "y = 2"; lit "/"])).
Proof.
  apply (comment_line_dropped [lit "&g"; lit "x = 1"] [lit "y = 2"; lit "/"]
           (lit "  ! &h = / ")); [reflexivity|reflexivity|discriminate].
Defined.

(** X9: a text without [&] holds no group: an empty text leaves the object
    without [groups], so that each of the properties [star_job], [controls],
    ... raises [AttributeError]; any other text gives the empty document,
    and the properties are [None]. *)
Theorem text_without_group (text : str) (name : string) :
  contains "&" text = false ->
  Access.MESA text = Ok (match text with [] => None | _ => Some [] end)
  /\ (groups <- Access.MESA text ;; Access.namelist_property name groups)
     = match text with [] => Raise AttributeError | _ => Ok None end.
Proof.
  intros H. unfold Access.MESA, Namelist.
  destruct text as [|c t]; [split; reflexivity|].
  cbn [Str.eqb andb].
  rewrite findall_no_group by exact H. split; reflexivity.
Qed.

Lemma text_without_group_witness :
  Access.MESA (lines ["! nothing"; "x = 1 /"]) = Ok (Some [])
  /\ (groups <- Access.MESA (lines ["! nothing"; "x = 1 /"]) ;; Access.controls groups)
     = Ok None.
Proof.
  exact (text_without_group (lines ["! nothing"; "x = 1 /"]) "controls" eq_refl).
Defined.

(** X10: the bounds of [_check_lists]: the dictionary of a list with [n]
    entries becomes a list of length [n] exactly when every index [i] has
    [-n <= i < n] (a negative index counts from the end); otherwise an
    index [i >= n] met first gives the [NameError] of the unbound name
    [variable], an index below [-n] the [IndexError] of the list. *)
Theorem list_dictionary_bounds (vs : list (Z * obj)) :
  let n := Z.of_nat (length vs) in
  match check_value (is_list_dict vs) with
  | Ok v => (forall i, In i (map fst vs) -> - n <= i < n)
            /\ exists l, v = PyList l /\ length l = length vs
  | Raise e =>
      exists i, In i (map fst vs)
                /\ ((n <= i /\ e = NameError (lit "variable"))
                    \/ (i < - n /\ e = IndexError))
  end.
Proof. exact (check_value_bounds vs). Qed.

(** X11: reading through the mapper follows assignment through it: after a
    successful [__setattr__] the name gives the value assigned (a new
    mapper when it is a dictionary) and every other name gives what it gave
    before; [__setattr__] raises [NotImplementedError] exactly where
    [__getattr__] raises [AttributeError]; and [__dir__] lists exactly the
    names that [__getattr__] finds. *)
Theorem getattr_follows_setattr (data : odict obj) (attr : str) (value : obj) :
  let (r, data') := AttributeMapper_setattr data attr value in
  (r = Ok tt ->
   Access.AttributeMapper_getattr data' attr = Ok (found_of value)
   /\ forall k, k <> attr ->
                Access.AttributeMapper_getattr data' k
                = Access.AttributeMapper_getattr data k)
  /\ (r = Raise NotImplementedError
      <-> Access.AttributeMapper_getattr data attr = Raise AttributeError)
  /\ (forall k, In k (Access.AttributeMapper_dir data)
                <-> exists f, Access.AttributeMapper_getattr data k = Ok f).
Proof.
  unfold AttributeMapper_setattr, Access.AttributeMapper_getattr,
    Access.AttributeMapper_dir.
  assert (Hdir : forall k, In k (Dict.keys data)
                           <-> exists f, match oget k data with
                                         | Some (PyDict d) => Ok (Access.Mapper d)
                                         | Some o => Ok (Access.Value o)
                                         | None => Raise AttributeError
                                         end = Ok f).
  { intros k. rewrite <- omem_in_keys. unfold omem, oget, Dict.mem.
    destruct (Dict.get Str.eqb k data) as [o|].
    - split; [intros _|reflexivity]. destruct o; eauto.
    - split; [discriminate|intros [f Hf]; discriminate]. }
  destruct (omem attr data) eqn:M.
  - split; [|split; [|exact Hdir]].
    + intros _. split.
      * rewrite oget_oset_same. now destruct value.
      * intros k N. rewrite oget_oset_other by congruence. reflexivity.
    + unfold omem, oget, Dict.mem in *.
      destruct (Dict.get Str.eqb attr data) as [o|]; [|discriminate].
      split; [discriminate|]. now destruct o.
  - split; [discriminate|]. split; [|exact Hdir].
    unfold omem, oget, Dict.mem in *.
    destruct (Dict.get Str.eqb attr data); [discriminate|]. now split.
Qed.

(** X12: the round trip without inline arrays.  Let the variables of the
    group have distinct names; let each be an Integer, a Boolean, a Real or
    a Text made of [text_char] under a name made of [name_char], or a list
    of one or more of these, mixed or not, under a name of word characters;
    let the name of the group hold no white space, [&] or [/].  Then [dump]
    with one line for each entry succeeds, and its text is read back as the
    same group, lists of one entry included, every Real being the double
    nearest to its three printed digits. *)
Theorem dump_indexed_then_parse (D : document) (gname : str) (g : group) :
  oget gname D = Some g ->
  group_name_ok gname = true ->
  indexed_group_ok g = true ->
  exists text,
    dump D gname false = Ok text
    /\ parse text = Ok (Some [(gname, reread_group g)]).
Proof.
  intros HD Hname Hg. unfold indexed_group_ok in Hg.
  apply andb_true_iff in Hg as [Hdist Hvars].
  apply distinct_NoDup in Hdist.
  destruct (items_lines_indexed g Hvars Hdist) as (ls & Hdump & Hlines & Hread).
  exists (dumped gname (map indent ls)). split.
  - unfold dump. rewrite HD, Hdump. reflexivity.
  - apply (parse_dumped gname _ ls (held_items g)).
    + exact Hname.
    + exact Hlines.
    + apply (Hread []). intros k _ [].
    + now apply check_items_held_indexed.
Qed.

Lemma dump_indexed_then_parse_witness :
  exists text,
    dump (doc [("star", [("mass", real 12345); ("one", PyList [PyInt 7]);
                         ("mix", PyList [PyStr (lit "a b"); PyBool false; real 2])])])
         (lit "star") false = Ok text
    /\ parse text
       = Ok (Some (doc [("star", [("mass", real 12300); ("one", PyList [PyInt 7]);
                                  ("mix", PyList [PyStr (lit "a b"); PyBool false;
                                                  real 2])])])).
Proof.
  apply (dump_indexed_then_parse
           (doc [("star", [("mass", real 12345); ("one", PyList [PyInt 7]);
                           ("mix", PyList [PyStr (lit "a b"); PyBool false; real 2])])])
           (lit "star")
           (vars [("mass", real 12345); ("one", PyList [PyInt 7]);
                  ("mix", PyList [PyStr (lit "a b"); PyBool false; real 2])]));
    reflexivity.
Defined.

(** X13: a line with two [=], as [name = 'a=b'], is read by
    [MESAdefaults._get_defaults] as the name left of the first [=] and the
    value right of it, while the first loop of [Namelist.__init__] takes it
    for the continuation of a line and, as the first line of a block, fails
    with [IndexError]. *)
Theorem defaults_value_after_first_equals (elements : odict obj) (n a b : str) :
  contains "=" n = false -> contains "=" a = false -> contains "=" b = false ->
  contains "!" n = false -> contains "!" a = false -> contains "!" b = false ->
  Defaults.read_line elements (n ++ "="%char :: a ++ "="%char :: b)
  = ([], v <- Defaults._parse_value (strip (a ++ "="%char :: b)) ;;
         Ok (oset (strip n) v elements))
  /\ forall rest,
       assemble ((n ++ "="%char :: a ++ "="%char :: b) :: rest) [] = Raise IndexError.
Proof.
  intros En Ea Eb Bn Ba Bb. split.
  - now apply read_line_two_equals.
  - intros rest. now apply assemble_two_equals.
Qed.

Lemma defaults_value_after_first_equals_witness :
  Defaults.read_line [] (lit "x = 'a=b'") = ([], Ok [(lit "x", PyStr (lit "a=b"))])
  /\ assemble [lit "x = 'a=b'"] [] = Raise IndexError.
Proof.
  destruct (defaults_value_after_first_equals [] (lit "x ") (lit " 'a") (lit "b'")
              eq_refl eq_refl eq_refl eq_refl eq_refl eq_refl) as [H1 H2].
  split; [exact H1|exact (H2 [])].
Defined.

(** X14: [_get_defaults] passes over every line whose stripped text starts
    with [!] and every line without [=] (a header, a blank line, the
    continuation of a value): the file with such a line reads as the file
    without it. *)
Theorem defaults_line_ignored (before after : list str) (c : str) :
  idle c ->
  Defaults._get_defaults (before ++ c :: after) = Defaults._get_defaults (before ++ after).
Proof. intros H. now apply get_defaults_idle. Qed.

Lemma defaults_line_ignored_witness :
  Defaults._get_defaults ([lines ["x = 1"; ""]] ++ lines ["  ! y = 2"; ""]
                          :: [lines ["z = .true."; ""]])
  = ([], Ok [(lit "x", PyInt 1); (lit "z", PyBool true)]).
Proof.
  rewrite (defaults_line_ignored [lines ["x = 1"; ""]] [lines ["z = .true."; ""]]
             (lines ["  ! y = 2"; ""]) (or_introl eq_refl)).
  reflexivity.
Defined.

(** X15: groups of the same name.  When every block of the text has the
    name [a], the first group is stored under [a] and the next ones under
    [a0], [a1], ... in the order of the text, each with its own variables
    as [_check_lists] leaves them. *)
Theorem same_name_groups_numbered (a : str) (bs : list str) (hs : list group) :
  Forall2 (block_of_name a) bs hs ->
  parse_blocks bs [] [] = Ok (combine (map (numbered a) (seq 0 (length bs))) hs).
Proof. intros F. now apply parse_blocks_same_name. Qed.

Lemma same_name_groups_numbered_witness :
  parse_blocks [lines ["a"; "x = 1"; ""]; lines ["a"; "y(1) = 2"; ""]; lines ["a"; "z = 3"; ""]]
               [] []
  = Ok (doc [("a", [("x", PyInt 1)]); ("a0", [("y", PyList [PyInt 2])]);
             ("a1", [("z", PyInt 3)])]).
Proof.
  apply (same_name_groups_numbered (lit "a")
           [lines ["a"; "x = 1"; ""]; lines ["a"; "y(1) = 2"; ""]; lines ["a"; "z = 3"; ""]]
           [vars [("x", PyInt 1)]; vars [("y", PyList [PyInt 2])]; vars [("z", PyInt 3)]]).
  repeat constructor; eexists; split; reflexivity.
Defined.

(** X16: commas at the end of lines are optional, and comments after a
    value are dropped.  Take the lines [dump] writes with inline arrays for
    the variables of a group as in C1, and let each be followed by nothing,
    by a comma, or by [!] and a comment without [=], [&] and line feed:
    the text of the group with these lines is read back as the same
    group. *)
Theorem tails_change_nothing (gname : str) (g : group) (body : list str)
    (ts : list tail) :
  group_name_ok gname = true ->
  group_ok g = true ->
  dump_items true g = Ok body ->
  length ts = length body -> forallb tail_ok ts = true ->
  parse (dumped gname (with_tails body ts)) = Ok (Some [(gname, reread_group g)]).
Proof.
  intros Hname Hg Hbody Lts Hts. unfold group_ok in Hg.
  apply andb_true_iff in Hg as [Hdist Hvars].
  apply distinct_NoDup in Hdist.
  destruct (items_lines_shape g Hvars Hdist) as (nVs & Sh & Len & Hdump & Hread).
  rewrite Hdump in Hbody. injection Hbody as <-.
  rewrite !length_map in Lts.
  destruct (tails_lines nVs Sh ts Lts Hts) as (P & A & R).
  apply (parse_group_text gname _
           (map strip (with_tails (map indent (map line_of nVs)) ts))
           (held_items g)).
  - exact Hname.
  - exact P.
  - apply (A []).
  - rewrite R. apply (Hread []). intros k _ [].
  - now apply check_items_held.
Qed.

Lemma tails_change_nothing_witness :
  parse (lines ["&star"; "   mass = 1.23d+04! solar masses";
                "   zs = 2.00d+00 -3,"; "   name = 'run 1'"; "/ ! end of star namelist"; ""])
  = Ok (Some (doc [("star", [("mass", real 12300); ("zs", PyList [real 2; PyInt (-3)]);
                             ("name", PyStr (lit "run 1"))])])).
Proof.
  exact (tails_change_nothing (lit "star")
           (vars [("mass", real 12345); ("zs", PyList [real 2; PyInt (-3)]);
                  ("name", PyStr (lit "run 1"))])
           [lit "   mass = 1.23d+04"; lit "   zs = 2.00d+00 -3"; lit "   name = 'run 1'"]
           [Comment (lit " solar masses"); Comma; Bare]
           eq_refl eq_refl eq_refl eq_refl eq_refl).
Defined.

(** X17: a line which is not split in two at [=].  In the text of a group whose
    lines so far have one [=] each, take the first line which is not empty
    and has no [=] or more than one, after a line that does not end with a
    comma: reading the text raises IndexError when it is the first line of
    the group and ValueError otherwise, whatever follows. *)
Theorem line_without_name (gname : str) (bs : list str) (b : str) (rest : list str) :
  group_name_ok gname = true ->
  forallb plain_line (bs ++ b :: rest) = true ->
  forallb one_equals bs = true ->
  empty_line b = false -> one_equals b = false ->
  endswith (strip (last bs [])) (lit ",") = false ->
  parse (dumped gname (bs ++ b :: rest))
  = Raise (match bs with [] => IndexError | _ :: _ => ValueError end).
Proof.
  intros Hg P C N Q E.
  apply parse_raises; [exact Hg|exact P|].
  rewrite forallb_app in P. apply andb_true_iff in P as [P1 P2].
  cbn [forallb] in P2. apply andb_true_iff in P2 as [Pb _].
  destruct (plain_line_facts b Pb) as (_ & _ & B).
  rewrite <- app_assoc, assemble_app, (assemble_kept bs []) by assumption.
  cbn [bind app].
  rewrite assemble_stray.
  - destruct bs as [|b0 bs']; [reflexivity|].
    rewrite last_map_strip, E. reflexivity.
  - intros H. apply Nat.eqb_eq in H. unfold one_equals in Q. congruence.
  - intros H. unfold empty_line in N. rewrite H in N. discriminate N.
  - exact B.
Qed.

Lemma line_without_name_witness :
  parse (lines ["&star"; "   mass = 1"; "   2 3"; "   name = 'run'";
                "/ ! end of star namelist"; ""])
  = Raise ValueError.
Proof.
  exact (line_without_name (lit "star") [lit "   mass = 1"] (lit "   2 3")
           [lit "   name = 'run'"] eq_refl eq_refl eq_refl eq_refl eq_refl eq_refl).
Defined.

(** X18: a line continued on the next one.  In the text of a group, a line
    with one [=] that ends with a comma, followed by a line which is not
    empty and has no [=], is read as the two lines joined into one (each
    without the white space around it). *)
Theorem line_continued (gname : str) (bs : list str) (b1 b2 : str) (rest : list str) :
  group_name_ok gname = true ->
  forallb plain_line (bs ++ b1 :: b2 :: rest) = true ->
  one_equals b1 = true -> endswith (strip b1) (lit ",") = true ->
  contains "=" b2 = false -> empty_line b2 = false ->
  parse (dumped gname (bs ++ b1 :: b2 :: rest))
  = parse (dumped gname (bs ++ (strip b1 ++ strip b2) :: rest)).
Proof.
  intros Hg P C1 E1 C2 N2.
  pose proof P as P'.
  rewrite forallb_app in P'. apply andb_true_iff in P' as [P0 P1].
  cbn [forallb] in P1. apply andb_true_iff in P1 as [Pb1 P1].
  apply andb_true_iff in P1 as [Pb2 Pr].
  apply Nat.eqb_eq in C1.
  assert (Z2 : count "=" b2 = 0%nat) by now apply count_zero.
  assert (S2 : strip b2 <> []).
  { intros H. unfold empty_line in N2. rewrite H in N2. discriminate N2. }
  destruct (plain_line_facts b1 Pb1) as (_ & _ & B1).
  destruct (plain_line_facts b2 Pb2) as (_ & _ & B2).
  apply parse_same_lines; [exact Hg|exact P| |].
  - rewrite forallb_app, P0. cbn [forallb andb].
    rewrite plain_line_joined by assumption. exact Pr.
  - rewrite <- !app_assoc. apply assemble_front. intros bl.
    cbn [app]. rewrite assemble_continued by assumption.
    now rewrite assemble_joined by assumption.
Qed.

Lemma line_continued_witness :
  parse (lines ["&star"; "   zs = 1,"; "     2 3"; "/ ! end of star namelist"; ""])
  = parse (lines ["&star"; "zs = 1,2 3"; "/ ! end of star namelist"; ""]).
Proof.
  exact (line_continued (lit "star") [] (lit "   zs = 1,") (lit "     2 3") []
           eq_refl eq_refl eq_refl eq_refl eq_refl eq_refl).
Defined.

(** X19: values separated by commas.  The line of a variable whose value is
    the text of two or more Integers, Booleans or Reals, separated by commas
    and blanks in any number, is read as the list of these values. *)
Theorem values_with_commas (gname n t : str) (more : list (str * str)) (vs : list obj) :
  group_name_ok gname = true -> var_name_ok n = true ->
  entries_ok t more = true -> more <> [] ->
  Forall2 parses (t :: map snd more) vs ->
  parse (dumped gname [indent (line n (listed t more))])
  = Ok (Some [(gname, [(n, PyList vs)])]).
Proof.
  intros Hg Hn E N F.
  destruct (entries_ok_parts t more E) as [Ht H].
  pose proof (listed_vtext t more Ht H N) as HV.
  pose proof (body_line_good n (listed t more) Hn HV) as G.
  apply (parse_group_text gname _ [line n (listed t more)]
           [(n, is_list_dict (enum_from 0 vs))]).
  - exact Hg.
  - destruct G as (Nl & A & B & _). unfold plain_line, indent. cbn [forallb].
    now rewrite Nl, A, B.
  - apply (assemble_good [indent (line n (listed t more))] [line n (listed t more)]
             ltac:(constructor; [exact G|constructor]) []).
  - cbn [process_lines]. rewrite (process_line_listed n t more vs) by assumption. reflexivity.
  - cbn [check_items]. rewrite check_value_enum. cbn [bind oset Dict.set].
    now rewrite eqb_refl.
Qed.

Lemma values_with_commas_witness :
  parse (lines ["&star"; "   zs = 1, 2d0 ,,.true."; "/ ! end of star namelist"; ""])
  = Ok (Some (doc [("star", [("zs", PyList [PyInt 1; real 2; PyBool true])])])).
Proof.
  apply (values_with_commas (lit "star") (lit "zs") (lit "1")
           [(lit ", ", lit "2d0"); (lit " ,,", lit ".true.")]
           [PyInt 1; real 2; PyBool true] eq_refl eq_refl eq_refl).
  - discriminate.
  - repeat constructor.
Defined.

End More.
